(** * Transit builder (mjolnir/transitbuilder.cc): a shallow embedding

    The development follows the source file function by function:
    [ProcessStopPairs], [GetTransitUse], [GetShape], [GetGraphId],
    [AddToGraph], [AddOSMConnection] and the per-stop loop of [build]; then
    [operator <] of [OSMConnectionEdge], [AddRoutes], the work of [build] on
    one tile, and the sharing of the tiles among the threads of
    [TransitBuilder::Build].

    Conventions.
    - Positions in and sizes of in-memory vectors (node, edge, sign and
      connection indices, node counts) are [nat]: the [uint32_t] counters
      of the source that walk over vectors ([nodeid], [added_edges],
      [signidx], [idx], ...) hold such positions, and the vectors of a tile
      are taken to have fewer than 2^32 elements.
    - Data words whose width matters (times, line ids, bitmaps) are [Z]
      with the wrap-around of the C++ type written out ([wrap32]).
    - A while loop of the source is a function with a bound on the number
      of its turns ([fuel]); the result says whether the loop has ended
      ([Ok]), is still running when the bound is reached ([OutOfFuel]), or
      has left the defined behaviour of the language ([Fault]).
    - The lines written to the log are part of the result only in
      [ProcessStopPairs]; elsewhere the logging statements, which change no
      data, are left out.  A message that is a pointer outside its string
      literal has no text ([OutsideLiteral]).
    - Types and functions that the source uses but that are declared in
      other files (baldr, midgard, the tile builder) are either modelled
      from the specification, with a comment saying so, or taken as
      members of a class ([Baldr], [midgard.Ops], [DateTime.Ops],
      [GraphTileBuilder.Ops]).
    - What the language leaves to the implementation of the standard
      library, the order of the values of one key of an unordered multimap,
      is a member of a class as well ([unordered_multimap.Ops]). *)

From Stdlib Require Import ZArith List String Lia Bool DecimalString Sorted.
From Stdlib Require Import Floats.SpecFloat.
From stdpp Require Import base option list gmap strings.

Local Open Scope nat_scope.

(** ** Results of code that may loop or fault *)

Module Res.

(** The outcome of running a loop of the source with a bound on the number
    of iterations: a value, the bound reached while the loop condition still
    held, or a fault (an access outside a vector, an exception). *)
Inductive res (A : Type) : Type :=
| Ok (a : A)
| OutOfFuel
| Fault.

Arguments Ok {A} a.
Arguments OutOfFuel {A}.
Arguments Fault {A}.

Definition bind {A B : Type} (m : res A) (k : A -> res B) : res B :=
  match m with
  | Ok a => k a
  | OutOfFuel => OutOfFuel
  | Fault => Fault
  end.

Definition of_option {A : Type} (o : option A) : res A :=
  match o with
  | Some a => Ok a
  | None => Fault
  end.

(** Monadic left fold: the body of a range-for loop run over a list. *)
Fixpoint foldM {A S : Type} (f : A -> S -> res S) (l : list A) (s : S) : res S :=
  match l with
  | [] => Ok s
  | a :: l' => bind (f a s) (foldM f l')
  end.

End Res.

Import Res.

Notation "x <- m ;; k" := (Res.bind m (fun x => k))
  (at level 100, m at next level, right associativity, only parsing).

(** ** baldr: graph identifiers *)

(** Modelled from the spec: [GraphId] is declared in baldr/graphid.h, which
    is not among the source files.  The specification describes it as an
    identifier with three fields, tile id, level and node or edge index; the
    widths of the fields are not given, so the fields are unbounded here, and
    the constructor [GraphId(tileid, level, id)] stores its arguments. *)
Record GraphId : Type := mkGraphId {
  tileid : nat;
  level : nat;
  id : nat
}.

#[global] Instance GraphId_eq_dec : EqDecision GraphId.
Proof. solve_decision. Defined.

#[global] Instance GraphId_countable : Countable GraphId.
Proof.
  refine (inj_countable'
            (fun g => (tileid g, level g, id g))
            (fun t => mkGraphId t.1.1 t.1.2 t.2) _).
  intros []; reflexivity.
Defined.

(** Modelled from the spec: the tile base of an identifier is the identifier
    of the same tile and level with index 0; it is the key of tile look-ups. *)
Definition Tile_Base (g : GraphId) : GraphId :=
  mkGraphId (tileid g) (level g) 0.


(** ** Machine words *)

(** [uint32_t] arithmetic: the result of an operation modulo 2^32. *)
Definition wrap32 (z : Z) : Z := (z mod 2 ^ 32)%Z.

(** [std::to_string] of an unsigned count. *)
Definition to_string (n : nat) : string :=
  NilEmpty.string_of_uint (Nat.to_uint n).

(** ** midgard: points and single precision numbers *)

(** A C++ [float]: an IEEE 754 number, of which the source uses the literal
    [1.0f], the comparison [<] and [std::max]. *)
Definition float : Type := spec_float.

(** [1.0f] = 8388608 * 2^-23 in binary32. *)
Definition f_one : float := S754_finite false 8388608 (-23).
Definition f_zero : float := S754_zero false.

(** [std::max(a, b)] is [(a < b) ? b : a]. *)
Definition f_max (a b : float) : float := if SFltb a b then b else a.

(** [PointLL]: longitude, latitude. *)
Definition PointLL : Type := (float * float)%type.

Module midgard.
(** Geometry of midgard (pointll.h, util.h) that the source calls but does
    not define: the distance between two points, the length of a polyline,
    and the closest point of a polyline to a point, returned with its
    distance and the index of the segment it lies on. *)
Class Ops : Type := {
  Distance : PointLL -> PointLL -> float;
  length : list PointLL -> float;
  ClosestPoint : PointLL -> list PointLL -> PointLL * float * Z
}.
End midgard.

(** ** baldr: enumerations of graphconstants.h *)

(** Only the enumerators that the source names are spelled out; a tile read
    from disk can hold any other one. *)
Inductive Use : Type :=
| kRail
| kBus
| kTransitConnection
| kUseOther (code : nat).

Inductive RoadClass : Type :=
| kServiceOther
| kRoadClassOther (code : nat).

Inductive NodeType : Type :=
| kMultiUseTransitStop
| kNodeTypeOther (code : nat).

(** Modelled from the spec: the day-of-week constants of graphconstants.h,
    "Monday=1, Tuesday=2, Wednesday=4, ..., Sunday=64" as independent bits. *)
Definition kDOWNone : Z := 0.
Definition kMonday : Z := 1.
Definition kTuesday : Z := 2.
Definition kWednesday : Z := 4.
Definition kThursday : Z := 8.
Definition kFriday : Z := 16.
Definition kSaturday : Z := 32.
Definition kSunday : Z := 64.

Module DateTime.
(** The calendar functions of baldr/datetime.h that the source calls but
    does not define.  A [date] is a [boost::gregorian::date]. *)
Class Ops : Type := {
  date : Type;
  from_julian_day_number : Z -> date;
  get_service_days : date -> date -> Z -> Z -> Z;
  remove_service_day : Z -> date -> date -> date -> Z;
  add_service_day : Z -> date -> date -> date -> Z;
  days_from_pivot_date : date -> Z
}.
End DateTime.

(** ** proto/transit.pb.h: the decoded transit record of a tile *)

(** The generated protobuf classes are not part of the source; the records
    below hold the fields that the source reads, under the names of their
    accessors.  A graph id field is kept as the [GraphId] that the source
    builds from it at once. *)
Module Transit_StopPair.
Record t : Type := mk {
  origin_graphid : GraphId;
  destination_graphid : GraphId;
  route_index : Z;
  trip_key : Z;
  block_id : Z;
  origin_departure_time : Z;
  destination_arrival_time : Z;
  service_days_of_week : list bool;
  service_start_date : Z;
  service_end_date : Z;
  trip_headsign : string;
  bikes_allowed : bool;
  service_except_dates : list Z;
  service_added_dates : list Z
}.
End Transit_StopPair.

Module Transit_Stop.
Record t : Type := mk {
  graphid : GraphId;
  name : string;
  onestop_id : string;
  lon : float;
  lat : float;
  osm_way_id : Z;
  timezone : Z
}.
End Transit_Stop.

Module Transit_Route.
Record t : Type := mk {
  name : string;
  vehicle_type : Z
}.
End Transit_Route.

Module Transit.
Record t : Type := mk {
  stops : list Transit_Stop.t;
  routes : list Transit_Route.t;
  stop_pairs : list Transit_StopPair.t
}.
End Transit.

(** ** The structures of the source *)

(** [struct Departure].  The members [wheelchair_accessible] and
    [short_name] are never assigned and never read; they are left out. *)
Module Departure.
Record t : Type := mk {
  days : Z;
  orig_pbf_graphid : GraphId;
  dest_pbf_graphid : GraphId;
  trip : Z;
  route : Z;
  blockid : Z;
  shapeid : Z;
  dep_time : Z;
  arr_time : Z;
  end_day : Z;
  dow : Z;
  headsign : string
}.
End Departure.

(** [struct TransitLine]: a unique route and stop. *)
Module TransitLine.
Record t : Type := mk {
  lineid : Z;
  routeid : Z;
  dest_pbf_graphid : GraphId;
  shapeid : Z
}.
End TransitLine.

(** [struct StopEdges]. *)
Module StopEdges.
Record t : Type := mk {
  origin_pbf_graphid : GraphId;
  intrastation : list GraphId;
  lines : list TransitLine.t
}.
End StopEdges.

(** [struct OSMConnectionEdge]. *)
Module OSMConnectionEdge.
Record t : Type := mk {
  osm_node : GraphId;
  stop_node : GraphId;
  length : float;
  shape : list PointLL
}.
End OSMConnectionEdge.

(** ** Logging *)

Inductive LogLevel : Type := ERROR | WARN | INFO.

(** The argument of a logging macro.  Where the source builds a
    [std::string], the message is that string.  Where the argument is a
    pointer into a string literal, the message is a text only while the
    pointer stays within the literal. *)
Inductive Message : Type :=
| Text (s : string)
| OutsideLiteral.

(** A line written by [LOG_ERROR], [LOG_WARN] or [LOG_INFO]. *)
Definition LogLine : Type := (LogLevel * Message)%type.

(** ** The standard library: [std::unordered_multimap] *)

Module unordered_multimap.
(** The standard says that [equal_range] gives all the values emplaced
    under a key, and leaves their order to the implementation.
    [range_order] is that order, as a function of the values in the order
    of their emplacement: the identity where a new value goes behind the
    values of its key, the reversal where it goes in front of them. *)
Class Ops : Type := {
  range_order : forall {V : Type}, list V -> list V;
  range_order_perm : forall (V : Type) (l : list V), range_order l ≡ₚ l
}.
End unordered_multimap.

(** The values emplaced under a key, in the order of their emplacement. *)
Definition emplaced {V : Type} (m : list (GraphId * V)) (k : GraphId)
  : list V :=
  snd <$> filter (fun kv => fst kv = k) m.

(** A [std::unordered_multimap<GraphId, Departure>]: the entries in the
    order in which they were emplaced; [equal_range] gives the values of a
    key in the order of the implementation. *)
Definition equal_range {stl : unordered_multimap.Ops} {V : Type}
  (m : list (GraphId * V)) (k : GraphId) : list V :=
  unordered_multimap.range_order (emplaced m k).

(** ** [ProcessStopPairs]: scheduled departures of the stops of a tile

    Lines 102 to 206 of the source. *)

Section ProcessStopPairs.
Context {calendar : DateTime.Ops}.
Import DateTime.

(** The day-of-week switch of the source: flag [x] of the stop pair turns on
    the bit of day [x]; positions past 6 change nothing. *)
Definition dow_mask_step (dow_mask : Z) (x : nat) (dow : bool) : Z :=
  if dow then
    match x with
    | 0 => Z.lor dow_mask kMonday
    | 1 => Z.lor dow_mask kTuesday
    | 2 => Z.lor dow_mask kWednesday
    | 3 => Z.lor dow_mask kThursday
    | 4 => Z.lor dow_mask kFriday
    | 5 => Z.lor dow_mask kSaturday
    | 6 => Z.lor dow_mask kSunday
    | _ => dow_mask
    end
  else dow_mask.

Fixpoint dow_mask_loop (x : nat) (flags : list bool) (dow_mask : Z) : Z :=
  match flags with
  | [] => dow_mask
  | dow :: flags' => dow_mask_loop (S x) flags' (dow_mask_step dow_mask x dow)
  end.

(** The characters of [s] from position [n] on. *)
Fixpoint string_from (n : nat) (s : string) : string :=
  match n, s with
  | 0, _ => s
  | S n', String _ s' => string_from n' s'
  | S _, EmptyString => EmptyString
  end.

(** The pointer [literal + n]: the characters of the literal from
    position [n] on, up to the position of the terminator, where the text
    is empty; no text beyond. *)
Definition literal_plus (literal : string) (n : Z) : Message :=
  if (0 <=? n)%Z && (n <=? Z.of_nat (String.length literal))%Z
  then Text (string_from (Z.to_nat n) literal)
  else OutsideLiteral.

(** The argument of [LOG_WARN] on a rejected feed, line 177, is the sum of
    a string literal and an integer, the days from the pivot date to the end
    date: a pointer into the literal, which has 25 characters.  The macro is
    not among the source files.  Where it reads its argument and the pointer
    lies outside the literal, the language defines neither what is read nor
    what the run does from there on; the line is then kept without a text,
    and the loop goes on as it is written. *)
Definition feed_rejected (end_date : date) : LogLine :=
  (WARN, literal_plus "Feed rejected!  End date:"
           (days_from_pivot_date end_date)).

(** The days bitmap of a stop pair before its exception dates are looked
    at: [get_service_days] on its date range and day-of-week mask. *)
Definition initial_days (tile_date : Z) (sp : Transit_StopPair.t) : Z :=
  get_service_days
    (from_julian_day_number (Transit_StopPair.service_start_date sp))
    (from_julian_day_number (Transit_StopPair.service_end_date sp))
    tile_date
    (dow_mask_loop 0 (Transit_StopPair.service_days_of_week sp) kDOWNone).

(** The days bitmap that is stored: the exception dates removed from the
    initial bitmap, then the added dates put in. *)
Definition final_days (tile_date : Z) (sp : Transit_StopPair.t) : Z :=
  let start_date :=
    from_julian_day_number (Transit_StopPair.service_start_date sp) in
  let end_date :=
    from_julian_day_number (Transit_StopPair.service_end_date sp) in
  let removed :=
    fold_left
      (fun days x =>
         remove_service_day days start_date end_date (from_julian_day_number x))
      (Transit_StopPair.service_except_dates sp)
      (initial_days tile_date sp) in
  fold_left
    (fun days x =>
       add_service_day days start_date end_date (from_julian_day_number x))
    (Transit_StopPair.service_added_dates sp)
    removed.

(** The departure record formed from a stop pair that is kept. *)
Definition departure_of (tile_date : Z) (sp : Transit_StopPair.t)
  : Departure.t :=
  let start_date :=
    from_julian_day_number (Transit_StopPair.service_start_date sp) in
  let end_date :=
    from_julian_day_number (Transit_StopPair.service_end_date sp) in
  {| Departure.days := final_days tile_date sp;
     Departure.orig_pbf_graphid := Transit_StopPair.origin_graphid sp;
     Departure.dest_pbf_graphid := Transit_StopPair.destination_graphid sp;
     Departure.trip := Transit_StopPair.trip_key sp;
     Departure.route := Transit_StopPair.route_index sp;
     Departure.blockid := Transit_StopPair.block_id sp;
     Departure.shapeid := 0;
     Departure.dep_time := Transit_StopPair.origin_departure_time sp;
     Departure.arr_time := Transit_StopPair.destination_arrival_time sp;
     Departure.end_day :=
       wrap32 (days_from_pivot_date end_date - days_from_pivot_date start_date);
     Departure.dow :=
       dow_mask_loop 0 (Transit_StopPair.service_days_of_week sp) kDOWNone;
     Departure.headsign := Transit_StopPair.trip_headsign sp |}.

(** What the loop over the stop pairs carries: the departures, the access
    flags of the stops and the log. *)
Record PSPState : Type := mkPSPState {
  departures : list (GraphId * Departure.t);
  stop_access : gmap GraphId bool;
  log : list LogLine
}.

(** One turn of the loop over the stop pairs. *)
Definition stop_pair_step (tile_date : Z) (st : PSPState)
  (sp : Transit_StopPair.t) : PSPState :=
  if (initial_days tile_date sp =? 0)%Z then
    (* the feed is rejected: continue *)
    {| departures := departures st;
       stop_access := stop_access st;
       log := log st ++
              [feed_rejected
                 (from_julian_day_number (Transit_StopPair.service_end_date sp))]
    |}
  else
    let dep := departure_of tile_date sp in
    let bikes_allowed := Transit_StopPair.bikes_allowed sp in
    {| departures := departures st ++ [(Departure.orig_pbf_graphid dep, dep)];
       stop_access :=
         <[Departure.dest_pbf_graphid dep := bikes_allowed]>
           (<[Departure.orig_pbf_graphid dep := bikes_allowed]> (stop_access st));
       log := log st |}.

Definition ProcessStopPairs (transit : Transit.t) (tile_date : Z)
  (stop_access0 : gmap GraphId bool) (tile_id : GraphId) : PSPState :=
  match Transit.stop_pairs transit with
  | [] =>
      (* no schedule stop pairs in this tile *)
      {| departures := [];
         stop_access := stop_access0;
         log :=
           if 0 <? List.length (Transit.stops transit) then
             [(ERROR,
               Text ("Tile " +:+ to_string (tileid tile_id) +:+
                     " has 0 schedule stop pairs but has " +:+
                     to_string (List.length (Transit.stops transit)) +:+
                     " stops"))]
           else [] |}
  | _ :: _ =>
      let st :=
        fold_left (stop_pair_step tile_date) (Transit.stop_pairs transit)
          {| departures := []; stop_access := stop_access0; log := [] |} in
      {| departures := departures st;
         stop_access := stop_access st;
         log := log st ++
                [(INFO,
                  Text ("Tile " +:+ to_string (tileid tile_id) +:+
                        ": added " +:+
                        to_string (List.length (departures st)) +:+
                        " departures"))] |}
  end.

End ProcessStopPairs.

(** ** [GetTransitUse] and [GetShape]

    Lines 250 to 265 and 267 to 338 of the source. *)

(** [GetTransitUse]: the use of a transit edge given the route type. *)
Definition GetTransitUse (rt : Z) : Use :=
  match rt with
  | 3%Z => kBus      (* bus *)
  | 4%Z => kRail     (* ferry: no ferry use yet *)
  | _ => kRail       (* 0, 1, 2, 5, 6, 7 and the default *)
  end.

(** [GetShape]: the shape look-up is commented out in the source; what
    remains is the straight line from the stop to the end stop. *)
Definition GetShape (stop_ll endstop_ll : PointLL) (shapeid : Z)
  : list PointLL :=
  [stop_ll; endstop_ll].

(** ** baldr and mjolnir: the records of a tile *)

(** Modelled from the spec: [NodeInfo], [DirectedEdge], [Sign],
    [AccessRestriction] and [TransitDeparture] are records owned by the
    tile builder, of which the source sets and reads fields; their classes
    are declared outside the source.  Each record below has one field per
    accessor that the source uses, and a setter stores its argument. *)
Module NodeInfo.
Record t : Type := mk {
  latlng : PointLL;
  classification : RoadClass;
  access : Z;
  type : NodeType;
  (** the fifth argument of the constructor *)
  flag : bool;
  edge_index : nat;
  edge_count : nat;
  child : bool;
  parent : bool;
  mode_change : bool;
  stop_index : nat;
  timezone : Z
}.

Definition set_edge_index (v : nat) (n : t) : t :=
  mk (latlng n) (classification n) (access n) (type n) (flag n)
     v (edge_count n) (child n) (parent n) (mode_change n) (stop_index n)
     (timezone n).

Definition set_edge_count (v : nat) (n : t) : t :=
  mk (latlng n) (classification n) (access n) (type n) (flag n)
     (edge_index n) v (child n) (parent n) (mode_change n) (stop_index n)
     (timezone n).
End NodeInfo.

Module DirectedEdge.
Record t : Type := mk {
  endnode : GraphId;
  length : float;
  use : Use;
  speed : Z;
  classification : RoadClass;
  localedgeidx : nat;
  forwardaccess : Z;
  reverseaccess : Z;
  edgeinfo_offset : Z;
  forward : bool;
  lineid : Z;
  exitsign : bool;
  access_restriction : bool
}.
End DirectedEdge.

Module Sign.
Record t : Type := mk {
  edgeindex : nat;
  (** type and text of the sign, which the source does not touch *)
  payload : Z
}.
Definition set_edgeindex (v : nat) (s : t) : t := mk v (payload s).
End Sign.

Module AccessRestriction.
Record t : Type := mk {
  edgeindex : nat;
  (** type, modes and value of the restriction *)
  payload : Z
}.
Definition set_edgeindex (v : nat) (r : t) : t := mk v (payload r).
End AccessRestriction.

Module TransitDeparture.
Record t : Type := mk {
  lineid : Z;
  tripid : Z;
  routeid : Z;
  blockid : Z;
  headsign_offset : Z;
  departure_time : Z;
  elapsed_time : Z;
  end_day : Z;
  days_of_week : Z;
  days : Z
}.
End TransitDeparture.

(** ** mjolnir: the tile builder *)

Module GraphTileBuilder.

(** The text and edge info tables of the tile builder, and the two methods
    that write them: declared in mjolnir/graphtilebuilder.h, outside the
    source.  [AddName] returns the offset of a name; [AddEdgeInfo] returns
    the offset of the edge info of (way, from, to, shape) and whether it was
    added by this call.  The other arguments of [AddEdgeInfo] are the same
    in all its calls, 0 and an empty list of names, and are left out. *)
Class Ops : Type := {
  Tables : Type;
  AddName : string -> Tables -> Z * Tables;
  AddEdgeInfo :
    Z -> GraphId -> GraphId -> list PointLL -> Tables -> Z * bool * Tables
}.

(** The part of a [GraphTileBuilder] that the source works on.  [sign] and
    [accessrestriction] are the tables of the tile as it was read;
    [sign_builder] and [accessrestriction_builder] are the tables that will
    be written.  The counts of the header are the sizes of the tables. *)
Record t {builder : Ops} : Type := mk {
  graphid : GraphId;
  date_created : Z;
  nodes : list NodeInfo.t;
  directededges : list DirectedEdge.t;
  sign : list Sign.t;
  sign_builder : list Sign.t;
  accessrestriction : list AccessRestriction.t;
  accessrestriction_builder : list AccessRestriction.t;
  tables : Tables;
  transit_departures : list TransitDeparture.t
}.

End GraphTileBuilder.

(** ** baldr: constants

    Constants and operators of baldr (graphid.h, graphconstants.h,
    directededge.h) that the source names but does not define. *)
Class Baldr : Type := {
  (** the value of a default-constructed [GraphId()] *)
  kInvalidGraphId : GraphId;
  (** the access mask of pedestrians *)
  kPedestrianAccess : Z;
  (** the value of a default-constructed [DirectedEdge] *)
  DirectedEdge_new : DirectedEdge.t;
  (** [operator<] of [GraphId], the order of a [std::map] keyed by it *)
  GraphId_less : GraphId -> GraphId -> bool
}.

Section GraphIds.
Context {baldr : Baldr}.

Definition Is_Valid (g : GraphId) : bool :=
  negb (bool_decide (g = kInvalidGraphId)).

(** [GetGraphId], lines 343 to 351 of the source: converts a stop's pbf
    graph id to a graph id of the tile set by adding the tile's node count;
    the invalid id when the tile is not among the tiles. *)
Definition GetGraphId (nodeid : GraphId) (tile_node_counts : gmap GraphId nat)
  : GraphId :=
  match tile_node_counts !! Tile_Base nodeid with
  | None => kInvalidGraphId
  | Some count => mkGraphId (tileid nodeid) (level nodeid) (id nodeid + count)
  end.

End GraphIds.

(** ** [AddToGraph]: the rewrite of a tile

    Lines 373 to 700 of the source. *)

(** A record that refers to a directed edge by its index: a sign or an
    access restriction. *)
Class EdgeIndexed (T : Type) : Type := {
  get_edgeindex : T -> nat;
  put_edgeindex : nat -> T -> T
}.

#[global] Instance Sign_EdgeIndexed : EdgeIndexed Sign.t :=
  {| get_edgeindex := Sign.edgeindex; put_edgeindex := Sign.set_edgeindex |}.

#[global] Instance AccessRestriction_EdgeIndexed
  : EdgeIndexed AccessRestriction.t :=
  {| get_edgeindex := AccessRestriction.edgeindex;
     put_edgeindex := AccessRestriction.set_edgeindex |}.

(** The cursor into a table of such records: [signidx], [nextsignidx] and
    the builder's table for the signs; [residx], [nextresidx] and the
    builder's table for the access restrictions. *)
Record Cursor (T : Type) : Type := mkCursor {
  cur_idx : nat;
  cur_next : nat;
  cur_builder : list T
}.
Arguments mkCursor {T}.
Arguments cur_idx {T}.
Arguments cur_next {T}.
Arguments cur_builder {T}.

Section UpdateLoop.
Context {T : Type} {indexed : EdgeIndexed T}.

(** The first value of [nextsignidx] ([nextresidx]): the edge index of the
    first record, or a value above the number of directed edges. *)
Definition first_next (table : list T) (edgecount : nat) : nat :=
  match table with
  | r :: _ => get_edgeindex r
  | [] => edgecount + 1
  end.

(** The [while (idx == nextsignidx && signidx < signcount)] loop of lines
    421 to 431, and the same loop on the access restrictions, lines 435 to
    445: every record at the cursor that uses edge [idx] gets the index
    [idx + added_edges]. *)
Fixpoint update_loop (fuel : nat) (table : list T) (idx added_edges : nat)
  (c : Cursor T) : res (Cursor T) :=
  match fuel with
  | 0 => OutOfFuel
  | S fuel' =>
      if (idx =? cur_next c) && (cur_idx c <? List.length table) then
        r <- of_option (cur_builder c !! cur_idx c) ;;
        let builder' :=
          <[cur_idx c := put_edgeindex (idx + added_edges) r]> (cur_builder c) in
        let idx' := S (cur_idx c) in
        next' <- (if List.length table <=? idx' then Ok 0
                  else of_option (get_edgeindex <$> table !! idx')) ;;
        update_loop fuel' table idx added_edges (mkCursor idx' next' builder')
      else Ok c
  end.

End UpdateLoop.

Section AddToGraph.
Context {baldr : Baldr} {builder : GraphTileBuilder.Ops} {geo : midgard.Ops}.
Import GraphTileBuilder.

(** The read-only arguments of [AddToGraph], the bound on the iterations of
    its while loops, and [read_pbf] as a function of the tile (the
    hierarchy and the directory fixed): [None] when it throws. *)
Variable fuel : nat.
Variable read_pbf : GraphId -> option Transit.t.
Variable tile_node_counts : gmap GraphId nat.
Variable connection_edges : list OSMConnectionEdge.t.
Variable route_types : gmap Z Z.

(** The connection edge of both passes: a default-constructed edge with its
    fields set. *)
Definition connection_edge (endnode : GraphId) (length : float)
  (localedgeidx : nat) (edge_info_offset : Z) (added : bool)
  : DirectedEdge.t :=
  {| DirectedEdge.endnode := endnode;
     DirectedEdge.length := length;
     DirectedEdge.use := kTransitConnection;
     DirectedEdge.speed := 5;
     DirectedEdge.classification := kServiceOther;
     DirectedEdge.localedgeidx := localedgeidx;
     DirectedEdge.forwardaccess := kPedestrianAccess;
     DirectedEdge.reverseaccess := kPedestrianAccess;
     DirectedEdge.edgeinfo_offset := edge_info_offset;
     DirectedEdge.forward := added;
     DirectedEdge.lineid := DirectedEdge.lineid DirectedEdge_new;
     DirectedEdge.exitsign := DirectedEdge.exitsign DirectedEdge_new;
     DirectedEdge.access_restriction :=
       DirectedEdge.access_restriction DirectedEdge_new |}.

(** *** The pass over the road nodes

    Lines 408 to 496 of the source. *)

(** The tables being rebuilt and the local variables of the first pass. *)
Record RoadState : Type := mkRoadState {
  rs_nodes : list NodeInfo.t;
  rs_directededges : list DirectedEdge.t;
  rs_sign : Cursor Sign.t;
  rs_res : Cursor AccessRestriction.t;
  rs_tables : Tables;
  rs_nodeid : nat;
  rs_added_edges : nat
}.

Section RoadPass.
Variable currentedges : list DirectedEdge.t.
Variable sign0 : list Sign.t.
Variable accessrestriction0 : list AccessRestriction.t.

(** One turn of the loop over the edges of a node: the edge at [idx] is put
    back, then the signs and the access restrictions that use [idx] are
    moved by the number of edges added so far. *)
Definition copy_edge (idx : nat) (st : RoadState) : res RoadState :=
  e <- of_option (currentedges !! idx) ;;
  s <- update_loop fuel sign0 idx (rs_added_edges st) (rs_sign st) ;;
  r <- update_loop fuel accessrestriction0 idx (rs_added_edges st) (rs_res st) ;;
  Ok {| rs_nodes := rs_nodes st;
        rs_directededges := rs_directededges st ++ [e];
        rs_sign := s;
        rs_res := r;
        rs_tables := rs_tables st;
        rs_nodeid := rs_nodeid st;
        rs_added_edges := rs_added_edges st |}.

(** The loop over the connections from the node to a transit stop, lines
    450 to 483.  Its [continue] goes back to the test of the loop with
    [added_edges] as it was. *)
Fixpoint connection_loop (n : nat) (edge_index : nat) (st : RoadState)
  : res RoadState :=
  match n with
  | 0 => OutOfFuel
  | S n' =>
      match connection_edges !! rs_added_edges st with
      | None => Ok st
      | Some conn =>
          if id (OSMConnectionEdge.osm_node conn) =? rs_nodeid st then
            let endnode :=
              GetGraphId (OSMConnectionEdge.stop_node conn) tile_node_counts in
            if negb (Is_Valid endnode) then
              connection_loop n' edge_index st
            else
              let '(edge_info_offset, added, tables') :=
                AddEdgeInfo 0 (OSMConnectionEdge.osm_node conn) endnode
                  (OSMConnectionEdge.shape conn) (rs_tables st) in
              let directededge :=
                connection_edge endnode (OSMConnectionEdge.length conn)
                  (List.length (rs_directededges st) - edge_index)
                  edge_info_offset added in
              connection_loop n' edge_index
                {| rs_nodes := rs_nodes st;
                   rs_directededges := rs_directededges st ++ [directededge];
                   rs_sign := rs_sign st;
                   rs_res := rs_res st;
                   rs_tables := tables';
                   rs_nodeid := rs_nodeid st;
                   rs_added_edges := rs_added_edges st + 1 |}
          else Ok st
      end
  end.

(** One turn of the loop over the nodes. *)
Definition road_node (nb : NodeInfo.t) (st : RoadState) : res RoadState :=
  let edge_index := List.length (rs_directededges st) in
  st1 <- foldM copy_edge
           (seq (NodeInfo.edge_index nb) (NodeInfo.edge_count nb)) st ;;
  st2 <- connection_loop fuel edge_index st1 ;;
  let nb' :=
    NodeInfo.set_edge_count (List.length (rs_directededges st2) - edge_index)
      (NodeInfo.set_edge_index edge_index nb) in
  Ok {| rs_nodes := rs_nodes st2 ++ [nb'];
        rs_directededges := rs_directededges st2;
        rs_sign := rs_sign st2;
        rs_res := rs_res st2;
        rs_tables := rs_tables st2;
        rs_nodeid := rs_nodeid st2 + 1;
        rs_added_edges := rs_added_edges st2 |}.

End RoadPass.

(** *** The pass over the transit stops

    Lines 498 to 688 of the source. *)

(** The tables being rebuilt and the counter [nadded] of the second pass. *)
Record StopState : Type := mkStopState {
  ss_nodes : list NodeInfo.t;
  ss_directededges : list DirectedEdge.t;
  ss_tables : Tables;
  ss_nadded : nat
}.

Section StopPass.
Variable tileid0 : GraphId.
Variable transit : Transit.t.

(** One turn of the loop over the connection edges at a stop: a connection
    of this stop gives an edge from the stop to the OSM node. *)
Definition connection_from_stop (stopid origin_node : GraphId)
  (node_edge_index : nat) (st : StopState) (conn : OSMConnectionEdge.t)
  : StopState :=
  if bool_decide (OSMConnectionEdge.stop_node conn = stopid) then
    let '(edge_info_offset, added, tables') :=
      AddEdgeInfo 0 origin_node (OSMConnectionEdge.osm_node conn)
        (OSMConnectionEdge.shape conn) (ss_tables st) in
    let directededge :=
      connection_edge (OSMConnectionEdge.osm_node conn)
        (OSMConnectionEdge.length conn)
        (List.length (ss_directededges st) - node_edge_index)
        edge_info_offset added in
    {| ss_nodes := ss_nodes st;
       ss_directededges := ss_directededges st ++ [directededge];
       ss_tables := tables';
       ss_nadded := ss_nadded st + 1 |}
  else st.

(** The stop at the end of a transit line: of this tile's transit data, or
    of the transit data of its own tile. *)
Definition end_stop (end_stop_graphid : GraphId) : res Transit_Stop.t :=
  if bool_decide (Tile_Base end_stop_graphid = tileid0) then
    of_option (Transit.stops transit !! id end_stop_graphid)
  else
    endtransit <- of_option (read_pbf (Tile_Base end_stop_graphid)) ;;
    of_option (Transit.stops endtransit !! id end_stop_graphid).

(** One turn of the loop over the transit lines of a stop. *)
Definition transit_line (stopll : PointLL) (origin_node : GraphId)
  (node_edge_index : nat) (transitedge : TransitLine.t) (st : StopState)
  : res StopState :=
  let endnode :=
    GetGraphId (TransitLine.dest_pbf_graphid transitedge) tile_node_counts in
  if negb (Is_Valid endnode) then Ok st
  else
    endstop <- end_stop (TransitLine.dest_pbf_graphid transitedge) ;;
    let endll := (Transit_Stop.lon endstop, Transit_Stop.lat endstop) in
    rt <- of_option (route_types !! TransitLine.routeid transitedge) ;;
    let shape := GetShape stopll endll (TransitLine.shapeid transitedge) in
    let '(edge_info_offset, added, tables') :=
      AddEdgeInfo (TransitLine.routeid transitedge) origin_node endnode shape
        (ss_tables st) in
    let directededge :=
      {| DirectedEdge.endnode := endnode;
         DirectedEdge.length := midgard.Distance stopll endll;
         DirectedEdge.use := GetTransitUse rt;
         DirectedEdge.speed := 5;
         DirectedEdge.classification := kServiceOther;
         DirectedEdge.localedgeidx :=
           List.length (ss_directededges st) - node_edge_index;
         DirectedEdge.forwardaccess := kPedestrianAccess;
         DirectedEdge.reverseaccess := kPedestrianAccess;
         DirectedEdge.edgeinfo_offset := edge_info_offset;
         DirectedEdge.forward := added;
         DirectedEdge.lineid := TransitLine.lineid transitedge;
         DirectedEdge.exitsign := DirectedEdge.exitsign DirectedEdge_new;
         DirectedEdge.access_restriction :=
           DirectedEdge.access_restriction DirectedEdge_new |} in
    Ok {| ss_nodes := ss_nodes st;
          ss_directededges := ss_directededges st ++ [directededge];
          ss_tables := tables';
          ss_nadded := ss_nadded st |}.

(** One turn of the loop over the stops and their edges.  The node is added
    also when no directed edge leaves it. *)
Definition transit_stop (stop_edges : StopEdges.t) (st : StopState)
  : res StopState :=
  let stopid := StopEdges.origin_pbf_graphid stop_edges in
  let stop_index := id stopid in
  stop <- of_option (Transit.stops transit !! stop_index) ;;
  let origin_node := GetGraphId stopid tile_node_counts in
  let access := kPedestrianAccess in
  let stopll := (Transit_Stop.lon stop, Transit_Stop.lat stop) in
  let node_edge_index := List.length (ss_directededges st) in
  let st1 :=
    fold_left (connection_from_stop stopid origin_node node_edge_index)
      connection_edges st in
  st2 <- foldM (transit_line stopll origin_node node_edge_index)
           (StopEdges.lines stop_edges) st1 ;;
  let edge_count := List.length (ss_directededges st2) - node_edge_index in
  let node :=
    {| NodeInfo.latlng := stopll;
       NodeInfo.classification := kServiceOther;
       NodeInfo.access := access;
       NodeInfo.type := kMultiUseTransitStop;
       NodeInfo.flag := false;
       NodeInfo.edge_index := node_edge_index;
       NodeInfo.edge_count := edge_count;
       NodeInfo.child := false;
       NodeInfo.parent := false;
       NodeInfo.mode_change := true;
       NodeInfo.stop_index := stop_index;
       NodeInfo.timezone := Transit_Stop.timezone stop |} in
  Ok {| ss_nodes := ss_nodes st2 ++ [node];
        ss_directededges := ss_directededges st2;
        ss_tables := ss_tables st2;
        ss_nadded := ss_nadded st2 |}.

End StopPass.

(** *** The two passes in sequence *)

(** The state with which the first pass starts: the nodes and the directed
    edges of the builder moved out, the cursors at the first sign and the
    first access restriction. *)
Definition road_start (tilebuilder : GraphTileBuilder.t) : RoadState :=
  let currentedges := directededges tilebuilder in
  {| rs_nodes := [];
     rs_directededges := [];
     rs_sign :=
       mkCursor 0 (first_next (sign tilebuilder) (List.length currentedges))
         (sign_builder tilebuilder);
     rs_res :=
       mkCursor 0
         (first_next (accessrestriction tilebuilder) (List.length currentedges))
         (accessrestriction_builder tilebuilder);
     rs_tables := tables tilebuilder;
     rs_nodeid := 0;
     rs_added_edges := 0 |}.

Definition road_pass (tilebuilder : GraphTileBuilder.t) : res RoadState :=
  foldM
    (road_node (directededges tilebuilder) (sign tilebuilder)
       (accessrestriction tilebuilder))
    (nodes tilebuilder) (road_start tilebuilder).

Definition stop_start (rs : RoadState) : StopState :=
  {| ss_nodes := rs_nodes rs;
     ss_directededges := rs_directededges rs;
     ss_tables := rs_tables rs;
     ss_nadded := 0 |}.

Definition stop_pass (tileid0 : GraphId) (transit : Transit.t)
  (stop_edge_map : list (GraphId * StopEdges.t)) (st : StopState)
  : res StopState :=
  foldM (transit_stop tileid0 transit) (snd <$> stop_edge_map) st.

(** [AddToGraph].  The [stop_edge_map] is the list of the entries of the
    [std::map] in the order of its keys.  The argument [stop_access] is
    there as in the source, where its only use is commented out. *)
Definition AddToGraph (tilebuilder : GraphTileBuilder.t)
  (stop_edge_map : list (GraphId * StopEdges.t))
  (stop_access : gmap GraphId bool) : res GraphTileBuilder.t :=
  let tileid0 := Tile_Base (graphid tilebuilder) in
  transit <- of_option (read_pbf tileid0) ;;
  rs <- road_pass tilebuilder ;;
  ss <- stop_pass tileid0 transit stop_edge_map (stop_start rs) ;;
  Ok {| graphid := graphid tilebuilder;
        date_created := date_created tilebuilder;
        nodes := ss_nodes ss;
        directededges := ss_directededges ss;
        sign := sign tilebuilder;
        sign_builder := cur_builder (rs_sign rs);
        accessrestriction := accessrestriction tilebuilder;
        accessrestriction_builder := cur_builder (rs_res rs);
        tables := ss_tables ss;
        transit_departures := transit_departures tilebuilder |}.

End AddToGraph.

(** ** [AddOSMConnection]: connections from a stop to the road network

    Lines 703 to 809 of the source. *)

(** The read-only [GraphTile] as far as the source reads it; the node count
    of its header is the size of its node table. *)
Module EdgeInfo.
Record t : Type := mk {
  wayid : Z;
  shape : list PointLL
}.
End EdgeInfo.

Module GraphTile.
Record t : Type := mk {
  graphid : GraphId;
  nodes : list NodeInfo.t;
  directededges : list DirectedEdge.t;
  edgeinfo : Z -> EdgeInfo.t
}.
End GraphTile.

(** [10000000.0f] *)
Definition f_mindist0 : float := S754_finite false 10000000 0.

Section AddOSMConnection.
Context {baldr : Baldr} {geo : midgard.Ops}.

(** The local variables of the search for the closest edge. *)
Record Closest : Type := mkClosest {
  mindist : float;
  startnode : GraphId;
  endnode : GraphId;
  closest_shape : list PointLL;
  closest : PointLL * float * Z
}.

Definition closest_start : Closest :=
  {| mindist := f_mindist0;
     startnode := kInvalidGraphId;
     endnode := kInvalidGraphId;
     closest_shape := [];
     closest := ((f_zero, f_zero), f_zero, 0%Z) |}.

(** The body of the loop over the edges [j] of node [i]. *)
Definition closest_edge (stop_ll : PointLL) (wayid : Z) (tile : GraphTile.t)
  (i : nat) (node : NodeInfo.t) (j : nat) (st : Closest) : res Closest :=
  directededge <-
    of_option (GraphTile.directededges tile !! (NodeInfo.edge_index node + j)) ;;
  let edgeinfo :=
    GraphTile.edgeinfo tile (DirectedEdge.edgeinfo_offset directededge) in
  if (EdgeInfo.wayid edgeinfo =? wayid)%Z then
    let this_shape := EdgeInfo.shape edgeinfo in
    let this_closest := midgard.ClosestPoint stop_ll this_shape in
    if SFltb (snd (fst this_closest)) (mindist st) then
      Ok {| mindist := snd (fst this_closest);
            startnode :=
              mkGraphId (tileid (GraphTile.graphid tile))
                (level (GraphTile.graphid tile)) i;
            endnode := DirectedEdge.endnode directededge;
            closest_shape :=
              if DirectedEdge.forward directededge then this_shape
              else rev this_shape;
            closest := this_closest |}
    else Ok st
  else Ok st.

Definition closest_node (stop_ll : PointLL) (wayid : Z) (tile : GraphTile.t)
  (inode : nat * NodeInfo.t) (st : Closest) : res Closest :=
  foldM (closest_edge stop_ll wayid tile (fst inode) (snd inode))
    (seq 0 (NodeInfo.edge_count (snd inode))) st.

Definition closest_search (stop_ll : PointLL) (wayid : Z) (tile : GraphTile.t)
  : res Closest :=
  foldM (closest_node stop_ll wayid tile)
    (imap (fun i node => (i, node)) (GraphTile.nodes tile)) closest_start.

(** The shape from the start node: the points [closest_shape[0]] to
    [closest_shape[k]], the closest point, the stop.  The index [k] is an
    [int] compared with an unsigned counter: a negative one, like one past
    the shape, makes the loop read outside the vector. *)
Definition shape_from_start (st : Closest) (stop_ll : PointLL)
  : res (list PointLL) :=
  let k := snd (closest st) in
  if (k <? 0)%Z || (Z.of_nat (List.length (closest_shape st)) <=? k)%Z
  then Fault
  else
    Ok (take (S (Z.to_nat k)) (closest_shape st) ++
        [fst (fst (closest st)); stop_ll]).

(** The shape from the end node: the points [closest_shape[size - 1]] down
    to [closest_shape[k + 1]], the closest point, the stop. *)
Definition shape_from_end (st : Closest) (stop_ll : PointLL)
  : res (list PointLL) :=
  let k := snd (closest st) in
  if (k <? -1)%Z then Fault
  else
    Ok (rev (drop (Z.to_nat (k + 1)) (closest_shape st)) ++
        [fst (fst (closest st)); stop_ll]).

(** The connections made once the search is over. *)
Definition connect (stop : Transit_Stop.t) (st : Closest)
  (connection_edges : list OSMConnectionEdge.t)
  : res (list OSMConnectionEdge.t) :=
  let stop_ll := (Transit_Stop.lon stop, Transit_Stop.lat stop) in
  if negb (Is_Valid (startnode st)) && negb (Is_Valid (endnode st)) then
    (* no closest edge found for this stop *)
    Ok connection_edges
  else
    let stop_pbf_graphid := Transit_Stop.graphid stop in
    ce1 <-
      (if bool_decide (Tile_Base stop_pbf_graphid = Tile_Base (startnode st))
       then
         shape <- shape_from_start st stop_ll ;;
         let length := f_max f_one (midgard.length shape) in
         Ok (connection_edges ++
             [OSMConnectionEdge.mk (startnode st) stop_pbf_graphid length shape])
       else Ok connection_edges) ;;
    if bool_decide (Tile_Base stop_pbf_graphid = Tile_Base (endnode st)) then
      if tileid (startnode st) =? tileid (endnode st) then
        shape2 <- shape_from_end st stop_ll ;;
        let length2 := f_max f_one (midgard.length shape2) in
        Ok (ce1 ++
            [OSMConnectionEdge.mk (endnode st) stop_pbf_graphid length2 shape2])
      else Ok ce1
    else Ok ce1.

Definition AddOSMConnection (stop : Transit_Stop.t) (tile : GraphTile.t)
  (connection_edges : list OSMConnectionEdge.t)
  : res (list OSMConnectionEdge.t) :=
  let stop_ll := (Transit_Stop.lon stop, Transit_Stop.lat stop) in
  st <- closest_search stop_ll (Transit_Stop.osm_way_id stop) tile ;;
  connect stop st connection_edges.

End AddOSMConnection.

(** ** [build]: departures and transit lines of the stops of a tile

    Lines 898 to 975 of the source: the loop over the stops that forms the
    transit departures and the stop edge map. *)

Section Build.
Context {baldr : Baldr} {builder : GraphTileBuilder.Ops}.
Context {stl : unordered_multimap.Ops}.
Import GraphTileBuilder.

(** [std::map::insert]: the entry goes to its place in the order of the
    keys; a map that holds an equivalent key is left as it is. *)
Fixpoint map_insert {V : Type} (k : GraphId) (v : V)
  (m : list (GraphId * V)) : list (GraphId * V) :=
  match m with
  | [] => [(k, v)]
  | (k', v') :: m' =>
      if GraphId_less k k' then (k, v) :: m
      else if GraphId_less k' k then (k', v') :: map_insert k v m'
      else m
  end.

(** What the loop over the departures of a stop carries: the next line id,
    the lines found at this stop, the stop's edges, the tile builder and the
    sets of route and trip keys. *)
Record DepState : Type := mkDepState {
  unique_lineid : Z;
  unique_transit_edges : gmap (Z * GraphId) Z;
  lines : list TransitLine.t;
  tilebuilder : GraphTileBuilder.t;
  route_keys : gset Z;
  trip_keys : gset Z
}.

(** [AddTransitDeparture] appends to the departures of the tile. *)
Definition AddTransitDeparture (td : TransitDeparture.t)
  (tables' : Tables) (tb : GraphTileBuilder.t) : GraphTileBuilder.t :=
  {| graphid := graphid tb;
     date_created := date_created tb;
     nodes := nodes tb;
     directededges := directededges tb;
     sign := sign tb;
     sign_builder := sign_builder tb;
     accessrestriction := accessrestriction tb;
     accessrestriction_builder := accessrestriction_builder tb;
     tables := tables';
     transit_departures := transit_departures tb ++ [td] |}.

(** The transit departure formed from a departure and its line id. *)
Definition form_departure (lineid : Z) (dep : Departure.t)
  (headsign_offset : Z) : TransitDeparture.t :=
  let elapsed_time := wrap32 (Departure.arr_time dep - Departure.dep_time dep) in
  {| TransitDeparture.lineid := lineid;
     TransitDeparture.tripid := Departure.trip dep;
     TransitDeparture.routeid := Departure.route dep;
     TransitDeparture.blockid := Departure.blockid dep;
     TransitDeparture.headsign_offset := headsign_offset;
     TransitDeparture.departure_time := Departure.dep_time dep;
     TransitDeparture.elapsed_time := elapsed_time;
     TransitDeparture.end_day := Departure.end_day dep;
     TransitDeparture.days_of_week := Departure.dow dep;
     TransitDeparture.days := Departure.days dep |}.

(** One turn of the loop over the departures of a stop. *)
Definition departure_step (st : DepState) (dep : Departure.t) : DepState :=
  let key := (Departure.route dep, Departure.dest_pbf_graphid dep) in
  let m := unique_transit_edges st !! key in
  let lineid :=
    match m with
    | None => unique_lineid st
    | Some l => l
    end in
  let '(headsign_offset, tables') :=
    AddName (Departure.headsign dep) (tables (tilebuilder st)) in
  let td := form_departure lineid dep headsign_offset in
  {| unique_lineid :=
       match m with
       | None => wrap32 (unique_lineid st + 1)
       | Some _ => unique_lineid st
       end;
     unique_transit_edges :=
       match m with
       | None => <[key := unique_lineid st]> (unique_transit_edges st)
       | Some _ => unique_transit_edges st
       end;
     lines :=
       match m with
       | None =>
           lines st ++
           [TransitLine.mk lineid (Departure.route dep)
              (Departure.dest_pbf_graphid dep) (Departure.shapeid dep)]
       | Some _ => lines st
       end;
     tilebuilder := AddTransitDeparture td tables' (tilebuilder st);
     route_keys := {[Departure.route dep]} ∪ route_keys st;
     trip_keys := {[Departure.trip dep]} ∪ trip_keys st |}.

(** What the loop over the stops carries. *)
Record BuildState : Type := mkBuildState {
  b_unique_lineid : Z;
  b_tilebuilder : GraphTileBuilder.t;
  b_route_keys : gset Z;
  b_trip_keys : gset Z;
  b_stop_edge_map : list (GraphId * StopEdges.t)
}.

(** One turn of the loop over the stops: the departures of the stop give
    its transit lines, and its edges are inserted into the stop edge map. *)
Definition stop_step (departures : list (GraphId * Departure.t))
  (st : BuildState) (stop : Transit_Stop.t) : BuildState :=
  let stop_pbf_graphid := Transit_Stop.graphid stop in
  let ds :=
    fold_left departure_step (equal_range departures stop_pbf_graphid)
      {| unique_lineid := b_unique_lineid st;
         unique_transit_edges := ∅;
         lines := [];
         tilebuilder := b_tilebuilder st;
         route_keys := b_route_keys st;
         trip_keys := b_trip_keys st |} in
  let stopedges :=
    {| StopEdges.origin_pbf_graphid := stop_pbf_graphid;
       StopEdges.intrastation := [];
       StopEdges.lines := lines ds |} in
  {| b_unique_lineid := unique_lineid ds;
     b_tilebuilder := tilebuilder ds;
     b_route_keys := route_keys ds;
     b_trip_keys := trip_keys ds;
     b_stop_edge_map :=
       map_insert stop_pbf_graphid stopedges (b_stop_edge_map st) |}.

(** The loop of [build] that forms the departures: [unique_lineid] starts
    at 1 and the stop edge map is empty. *)
Definition form_departures (transit : Transit.t)
  (departures : list (GraphId * Departure.t)) (tb : GraphTileBuilder.t)
  : BuildState :=
  fold_left (stop_step departures) (Transit.stops transit)
    {| b_unique_lineid := 1;
       b_tilebuilder := tb;
       b_route_keys := ∅;
       b_trip_keys := ∅;
       b_stop_edge_map := [] |}.

End Build.

(** ** A calendar after the specification *)

Module SpecCalendar.

(** The calendar functions of baldr/datetime.h are not among the source
    files; the functions of this module are written after the calendar
    section and the calendar law of the specification.  A date is its Julian
    day number, [pivot] is the Julian day number of the pivot date, and a
    bitmap has 64 bits. *)

(** The day of the week of a Julian day number is its remainder modulo 7,
    0 for Monday; the day is in the mask if its bit is set. *)
Definition day_in_mask (dow_mask day : Z) : bool :=
  Z.testbit dow_mask (day mod 7).

Definition runs_on (start_date end_date dow_mask day : Z) : bool :=
  (start_date <=? day)%Z && (day <=? end_date)%Z && day_in_mask dow_mask day.

Fixpoint service_bits (n : nat) (start_date end_date dow_mask ref : Z) : Z :=
  match n with
  | 0 => 0%Z
  | S n' =>
      let rest := service_bits n' start_date end_date dow_mask ref in
      if runs_on start_date end_date dow_mask (ref + Z.of_nat n')
      then Z.setbit rest (Z.of_nat n')
      else rest
  end.

(** Modelled from the spec: [get_service_days], missing from the source.
    "[service_days(s, e, ref, m)] has bit [d] set iff [ref + d] lies in
    [s, e] and the day of the week of [ref + d] is in [m]"; the reference
    date of a tile is the pivot date plus the tile's date. *)
Definition service_days (pivot start_date end_date tile_date dow_mask : Z)
  : Z :=
  service_bits 64 start_date end_date dow_mask (pivot + tile_date).

(** A date whose bit the two functions below change: in the window
    [start_date, end_date], with its bit among the 64 bits.  The two
    functions have no reference date among their arguments; the bit of a
    date is counted from the pivot date, as in the first sentence of the
    specification's calendar section.  For a tile whose reference date is the
    pivot date this is the bit that [service_days] gives the date. *)
Definition in_window (pivot start_date end_date d : Z) : bool :=
  (start_date <=? d)%Z && (d <=? end_date)%Z &&
  (0 <=? d - pivot)%Z && (d - pivot <? 64)%Z.

(** Modelled from the spec: [remove_service_day], missing from the source.
    It turns the bit of a date off if the date lies within the window, and
    is "a no-op out of window". *)
Definition remove_day (pivot days start_date end_date d : Z) : Z :=
  if in_window pivot start_date end_date d
  then Z.clearbit days (d - pivot) else days.

(** Modelled from the spec: [add_service_day], missing from the source.  It
    turns the bit of a date on if the date lies within the window, and is "a
    no-op out of window". *)
Definition add_day (pivot days start_date end_date d : Z) : Z :=
  if in_window pivot start_date end_date d
  then Z.setbit days (d - pivot) else days.

(** Modelled from the spec: the calendar of baldr/datetime.h, missing from
    the source, with the three functions above; [days_from_pivot_date] is
    the number of days from the pivot date to a date. *)
Definition ops (pivot : Z) : DateTime.Ops :=
  {| DateTime.date := Z;
     DateTime.from_julian_day_number := fun j => j;
     DateTime.get_service_days := service_days pivot;
     DateTime.remove_service_day := remove_day pivot;
     DateTime.add_service_day := add_day pivot;
     DateTime.days_from_pivot_date := fun d => (d - pivot)%Z |}.

End SpecCalendar.

(** ** Small tiles on which the functions are run *)

Module Scenario.

(** The order of the fields, tile id first. *)
Definition less (a b : GraphId) : bool :=
  (tileid a <? tileid b) ||
  ((tileid a =? tileid b) &&
   ((level a <? level b) || ((level a =? level b) && (id a <? id b)))).

Definition no_edge : DirectedEdge.t :=
  {| DirectedEdge.endnode := mkGraphId 4095 7 4095;
     DirectedEdge.length := f_zero;
     DirectedEdge.use := kUseOther 0;
     DirectedEdge.speed := 0;
     DirectedEdge.classification := kRoadClassOther 0;
     DirectedEdge.localedgeidx := 0;
     DirectedEdge.forwardaccess := 0;
     DirectedEdge.reverseaccess := 0;
     DirectedEdge.edgeinfo_offset := 0;
     DirectedEdge.forward := false;
     DirectedEdge.lineid := 0;
     DirectedEdge.exitsign := false;
     DirectedEdge.access_restriction := false |}.

Definition baldr : Baldr :=
  {| kInvalidGraphId := mkGraphId 4095 7 4095;
     kPedestrianAccess := 2;
     DirectedEdge_new := no_edge;
     GraphId_less := less |}.

(** A tile builder whose tables are the lists of the names and of the edge
    infos added, an offset being a position in its list. *)
Definition builder : GraphTileBuilder.Ops :=
  {| GraphTileBuilder.Tables :=
       (list string * list (Z * GraphId * GraphId * list PointLL))%type;
     GraphTileBuilder.AddName := fun s t =>
       (Z.of_nat (List.length (fst t)), (fst t ++ [s], snd t));
     GraphTileBuilder.AddEdgeInfo := fun w a b shape t =>
       (Z.of_nat (List.length (snd t)), true,
        (fst t, snd t ++ [(w, a, b, shape)])) |}.

(** A geometry in which every distance is zero and the closest point of a
    polyline is the point itself, on the first segment. *)
Definition geo : midgard.Ops :=
  {| midgard.Distance := fun _ _ => f_zero;
     midgard.length := fun _ => f_zero;
     midgard.ClosestPoint := fun p _ => (p, f_zero, 0%Z) |}.

(** An unordered multimap that puts a new value in front of the values of
    its key, as the hash table of libstdc++ does: [equal_range] gives the
    values of a key last emplaced first. *)
Definition stl : unordered_multimap.Ops :=
  {| unordered_multimap.range_order := fun V => @rev V;
     unordered_multimap.range_order_perm := fun V l =>
       Permutation_sym (Permutation_rev l) |}.

Definition pivot : Z := 2456659.

Definition calendar : DateTime.Ops := SpecCalendar.ops pivot.

End Scenario.

(** *** Transit data of a tile *)

Module ScenarioTransit.

Definition tile : GraphId := mkGraphId 0 2 0.

Definition stop0 : Transit_Stop.t :=
  {| Transit_Stop.graphid := mkGraphId 0 2 0;
     Transit_Stop.name := "Main Street";
     Transit_Stop.onestop_id := "s-main";
     Transit_Stop.lon := f_zero;
     Transit_Stop.lat := f_zero;
     Transit_Stop.osm_way_id := 42;
     Transit_Stop.timezone := 1 |}.

Definition stop1 : Transit_Stop.t :=
  {| Transit_Stop.graphid := mkGraphId 0 2 1;
     Transit_Stop.name := "Harbour";
     Transit_Stop.onestop_id := "s-harbour";
     Transit_Stop.lon := f_one;
     Transit_Stop.lat := f_zero;
     Transit_Stop.osm_way_id := 42;
     Transit_Stop.timezone := 1 |}.

(** Stops without schedule stop pairs. *)
Definition stops_only : Transit.t :=
  {| Transit.stops := [stop0; stop1];
     Transit.routes := [];
     Transit.stop_pairs := [] |}.

(** A stop pair that runs every day of the week, on the pivot date alone,
    with the dates given as exceptions and additions. *)
Definition pair_on_pivot (except added : list Z) : Transit_StopPair.t :=
  {| Transit_StopPair.origin_graphid := mkGraphId 0 2 0;
     Transit_StopPair.destination_graphid := mkGraphId 0 2 1;
     Transit_StopPair.route_index := 0;
     Transit_StopPair.trip_key := 7;
     Transit_StopPair.block_id := 0;
     Transit_StopPair.origin_departure_time := 28800;
     Transit_StopPair.destination_arrival_time := 29100;
     Transit_StopPair.service_days_of_week :=
       [true; true; true; true; true; true; true];
     Transit_StopPair.service_start_date := Scenario.pivot;
     Transit_StopPair.service_end_date := Scenario.pivot;
     Transit_StopPair.trip_headsign := "Harbour";
     Transit_StopPair.bikes_allowed := false;
     Transit_StopPair.service_except_dates := except;
     Transit_StopPair.service_added_dates := added |}.

(** The only day of service is also an exception date. *)
Definition cancelled : Transit.t :=
  {| Transit.stops := [stop0; stop1];
     Transit.routes := [Transit_Route.mk "1" 3];
     Transit.stop_pairs := [pair_on_pivot [Scenario.pivot] []] |}.

End ScenarioTransit.

(** *** Departures and a tile builder *)

Module ScenarioBuild.

Definition departure (route dep_time arr_time : Z) (dest : GraphId)
  : GraphId * Departure.t :=
  (mkGraphId 0 2 0,
   {| Departure.days := 1;
      Departure.orig_pbf_graphid := mkGraphId 0 2 0;
      Departure.dest_pbf_graphid := dest;
      Departure.trip := 7;
      Departure.route := route;
      Departure.blockid := 0;
      Departure.shapeid := 0;
      Departure.dep_time := dep_time;
      Departure.arr_time := arr_time;
      Departure.end_day := 0;
      Departure.dow := 127;
      Departure.headsign := "Harbour" |}).

(** Three departures of stop 0: two of route 0 to stop 1, the second of
    which arrives, on the clock, before it leaves; one of route 1. *)
Definition departures : list (GraphId * Departure.t) :=
  [departure 0 28800 29100 (mkGraphId 0 2 1);
   departure 0 86000 300 (mkGraphId 0 2 1);
   departure 1 30000 30600 (mkGraphId 0 2 1)].

Definition transit : Transit.t :=
  {| Transit.stops := [ScenarioTransit.stop0; ScenarioTransit.stop1];
     Transit.routes := [Transit_Route.mk "1" 3; Transit_Route.mk "2" 0];
     Transit.stop_pairs := [] |}.

(** A tile builder without nodes. *)
Definition tilebuilder : GraphTileBuilder.t (builder := Scenario.builder) :=
  @GraphTileBuilder.mk Scenario.builder
    (mkGraphId 0 2 0) 0 [] [] [] [] [] [] ([], []) [].

End ScenarioBuild.

(** *** A road tile with two nodes and a stop between them *)

Module ScenarioTile.

Definition road_edge (endnode : nat) (exitsign restricted : bool)
  : DirectedEdge.t :=
  {| DirectedEdge.endnode := mkGraphId 0 2 endnode;
     DirectedEdge.length := f_one;
     DirectedEdge.use := kUseOther 0;
     DirectedEdge.speed := 50;
     DirectedEdge.classification := kRoadClassOther 4;
     DirectedEdge.localedgeidx := 0;
     DirectedEdge.forwardaccess := 255;
     DirectedEdge.reverseaccess := 255;
     DirectedEdge.edgeinfo_offset := 0;
     DirectedEdge.forward := negb exitsign;
     DirectedEdge.lineid := 0;
     DirectedEdge.exitsign := exitsign;
     DirectedEdge.access_restriction := restricted |}.

Definition road_node (edge_index edge_count : nat) : NodeInfo.t :=
  {| NodeInfo.latlng := (f_zero, f_zero);
     NodeInfo.classification := kRoadClassOther 4;
     NodeInfo.access := 255;
     NodeInfo.type := kNodeTypeOther 0;
     NodeInfo.flag := false;
     NodeInfo.edge_index := edge_index;
     NodeInfo.edge_count := edge_count;
     NodeInfo.child := false;
     NodeInfo.parent := false;
     NodeInfo.mode_change := false;
     NodeInfo.stop_index := 0;
     NodeInfo.timezone := 1 |}.

(** Node 0 with the edge to node 1, node 1 with the edge to node 0; a sign
    on the second edge, an access restriction on each of the two. *)
Definition tilebuilder : GraphTileBuilder.t (builder := Scenario.builder) :=
  @GraphTileBuilder.mk Scenario.builder
    (mkGraphId 0 2 0) 0
    [road_node 0 1; road_node 1 1]
    [road_edge 1 false true; road_edge 0 true true]
    [Sign.mk 1 11] [Sign.mk 1 11]
    [AccessRestriction.mk 0 21; AccessRestriction.mk 1 22]
    [AccessRestriction.mk 0 21; AccessRestriction.mk 1 22]
    ([], []) [].


(** The same tile as it is read for the search of the closest edge: both
    edges lie on way 42. *)
Definition tile : GraphTile.t :=
  {| GraphTile.graphid := mkGraphId 0 2 0;
     GraphTile.nodes := [road_node 0 1; road_node 1 1];
     GraphTile.directededges :=
       [road_edge 1 false true; road_edge 0 true true];
     GraphTile.edgeinfo := fun _ =>
       EdgeInfo.mk 42 [(f_zero, f_zero); (f_one, f_zero)] |}.

(** Stop 0 is connected to node 0 and to node 1. *)
Definition connection (osm_node : nat) : OSMConnectionEdge.t :=
  {| OSMConnectionEdge.osm_node := mkGraphId 0 2 osm_node;
     OSMConnectionEdge.stop_node := mkGraphId 0 2 0;
     OSMConnectionEdge.length := f_one;
     OSMConnectionEdge.shape := [(f_zero, f_zero); (f_zero, f_zero)] |}.

Definition connection_edges : list OSMConnectionEdge.t :=
  [connection 0; connection 1].

(** The tile set is this tile alone, with its two road nodes. *)
Definition tile_node_counts : gmap GraphId nat := {[ mkGraphId 0 2 0 := 2 ]}.

Definition read_pbf (tile : GraphId) : option Transit.t :=
  if bool_decide (tile = mkGraphId 0 2 0) then Some ScenarioBuild.transit
  else None.

Definition route_types : gmap Z Z := {[ 0%Z := 3%Z; 1%Z := 0%Z ]}.

(** The stop edge map that [build] forms from the departures. *)
Definition stop_edge_map : list (GraphId * StopEdges.t) :=
  b_stop_edge_map
    (form_departures (baldr := Scenario.baldr) (stl := Scenario.stl)
       ScenarioBuild.transit
       ScenarioBuild.departures ScenarioBuild.tilebuilder).

(** The rewrite of the tile, with at most 10 turns of each while loop. *)
Definition rebuilt (stop_access : gmap GraphId bool)
  : res (GraphTileBuilder.t (builder := Scenario.builder)) :=
  AddToGraph (baldr := Scenario.baldr) (geo := Scenario.geo) 10 read_pbf
    tile_node_counts connection_edges route_types tilebuilder stop_edge_map
    stop_access.

(** The tile that the rewrite returns. *)
Definition rebuilt_tile : GraphTileBuilder.t (builder := Scenario.builder) :=
  Eval vm_compute in
    match rebuilt ∅ with
    | Ok r => r
    | _ => tilebuilder
    end.

(** The search in the scenario: the edge from node 0 to node 1, at the
    first segment of its shape. *)
Definition closest0 : Closest :=
  Eval vm_compute in
    match closest_search (baldr := Scenario.baldr) (geo := Scenario.geo)
            (f_zero, f_zero) 42 tile with
    | Ok st => st
    | _ => closest_start (baldr := Scenario.baldr)
    end.

End ScenarioTile.

(** ** Notions used in the statements *)

(** A [uint32_t] value. *)
Definition uint32 (z : Z) : Prop := (0 <= z < 2 ^ 32)%Z.

(** The (route, destination stop) pair of a departure and of a line. *)
Definition dep_key (dep : Departure.t) : Z * GraphId :=
  (Departure.route dep, Departure.dest_pbf_graphid dep).

Definition line_key (line : TransitLine.t) : Z * GraphId :=
  (TransitLine.routeid line, TransitLine.dest_pbf_graphid line).

(** The set of the distinct (route, destination stop) pairs of a list of
    departures. *)
Definition distinct_pairs (ds : list Departure.t) : gset (Z * GraphId) :=
  list_to_set (dep_key <$> ds).

(** The departures that the loop of [build] goes through: for each stop of
    the tile in turn, the departures of its graph id. *)
Definition stop_departures {stl : unordered_multimap.Ops}
  (transit : Transit.t) (departures : list (GraphId * Departure.t))
  : list Departure.t :=
  concat
    ((fun stop => equal_range departures (Transit_Stop.graphid stop))
       <$> Transit.stops transit).

(** The property of a transit departure formed from a departure that C10
    is about. *)
Definition elapsed_wraps (td : TransitDeparture.t) (dep : Departure.t)
  : Prop :=
  TransitDeparture.departure_time td = Departure.dep_time dep /\
  TransitDeparture.elapsed_time td
  = ((Departure.arr_time dep - Departure.dep_time dep) mod 2 ^ 32)%Z /\
  ((Departure.dep_time dep <= Departure.arr_time dep)%Z ->
   TransitDeparture.elapsed_time td
   = (Departure.arr_time dep - Departure.dep_time dep)%Z) /\
  ((Departure.arr_time dep < Departure.dep_time dep)%Z ->
   TransitDeparture.elapsed_time td
   = (Departure.arr_time dep - Departure.dep_time dep + 2 ^ 32)%Z).

(** The line ids of all the lines of a stop edge map. *)
Definition line_ids (m : list (GraphId * StopEdges.t)) : list Z :=
  concat ((fun kse => TransitLine.lineid <$> StopEdges.lines (snd kse)) <$> m).

(** The integers [a], [a + 1], ... in a list. *)
Definition consecutive (a : Z) (l : list Z) : Prop :=
  l = (fun i => (a + Z.of_nat i)%Z) <$> seq 0 (List.length l).

Section KeptStopPairs.
Context {calendar : DateTime.Ops}.

(** The stop pairs that survive the test on the initial days bitmap. *)
Definition kept (tile_date : Z) (sps : list Transit_StopPair.t)
  : list Transit_StopPair.t :=
  List.filter (fun sp => negb (initial_days tile_date sp =? 0)%Z) sps.

End KeptStopPairs.

(** ** Invariants of the loops of [build] *)

Section BuildInvariants.
Context {baldr : Baldr} {builder : GraphTileBuilder.Ops}.
Context {stl : unordered_multimap.Ops}.

(** The invariant of the loop over the departures of a stop, after the
    departures [done] and from the line id [uid0] on. *)
Record dep_inv (uid0 : Z) (done : list Departure.t) (st : DepState) : Prop := {
  inv_dom : dom (unique_transit_edges st) = distinct_pairs done;
  inv_keys : list_to_set (line_key <$> lines st) = distinct_pairs done;
  inv_count : List.length (lines st) = size (distinct_pairs done);
  inv_ids : consecutive uid0 (TransitLine.lineid <$> lines st);
  inv_next : unique_lineid st = (uid0 + Z.of_nat (List.length (lines st)))%Z;
  inv_le : List.length (lines st) <= List.length done
}.

(** The invariant of the loop over the stops, after [n] departures. *)
Record build_inv (deps : list (GraphId * Departure.t)) (n : nat)
  (st : BuildState) : Prop := {
  binv_next : (1 <= b_unique_lineid st <= 1 + Z.of_nat n)%Z;
  binv_entries : forall k se,
    (k, se) ∈ b_stop_edge_map st ->
    StopEdges.origin_pbf_graphid se = k /\
    List.length (StopEdges.lines se)
    = size (distinct_pairs (equal_range deps k)) /\
    list_to_set (line_key <$> StopEdges.lines se)
    = distinct_pairs (equal_range deps k);
  binv_ids : forall x,
    x ∈ line_ids (b_stop_edge_map st) -> (1 <= x < b_unique_lineid st)%Z;
  binv_nodup : NoDup (line_ids (b_stop_edge_map st))
}.

End BuildInvariants.

(** ** Notions used in the statements about [AddToGraph] *)

(** The edge indices of the nodes follow one another from [start] and end
    at [total]: node after node, the edges of a node are the next
    [edge_count] positions of the array of directed edges. *)
Fixpoint laid_out (start : nat) (nodes : list NodeInfo.t) (total : nat)
  : Prop :=
  match nodes with
  | [] => start = total
  | nb :: nodes' =>
      NodeInfo.edge_index nb = start /\
      laid_out (start + NodeInfo.edge_count nb) nodes' total
  end.

(** The edges at the positions [edge_index, edge_index + edge_count) of a
    node. *)
Definition edges_of (edges : list DirectedEdge.t) (nb : NodeInfo.t)
  : list DirectedEdge.t :=
  take (NodeInfo.edge_count nb) (drop (NodeInfo.edge_index nb) edges).

(** The number of edges that the [k] first nodes of [new] have more than
    the nodes of [old] at the same positions. *)
Fixpoint inserted (old new : list NodeInfo.t) : nat :=
  match old, new with
  | o :: old', n :: new' =>
      (NodeInfo.edge_count n - NodeInfo.edge_count o) + inserted old' new'
  | _, _ => 0
  end.

Definition inserted_before (old new : list NodeInfo.t) (k : nat) : nat :=
  inserted (take k old) (take k new).

Section EdgeKinds.
Context {baldr : Baldr}.

(** The edge made in the first pass for a connection: from the OSM node to
    the stop. *)
Definition connection_to (counts : gmap GraphId nat)
  (conn : OSMConnectionEdge.t) (e : DirectedEdge.t) : Prop :=
  DirectedEdge.endnode e = GetGraphId (OSMConnectionEdge.stop_node conn) counts /\
  DirectedEdge.length e = OSMConnectionEdge.length conn /\
  DirectedEdge.use e = kTransitConnection.

(** The edge made in the second pass for a connection: from the stop to
    the OSM node. *)
Definition connection_from (conn : OSMConnectionEdge.t) (e : DirectedEdge.t)
  : Prop :=
  DirectedEdge.endnode e = OSMConnectionEdge.osm_node conn /\
  DirectedEdge.length e = OSMConnectionEdge.length conn /\
  DirectedEdge.use e = kTransitConnection.

(** The edge made for a transit line. *)
Definition line_edge (counts : gmap GraphId nat) (line : TransitLine.t)
  (e : DirectedEdge.t) : Prop :=
  DirectedEdge.endnode e
  = GetGraphId (TransitLine.dest_pbf_graphid line) counts /\
  DirectedEdge.lineid e = TransitLine.lineid line /\
  (DirectedEdge.use e = kRail \/ DirectedEdge.use e = kBus).

(** Node [k] of the tile as it was, [nb], and the node [nb'] at its place
    in the rebuilt tile: [nb'] is [nb] with a new edge index and edge count,
    and its edges in the rebuilt array are the edges of [nb], in order, and
    after them the edges of some connections that follow one another in the
    list of connections, all of them at node [k]. *)
Definition rebuilt_road_node (counts : gmap GraphId nat)
  (conns : list OSMConnectionEdge.t) (currentedges edges : list DirectedEdge.t)
  (k : nat) (nb nb' : NodeInfo.t) : Prop :=
  exists es a,
    nb' = NodeInfo.set_edge_count (NodeInfo.edge_count nb + List.length es)
            (NodeInfo.set_edge_index (NodeInfo.edge_index nb') nb) /\
    edges_of edges nb' = edges_of currentedges nb ++ es /\
    List.length (edges_of currentedges nb) = NodeInfo.edge_count nb /\
    Forall2 (connection_to counts) (take (List.length es) (drop a conns)) es /\
    Forall (fun c => id (OSMConnectionEdge.osm_node c) = k)
      (take (List.length es) (drop a conns)).

(** The connections of a stop and the lines whose end stop lies in a tile
    of the tile set. *)
Definition connections_of (stopid : GraphId)
  (conns : list OSMConnectionEdge.t) : list OSMConnectionEdge.t :=
  List.filter
    (fun c => bool_decide (OSMConnectionEdge.stop_node c = stopid)) conns.

Definition lines_in_tiles (counts : gmap GraphId nat)
  (lines : list TransitLine.t) : list TransitLine.t :=
  List.filter
    (fun l => Is_Valid (GetGraphId (TransitLine.dest_pbf_graphid l) counts))
    lines.

(** The node added for the stop of [stop_edges]: a transit stop with the
    access of pedestrians, whose edges in the rebuilt array are the edges of
    the connections of the stop, in the order of the list of connections,
    and after them the edges of its lines that end in the tile set. *)
Definition rebuilt_stop_node (counts : gmap GraphId nat)
  (conns : list OSMConnectionEdge.t) (edges : list DirectedEdge.t)
  (stop_edges : StopEdges.t) (node : NodeInfo.t) : Prop :=
  exists cs ls,
    edges_of edges node = cs ++ ls /\
    Forall2 connection_from
      (connections_of (StopEdges.origin_pbf_graphid stop_edges) conns) cs /\
    Forall2 (line_edge counts)
      (lines_in_tiles counts (StopEdges.lines stop_edges)) ls /\
    NodeInfo.access node = kPedestrianAccess /\
    NodeInfo.type node = kMultiUseTransitStop /\
    NodeInfo.stop_index node = id (StopEdges.origin_pbf_graphid stop_edges).

End EdgeKinds.

(** ** Invariants of the loops of [AddToGraph] *)

Section AddToGraphInvariants.
Context {baldr : Baldr} {builder : GraphTileBuilder.Ops}.
Variable counts : gmap GraphId nat.
Variable conns : list OSMConnectionEdge.t.

(** The invariant of the loop over the nodes, after the nodes [done]. *)
Record road_inv (currentedges : list DirectedEdge.t)
  (done : list NodeInfo.t) (st : RoadState) : Prop := {
  ri_nodes : List.length (rs_nodes st) = List.length done;
  ri_nodeid : rs_nodeid st = List.length done;
  ri_layout :
    laid_out 0 (rs_nodes st) (List.length (rs_directededges st));
  ri_added : rs_added_edges st = inserted done (rs_nodes st);
  ri_each : forall k nb,
    done !! k = Some nb ->
    exists nb',
      rs_nodes st !! k = Some nb' /\
      rebuilt_road_node counts conns currentedges (rs_directededges st)
        k nb nb'
}.

(** The invariant of the loop over the stops, after the stops [done]; the
    first pass left the nodes [base_nodes] and the edges [base_edges]. *)
Record stop_inv (base_nodes : list NodeInfo.t)
  (base_edges : list DirectedEdge.t) (done : list StopEdges.t)
  (st : StopState) : Prop := {
  si_edges : exists more, ss_directededges st = base_edges ++ more;
  si_layout :
    laid_out 0 (ss_nodes st) (List.length (ss_directededges st));
  si_nodes : exists new,
    ss_nodes st = base_nodes ++ new /\
    List.length new = List.length done /\
    forall k se,
      done !! k = Some se ->
      exists node,
        new !! k = Some node /\
        rebuilt_stop_node counts conns (ss_directededges st) se node
}.

End AddToGraphInvariants.

(** ** Notions used in the statements about signs and access restrictions *)

Section Reindexing.
Context {T : Type} {indexed : EdgeIndexed T}.

(** The records of a table come in the order of their edge indices. *)
Definition by_edge_index (table : list T) : Prop :=
  Sorted le (get_edgeindex <$> table).

(** Every record of [table] that refers to an edge of node [k] of the tile
    as it was has, in the table [builder'], the edge index moved by the
    number of edges inserted at the nodes before [k]; the rest of the record
    is as in [builder]. *)
Definition reindexed (old_nodes new_nodes : list NodeInfo.t)
  (table builder builder' : list T) : Prop :=
  forall j r k nb,
    table !! j = Some r ->
    old_nodes !! k = Some nb ->
    NodeInfo.edge_index nb <= get_edgeindex r
    < NodeInfo.edge_index nb + NodeInfo.edge_count nb ->
    exists b,
      builder !! j = Some b /\
      builder' !! j
      = Some (put_edgeindex
                (get_edgeindex r + inserted_before old_nodes new_nodes k) b).

(** The invariant of a cursor while the edges are put back: [shifted e a]
    says that the edge at [e] was put back when [a] edges had been added.
    The records before the cursor refer to edges before [lo] and have been
    moved in the builder's table; the records from the cursor on refer to
    edges from [hi] on and are as they were. *)
Record cursor_inv (shifted : nat -> nat -> Prop) (table builder : list T)
  (lo hi : nat) (c : Cursor T) : Prop := {
  ci_idx : cur_idx c <= List.length table;
  ci_length : List.length (cur_builder c) = List.length table;
  ci_next : forall r,
    table !! cur_idx c = Some r -> cur_next c = get_edgeindex r;
  ci_before : forall j r,
    j < cur_idx c ->
    table !! j = Some r ->
    get_edgeindex r < lo /\
    exists a b,
      shifted (get_edgeindex r) a /\
      builder !! j = Some b /\
      cur_builder c !! j = Some (put_edgeindex (get_edgeindex r + a) b);
  ci_after : forall j r,
    cur_idx c <= j ->
    table !! j = Some r ->
    hi <= get_edgeindex r /\ cur_builder c !! j = builder !! j
}.

End Reindexing.

Section CursorsAt.
Context {builder : GraphTileBuilder.Ops}.
Variable sign0 sign_builder0 : list Sign.t.
Variable res0 res_builder0 : list AccessRestriction.t.
Variable shifted : nat -> nat -> Prop.

(** The cursors of a state at the edge [idx]. *)
Definition cursors_at (idx : nat) (st : RoadState) : Prop :=
  cursor_inv shifted sign0 sign_builder0 idx idx (rs_sign st) /\
  cursor_inv shifted res0 res_builder0 idx idx (rs_res st).

End CursorsAt.

(** Where the edges of node [k] start; the number of edges past the last
    node. *)
Definition start_of (nodes : list NodeInfo.t) (total k : nat) : nat :=
  match nodes !! k with
  | Some nb => NodeInfo.edge_index nb
  | None => total
  end.


Section Shifted.
Context {baldr : Baldr} {builder : GraphTileBuilder.Ops}.

(** The edge at [e] belongs to a node [k] of the tile as it was, and [a]
    edges had been added when the first pass came to node [k]. *)
Definition shifted_by (fuel : nat) (counts : gmap GraphId nat)
  (conns : list OSMConnectionEdge.t) (tb : GraphTileBuilder.t)
  (e a : nat) : Prop :=
  exists k nb st,
    GraphTileBuilder.nodes tb !! k = Some nb /\
    foldM
      (road_node fuel counts conns (GraphTileBuilder.directededges tb)
         (GraphTileBuilder.sign tb) (GraphTileBuilder.accessrestriction tb))
      (take k (GraphTileBuilder.nodes tb)) (road_start tb) = Ok st /\
    NodeInfo.edge_index nb <= e
    < NodeInfo.edge_index nb + NodeInfo.edge_count nb /\
    a = rs_added_edges st.

(** A tile whose tables the first pass can go through: the edges of the
    nodes follow one another and are all the directed edges; the signs and
    the access restrictions come in the order of their edge indices, refer
    to directed edges of the tile, and are as many in the builder as in the
    tile. *)
Record well_formed (tb : GraphTileBuilder.t) : Prop := {
  wf_layout :
    laid_out 0 (GraphTileBuilder.nodes tb)
      (List.length (GraphTileBuilder.directededges tb));
  wf_sign_sorted : by_edge_index (GraphTileBuilder.sign tb);
  wf_sign_range :
    Forall (fun s => Sign.edgeindex s
                     < List.length (GraphTileBuilder.directededges tb))
      (GraphTileBuilder.sign tb);
  wf_sign_builder :
    List.length (GraphTileBuilder.sign_builder tb)
    = List.length (GraphTileBuilder.sign tb);
  wf_res_sorted : by_edge_index (GraphTileBuilder.accessrestriction tb);
  wf_res_range :
    Forall (fun r => AccessRestriction.edgeindex r
                     < List.length (GraphTileBuilder.directededges tb))
      (GraphTileBuilder.accessrestriction tb);
  wf_res_builder :
    List.length (GraphTileBuilder.accessrestriction_builder tb)
    = List.length (GraphTileBuilder.accessrestriction tb)
}.

End Shifted.

(** ** Inputs on which the second pass of [AddToGraph] finds what it reads *)

Section Resolves.
Context {baldr : Baldr}.
Variable read_pbf : GraphId -> option Transit.t.
Variable counts : gmap GraphId nat.
Variable route_types : gmap Z Z.
Variable tileid0 : GraphId.
Variable transit : Transit.t.

(** A line whose end stop lies in the tile set has its end stop in the
    transit data that is read for it, and its route has a type. *)
Definition line_resolves (line : TransitLine.t) : Prop :=
  Is_Valid (GetGraphId (TransitLine.dest_pbf_graphid line) counts) = true ->
  (exists endstop,
      end_stop read_pbf tileid0 transit (TransitLine.dest_pbf_graphid line)
      = Ok endstop) /\
  is_Some (route_types !! TransitLine.routeid line).

(** The stop of an entry of the stop edge map is a stop of the transit data
    of the tile, and its lines resolve. *)
Definition stop_resolves (stop_edges : StopEdges.t) : Prop :=
  is_Some (Transit.stops transit
             !! id (StopEdges.origin_pbf_graphid stop_edges)) /\
  Forall line_resolves (StopEdges.lines stop_edges).

End Resolves.

(** * The rest of the source file *)

(** ** [OSMConnectionEdge::operator<] and the sort of the connections

    Lines 82 to 88 and line 892 of the source. *)

(** [operator <] of [struct OSMConnectionEdge]: the tile id of the OSM node
    first, then its id; the level, the stop, the length and the shape are
    not looked at. *)
Definition OSMConnectionEdge_less (a other : OSMConnectionEdge.t) : bool :=
  if tileid (OSMConnectionEdge.osm_node a)
     =? tileid (OSMConnectionEdge.osm_node other)
  then id (OSMConnectionEdge.osm_node a)
       <? id (OSMConnectionEdge.osm_node other)
  else tileid (OSMConnectionEdge.osm_node a)
       <? tileid (OSMConnectionEdge.osm_node other).

(** What [std::sort(connection_edges.begin(), connection_edges.end())]
    leaves: the elements of the vector in an order in which no element is
    less than one that comes before it.  The standard leaves the order of
    equivalent elements open, so the sort is a relation between the vector
    before and the vector after. *)
Definition sorted_connections (after : list OSMConnectionEdge.t) : Prop :=
  forall i j a b,
    i < j -> after !! i = Some a -> after !! j = Some b ->
    OSMConnectionEdge_less b a = false.

Definition std_sort (before after : list OSMConnectionEdge.t) : Prop :=
  after ≡ₚ before /\ sorted_connections after.

(** ** [AddRoutes]: the routes of a tile

    Lines 209 to 238 of the source. *)

Section AddRoutes.
Context {builder : GraphTileBuilder.Ops}.

(** What the tile builder does with route [i]: the names of the route are
    added and the route record is added, [AddName] and [AddTransitRoute] of
    mjolnir/graphtilebuilder.h.  The source evaluates the [AddName] calls as
    arguments of one constructor call, in an order that the language does
    not fix. *)
Variable AddTransitRoute :
  nat -> Transit_Route.t -> GraphTileBuilder.Tables -> GraphTileBuilder.Tables.

(** One turn of the loop over the routes: the route goes to the tile, and
    its vehicle type to the map of route types, under its index. *)
Definition add_route
  (st : gmap Z Z * GraphTileBuilder.Tables) (ir : nat * Transit_Route.t)
  : gmap Z Z * GraphTileBuilder.Tables :=
  (<[Z.of_nat (fst ir) := Transit_Route.vehicle_type (snd ir)]> (fst st),
   AddTransitRoute (fst ir) (snd ir) (snd st)).

(** [AddRoutes] returns the map of the route types; the argument [keys] is
    not used in the source. *)
Definition AddRoutes (transit : Transit.t) (keys : gset Z)
  (tables : GraphTileBuilder.Tables) : gmap Z Z * GraphTileBuilder.Tables :=
  fold_left add_route
    (imap (fun i r => (i, r)) (Transit.routes transit)) (∅, tables).

End AddRoutes.

(** ** [TransitBuilder::Build]: the tiles of each thread

    Lines 1058 to 1089 of the source. *)

(** The number of threads: [std::max(1, concurrency)]. *)
Definition threads_size (concurrency : nat) : nat := Nat.max 1 concurrency.

(** How many tiles thread [i] works on: the ceiling or the floor of the
    number of tiles per thread. *)
Definition tile_count (tiles_size threads : nat) (i : nat) : nat :=
  let floor := tiles_size / threads in
  let at_ceiling := tiles_size - threads * floor in
  if i <? at_ceiling then floor + 1 else floor.

(** One turn of the loop that starts the threads.  The iterators
    [tile_start] and [tile_end] are positions in the sequence of the tiles;
    [std::advance] past the end of the sequence is a fault.  The state is
    [tile_end] and the ranges [tile_start, tile_end) given out so far. *)
Definition start_thread (tiles_size threads : nat) (i : nat)
  (st : nat * list (nat * nat)) : res (nat * list (nat * nat)) :=
  let tile_start := fst st in
  let tile_end := tile_start + tile_count tiles_size threads i in
  if tiles_size <? tile_end then Fault
  else Ok (tile_end, snd st ++ [(tile_start, tile_end)]).

(** The ranges of the threads, in the order of the threads. *)
Definition divvy (tiles_size concurrency : nat) : res (list (nat * nat)) :=
  st <- foldM (start_thread tiles_size (threads_size concurrency))
          (seq 0 (threads_size concurrency)) (0, []) ;;
  Ok (snd st).

(** The positions of a range. *)
Definition positions (range : nat * nat) : list nat :=
  seq (fst range) (snd range - fst range).

(** Where the range of thread [i] starts when the tiles are shared out as
    [tile_count] says: [i] floors and one more tile for each of the threads
    before [i] that are at the ceiling. *)
Definition range_start (tiles_size threads i : nat) : nat :=
  i * (tiles_size / threads)
  + Nat.min i (tiles_size - threads * (tiles_size / threads)).

(** ** Notions used in the statements about [ProcessStopPairs] *)

(** A stop pair that leaves from the stop or arrives at it. *)
Definition touches (g : GraphId) (sp : Transit_StopPair.t) : bool :=
  bool_decide (Transit_StopPair.origin_graphid sp = g)
  || bool_decide (Transit_StopPair.destination_graphid sp = g).

Section RejectedStopPairs.
Context {calendar : DateTime.Ops}.


End RejectedStopPairs.

(** *** A schedule with a stop pair that runs and one that does not *)

Module ScenarioSchedule.

(** A stop pair from stop 1 to stop 0 with no day of the week. *)
Definition idle : Transit_StopPair.t :=
  {| Transit_StopPair.origin_graphid := mkGraphId 0 2 1;
     Transit_StopPair.destination_graphid := mkGraphId 0 2 0;
     Transit_StopPair.route_index := 1;
     Transit_StopPair.trip_key := 8;
     Transit_StopPair.block_id := 0;
     Transit_StopPair.origin_departure_time := 30000;
     Transit_StopPair.destination_arrival_time := 30600;
     Transit_StopPair.service_days_of_week := [];
     Transit_StopPair.service_start_date := Scenario.pivot;
     Transit_StopPair.service_end_date := Scenario.pivot;
     Transit_StopPair.trip_headsign := "Main Street";
     Transit_StopPair.bikes_allowed := true;
     Transit_StopPair.service_except_dates := [];
     Transit_StopPair.service_added_dates := [] |}.

Definition mixed : Transit.t :=
  {| Transit.stops := [ScenarioTransit.stop0; ScenarioTransit.stop1];
     Transit.routes := [Transit_Route.mk "1" 3; Transit_Route.mk "2" 0];
     Transit.stop_pairs := [ScenarioTransit.pair_on_pivot [] []; idle] |}.

End ScenarioSchedule.

(** *** A transit line of the scenario *)

Module ScenarioLine.

(** The tables of the tile builder with no name and no edge info. *)
Definition no_tables : GraphTileBuilder.Tables (Ops := Scenario.builder) :=
  ([], []).

(** The tile builder of the scenario keeps no route records. *)
Definition AddTransitRoute (i : nat) (r : Transit_Route.t)
  (tables : GraphTileBuilder.Tables (Ops := Scenario.builder))
  : GraphTileBuilder.Tables (Ops := Scenario.builder) := tables.

Definition route_types : gmap Z Z :=
  fst (AddRoutes (builder := Scenario.builder) AddTransitRoute
         ScenarioBuild.transit ∅ no_tables).

(** The line of route 0 from stop 0 to stop 1. *)
Definition line : TransitLine.t :=
  {| TransitLine.lineid := 1;
     TransitLine.routeid := 0;
     TransitLine.dest_pbf_graphid := mkGraphId 0 2 1;
     TransitLine.shapeid := 0 |}.

Definition before : StopState (builder := Scenario.builder) :=
  {| ss_nodes := []; ss_directededges := []; ss_tables := no_tables;
     ss_nadded := 0 |}.

Definition run : res (StopState (builder := Scenario.builder)) :=
  transit_line (baldr := Scenario.baldr) (geo := Scenario.geo)
    ScenarioTile.read_pbf ScenarioTile.tile_node_counts route_types
    (mkGraphId 0 2 0) ScenarioBuild.transit (f_zero, f_zero) (mkGraphId 0 2 2)
    0 line before.

Definition after : StopState (builder := Scenario.builder) :=
  Eval vm_compute in
    match run with
    | Ok st => st
    | _ => before
    end.

End ScenarioLine.

(** ** Notions used in the statements about the stop edge map *)

Section StopEdgeMapNotions.
Context {baldr : Baldr} {builder : GraphTileBuilder.Ops}.

(** The stops come in the order of their graph ids. *)
Definition stops_in_order (stops : list Transit_Stop.t) : Prop :=
  forall i j si sj,
    i < j -> stops !! i = Some si -> stops !! j = Some sj ->
    GraphId_less (Transit_Stop.graphid si) (Transit_Stop.graphid sj) = true.

(** A transit departure formed from a departure carries the id of a line
    of the stop edges that has the route and the destination of the
    departure. *)
Definition served_by (se : StopEdges.t) (td : TransitDeparture.t)
  (dep : Departure.t) : Prop :=
  exists line off,
    line ∈ StopEdges.lines se /\
    TransitLine.routeid line = Departure.route dep /\
    TransitLine.dest_pbf_graphid line = Departure.dest_pbf_graphid dep /\
    td = form_departure (TransitLine.lineid line) dep off.

(** Every entry of the map of the unique transit edges of a stop has its
    line among the lines of the stop. *)
Definition edges_known (st : DepState) : Prop :=
  forall key l,
    unique_transit_edges st !! key = Some l ->
    exists line,
      line ∈ lines st /\ line_key line = key /\ TransitLine.lineid line = l.

End StopEdgeMapNotions.

(** ** Notions used in the statements about the sorted connections *)

(** The connections of the OSM node with index [k]. *)
Definition connections_at (k : nat) (conns : list OSMConnectionEdge.t)
  : list OSMConnectionEdge.t :=
  List.filter (fun c => id (OSMConnectionEdge.osm_node c) =? k) conns.

(** The ids of the OSM nodes of the connections do not go down. *)
Definition ids_in_order (conns : list OSMConnectionEdge.t) : Prop :=
  forall i j a b,
    i < j -> conns !! i = Some a -> conns !! j = Some b ->
    id (OSMConnectionEdge.osm_node a) <= id (OSMConnectionEdge.osm_node b).

Section SortedInvariant.
Context {baldr : Baldr} {builder : GraphTileBuilder.Ops}.
Variable counts : gmap GraphId nat.
Variable conns : list OSMConnectionEdge.t.

(** The invariant of the loop over the nodes when the connections come in
    the order of the ids of their OSM nodes: the connections gone through
    are those of the nodes done, and each node done has the edges of all its
    connections. *)
Record sorted_inv (currentedges : list DirectedEdge.t)
  (done : list NodeInfo.t) (st : RoadState) : Prop := {
  so_road : road_inv counts conns currentedges done st;
  so_le : rs_added_edges st <= List.length conns;
  so_before :
    Forall (fun c => id (OSMConnectionEdge.osm_node c) < List.length done)
      (take (rs_added_edges st) conns);
  so_after :
    Forall (fun c => List.length done <= id (OSMConnectionEdge.osm_node c))
      (drop (rs_added_edges st) conns);
  so_each : forall k nb,
    done !! k = Some nb ->
    exists nb' es,
      rs_nodes st !! k = Some nb' /\
      edges_of (rs_directededges st) nb' = edges_of currentedges nb ++ es /\
      Forall2 (connection_to counts) (connections_at k conns) es
}.

End SortedInvariant.

(** ** Notions used in the statements about [AddOSMConnection] *)

(** The edges of every node of the tile are directed edges of the tile. *)
Definition edges_in_range (tile : GraphTile.t) : Prop :=
  forall i node j,
    GraphTile.nodes tile !! i = Some node ->
    j < NodeInfo.edge_count node ->
    is_Some (GraphTile.directededges tile !! (NodeInfo.edge_index node + j)).

Section ClosestNotions.
Context {baldr : Baldr} {geo : midgard.Ops}.
Variable stop_ll : PointLL.
Variable wayid : Z.
Variable tile : GraphTile.t.

(** The edge info of a directed edge of the tile. *)
Definition edgeinfo_of (e : DirectedEdge.t) : EdgeInfo.t :=
  GraphTile.edgeinfo tile (DirectedEdge.edgeinfo_offset e).

(** [e] is edge [j] of node [i] of the tile, and it lies on the way. *)
Definition on_way (i j : nat) (e : DirectedEdge.t) : Prop :=
  exists node,
    GraphTile.nodes tile !! i = Some node /\
    j < NodeInfo.edge_count node /\
    GraphTile.directededges tile !! (NodeInfo.edge_index node + j) = Some e /\
    EdgeInfo.wayid (edgeinfo_of e) = wayid.

(** The distance from the stop to the shape of an edge. *)
Definition distance_to (e : DirectedEdge.t) : float :=
  snd (fst (midgard.ClosestPoint stop_ll (EdgeInfo.shape (edgeinfo_of e)))).

(** The variables of the search when edge [e] of node [i] is the closest
    edge found. *)
Definition chosen (i : nat) (e : DirectedEdge.t) : Closest :=
  {| mindist := distance_to e;
     startnode :=
       mkGraphId (tileid (GraphTile.graphid tile))
         (level (GraphTile.graphid tile)) i;
     endnode := DirectedEdge.endnode e;
     closest_shape :=
       if DirectedEdge.forward e then EdgeInfo.shape (edgeinfo_of e)
       else rev (EdgeInfo.shape (edgeinfo_of e));
     closest :=
       midgard.ClosestPoint stop_ll (EdgeInfo.shape (edgeinfo_of e)) |}.

(** The invariant of the search over the edges [seen]: the variables are
    those of the start or of an edge seen on the way that is closer than the
    first bound, and no edge seen on the way is closer. *)
Definition search_inv (seen : nat -> nat -> Prop) (st : Closest) : Prop :=
  (st = closest_start \/
   exists i j e,
     seen i j /\ on_way i j e /\ st = chosen i e /\
     SFltb (mindist st) f_mindist0 = true) /\
  forall i j e,
    seen i j -> on_way i j e -> SFltb (distance_to e) (mindist st) = false.

End ClosestNotions.


(** *** A stop on a way that the tile does not have *)

Module ScenarioFar.

Definition stop : Transit_Stop.t :=
  {| Transit_Stop.graphid := mkGraphId 0 2 2;
     Transit_Stop.name := "Airport";
     Transit_Stop.onestop_id := "s-airport";
     Transit_Stop.lon := f_zero;
     Transit_Stop.lat := f_one;
     Transit_Stop.osm_way_id := 7;
     Transit_Stop.timezone := 1 |}.

End ScenarioFar.

(** ** [build]: the work on one tile

    Lines 858 to 983 of the source: the part of the loop over the tiles
    between the reading of the files and the writing of the tile. *)

Section BuildTile.
Context {baldr : Baldr} {builder : GraphTileBuilder.Ops} {geo : midgard.Ops}
  {calendar : DateTime.Ops} {stl : unordered_multimap.Ops}.

(** [std::sort] as a function: the standard fixes its result up to the
    order of equivalent elements (see [std_sort]). *)
Variable sort : list OSMConnectionEdge.t -> list OSMConnectionEdge.t.

(** [AddTransitStop] and [AddTransitRoute] of the tile builder, declared in
    mjolnir/graphtilebuilder.h: what they do to the tables of the builder
    with the offsets of the two names of a stop, and with a route. *)
Variable AddTransitStop :
  Z -> Z -> GraphTileBuilder.Tables -> GraphTileBuilder.Tables.
Variable AddTransitRoute :
  nat -> Transit_Route.t -> GraphTileBuilder.Tables -> GraphTileBuilder.Tables.

Variable fuel : nat.
Variable read_pbf : GraphId -> option Transit.t.
Variable tiles : gmap GraphId nat.

(** The tile builder with other text and edge info tables. *)
Definition with_tables (tables' : GraphTileBuilder.Tables)
  (tb : GraphTileBuilder.t) : GraphTileBuilder.t :=
  {| GraphTileBuilder.graphid := GraphTileBuilder.graphid tb;
     GraphTileBuilder.date_created := GraphTileBuilder.date_created tb;
     GraphTileBuilder.nodes := GraphTileBuilder.nodes tb;
     GraphTileBuilder.directededges := GraphTileBuilder.directededges tb;
     GraphTileBuilder.sign := GraphTileBuilder.sign tb;
     GraphTileBuilder.sign_builder := GraphTileBuilder.sign_builder tb;
     GraphTileBuilder.accessrestriction := GraphTileBuilder.accessrestriction tb;
     GraphTileBuilder.accessrestriction_builder :=
       GraphTileBuilder.accessrestriction_builder tb;
     GraphTileBuilder.tables := tables';
     GraphTileBuilder.transit_departures :=
       GraphTileBuilder.transit_departures tb |}.

(** One turn of the loop over the stops of lines 874 to 889: the
    connections of the stop are formed, and the stop is stored in the tile
    with the offsets of its two names, added in the order of the braces. *)
Definition connect_stop (tile : GraphTile.t) (stop : Transit_Stop.t)
  (st : list OSMConnectionEdge.t * GraphTileBuilder.Tables)
  : res (list OSMConnectionEdge.t * GraphTileBuilder.Tables) :=
  connection_edges <- AddOSMConnection stop tile (fst st) ;;
  let '(one_stop_offset, tables1) :=
    GraphTileBuilder.AddName (Transit_Stop.onestop_id stop) (snd st) in
  let '(name_offset, tables2) :=
    GraphTileBuilder.AddName (Transit_Stop.name stop) tables1 in
  Ok (connection_edges, AddTransitStop one_stop_offset name_offset tables2).

(** The work on the tile [tile_id], given its transit data, the tile as it
    is read and its tile builder. *)
Definition build_tile (tile_id : GraphId) (transit : Transit.t)
  (tile : GraphTile.t) (tilebuilder : GraphTileBuilder.t)
  : res GraphTileBuilder.t :=
  cs <- foldM (connect_stop tile) (Transit.stops transit)
          ([], GraphTileBuilder.tables tilebuilder) ;;
  let connection_edges := sort (fst cs) in
  let psp :=
    ProcessStopPairs transit (GraphTileBuilder.date_created tilebuilder) ∅
      tile_id in
  let bs :=
    form_departures transit (departures psp)
      (with_tables (snd cs) tilebuilder) in
  let '(route_types, tables') :=
    AddRoutes AddTransitRoute transit (b_route_keys bs)
      (GraphTileBuilder.tables (b_tilebuilder bs)) in
  AddToGraph fuel read_pbf tiles connection_edges route_types
    (with_tables tables' (b_tilebuilder bs)) (b_stop_edge_map bs)
    (stop_access psp).

End BuildTile.

(** Sorting by insertion, one of the functions that [std::sort] can be. *)
Fixpoint insert_sorted (c : OSMConnectionEdge.t)
  (l : list OSMConnectionEdge.t) : list OSMConnectionEdge.t :=
  match l with
  | [] => [c]
  | d :: l' =>
      if OSMConnectionEdge_less c d then c :: l else d :: insert_sorted c l'
  end.

Definition insertion_sort (l : list OSMConnectionEdge.t)
  : list OSMConnectionEdge.t :=
  fold_right insert_sorted [] l.

(** No element is less than one before it. *)
Definition ascending (l : list OSMConnectionEdge.t) : Prop :=
  StronglySorted (fun a b => OSMConnectionEdge_less b a = false) l.


(** Two tile builders with the same nodes, directed edges, signs and access
    restrictions. *)
Definition same_graph {builder : GraphTileBuilder.Ops}
  (a b : GraphTileBuilder.t) : Prop :=
  GraphTileBuilder.graphid a = GraphTileBuilder.graphid b /\
  GraphTileBuilder.nodes a = GraphTileBuilder.nodes b /\
  GraphTileBuilder.directededges a = GraphTileBuilder.directededges b /\
  GraphTileBuilder.sign a = GraphTileBuilder.sign b /\
  GraphTileBuilder.sign_builder a = GraphTileBuilder.sign_builder b /\
  GraphTileBuilder.accessrestriction a = GraphTileBuilder.accessrestriction b /\
  GraphTileBuilder.accessrestriction_builder a
  = GraphTileBuilder.accessrestriction_builder b.


(** *** The work on the tile of the scenario *)

Module ScenarioBuildTile.

(** The tile builder of the scenario keeps no stop records. *)
Definition AddTransitStop (one_stop_offset name_offset : Z)
  (tables : GraphTileBuilder.Tables (Ops := Scenario.builder))
  : GraphTileBuilder.Tables (Ops := Scenario.builder) := tables.

Definition read_pbf (tile : GraphId) : option Transit.t :=
  if bool_decide (tile = mkGraphId 0 2 0) then Some ScenarioSchedule.mixed
  else None.

Definition run : res (GraphTileBuilder.t (builder := Scenario.builder)) :=
  build_tile (baldr := Scenario.baldr) (geo := Scenario.geo)
    (calendar := Scenario.calendar) (stl := Scenario.stl) insertion_sort
    AddTransitStop
    ScenarioLine.AddTransitRoute 10 read_pbf ScenarioTile.tile_node_counts
    (mkGraphId 0 2 0) ScenarioSchedule.mixed ScenarioTile.tile
    ScenarioTile.tilebuilder.

(** The tile that the work returns. *)
Definition rebuilt : GraphTileBuilder.t (builder := Scenario.builder) :=
  Eval vm_compute in
    match run with
    | Ok r => r
    | _ => ScenarioTile.tilebuilder
    end.

(** The connections and the tables that the loop over the stops leaves. *)
Definition connections
  : list OSMConnectionEdge.t
    * GraphTileBuilder.Tables (Ops := Scenario.builder) :=
  Eval vm_compute in
    match foldM (connect_stop (baldr := Scenario.baldr) (geo := Scenario.geo)
                   AddTransitStop ScenarioTile.tile)
            (Transit.stops ScenarioSchedule.mixed)
            ([], GraphTileBuilder.tables ScenarioTile.tilebuilder) with
    | Ok cs => cs
    | _ => ([], GraphTileBuilder.tables ScenarioTile.tilebuilder)
    end.

End ScenarioBuildTile.

(** * Properties *)

(** ** [GetGraphId] *)

Section GraphIdFacts.
Context {baldr : Baldr}.

Lemma Is_Valid_invalid : Is_Valid kInvalidGraphId = false.
Proof. unfold Is_Valid. rewrite bool_decide_eq_true_2; reflexivity. Qed.


(** C6.  The final id of a stop: for a source id (tile, level, idx) whose
    tile base is a key of [tile_node_counts], [GetGraphId] returns
    (tile, level, idx + tile_node_counts[tile base]); for any other source
    id it returns the invalid graph id. *)
Theorem GetGraphId_final_id (tile lvl idx : nat) (counts : gmap GraphId nat) :
  (forall count : nat,
      counts !! Tile_Base (mkGraphId tile lvl idx) = Some count ->
      GetGraphId (mkGraphId tile lvl idx) counts
      = mkGraphId tile lvl (idx + count)) /\
  (counts !! Tile_Base (mkGraphId tile lvl idx) = None ->
   GetGraphId (mkGraphId tile lvl idx) counts = kInvalidGraphId).
Proof.
  unfold GetGraphId; split.
  - intros count Hsome. rewrite Hsome. reflexivity.
  - intros Hnone. rewrite Hnone. reflexivity.
Qed.

End GraphIdFacts.

Lemma GetGraphId_final_id_witness :
  GetGraphId (baldr := Scenario.baldr) (mkGraphId 3 2 5)
    {[ mkGraphId 3 2 0 := 10 ]} = mkGraphId 3 2 15 /\
  GetGraphId (baldr := Scenario.baldr) (mkGraphId 3 2 5)
    {[ mkGraphId 4 2 0 := 10 ]} = mkGraphId 4095 7 4095.
Proof.
  split.
  - apply (proj1 (GetGraphId_final_id (baldr := Scenario.baldr) 3 2 5
                    {[ mkGraphId 3 2 0 := 10 ]}) 10).
    vm_compute. reflexivity.
  - apply (proj2 (GetGraphId_final_id (baldr := Scenario.baldr) 3 2 5
                    {[ mkGraphId 4 2 0 := 10 ]})).
    vm_compute. reflexivity.
Defined.

(** ** [ProcessStopPairs] *)

Section ProcessStopPairsFacts.
Context {calendar : DateTime.Ops}.

Lemma stop_pair_loop_departures tile_date sps st :
  departures (fold_left (stop_pair_step tile_date) sps st)
  = departures st ++
    List.map (fun sp => (Transit_StopPair.origin_graphid sp,
                         departure_of tile_date sp))
      (kept tile_date sps).
Proof.
  revert st; induction sps as [|sp sps IH]; intros st; simpl.
  - rewrite app_nil_r. reflexivity.
  - rewrite IH. unfold stop_pair_step.
    destruct (initial_days tile_date sp =? 0)%Z; simpl.
    + reflexivity.
    + rewrite <- app_assoc. reflexivity.
Qed.

Lemma ProcessStopPairs_departures transit tile_date sa tile_id :
  departures (ProcessStopPairs transit tile_date sa tile_id)
  = List.map (fun sp => (Transit_StopPair.origin_graphid sp,
                         departure_of tile_date sp))
      (kept tile_date (Transit.stop_pairs transit)).
Proof.
  unfold ProcessStopPairs.
  destruct (Transit.stop_pairs transit) as [|sp sps] eqn:Hsps.
  - reflexivity.
  - cbn [departures]. rewrite stop_pair_loop_departures. reflexivity.
Qed.

(** C2, as the code has it.  The departures returned by [ProcessStopPairs]
    are, in order, those of the stop pairs whose initial days bitmap (the
    value of [get_service_days] on the date range and the day-of-week mask)
    is not zero; a stop pair whose initial bitmap is zero leaves no
    departure.  The bitmap stored on a departure is the initial one with the
    exception dates removed and the added dates put in; nothing is tested
    after these changes. *)
Theorem ProcessStopPairs_initial_days_nonzero
  (transit : Transit.t) (tile_date : Z) (sa : gmap GraphId bool)
  (tile_id : GraphId) :
  departures (ProcessStopPairs transit tile_date sa tile_id)
  = List.map (fun sp => (Transit_StopPair.origin_graphid sp,
                         departure_of tile_date sp))
      (kept tile_date (Transit.stop_pairs transit)) /\
  (forall kd,
      In kd (departures (ProcessStopPairs transit tile_date sa tile_id)) ->
      exists sp,
        In sp (Transit.stop_pairs transit) /\
        initial_days tile_date sp <> 0%Z /\
        kd = (Transit_StopPair.origin_graphid sp, departure_of tile_date sp) /\
        Departure.days (snd kd) = final_days tile_date sp) /\
  (forall sp,
      In sp (Transit.stop_pairs transit) ->
      initial_days tile_date sp = 0%Z ->
      ~ In sp (kept tile_date (Transit.stop_pairs transit))).
Proof.
  split; [apply ProcessStopPairs_departures|]. split.
  - intros kd Hin. rewrite ProcessStopPairs_departures in Hin.
    apply in_map_iff in Hin. destruct Hin as (sp & Hkd & Hsp).
    unfold kept in Hsp. apply filter_In in Hsp. destruct Hsp as [Hsp Hnz].
    exists sp. repeat split; auto.
    + intros Hz. rewrite Hz in Hnz. discriminate.
    + subst kd. reflexivity.
  - intros sp _ Hz Hin. unfold kept in Hin. apply filter_In in Hin.
    destruct Hin as [_ Hnz]. rewrite Hz in Hnz. discriminate.
Qed.

(** C8, as the code has it.  On a tile with no stop pair and at least one
    stop, [ProcessStopPairs] returns no departure, leaves the access flags
    as they were, and writes one line to the log, at the level of errors:
    "Tile <tile id> has 0 schedule stop pairs but has <N> stops", where N is
    the number of stops.  The function returns normally. *)
Theorem ProcessStopPairs_no_stop_pairs
  (transit : Transit.t) (tile_date : Z) (sa : gmap GraphId bool)
  (tile_id : GraphId) :
  Transit.stop_pairs transit = [] ->
  0 < List.length (Transit.stops transit) ->
  departures (ProcessStopPairs transit tile_date sa tile_id) = [] /\
  stop_access (ProcessStopPairs transit tile_date sa tile_id) = sa /\
  log (ProcessStopPairs transit tile_date sa tile_id)
  = [(ERROR,
      Text ("Tile " +:+ to_string (tileid tile_id) +:+
            " has 0 schedule stop pairs but has " +:+
            to_string (List.length (Transit.stops transit)) +:+ " stops"))].
Proof.
  intros Hnone Hstops. unfold ProcessStopPairs. rewrite Hnone. cbn.
  destruct (List.length (Transit.stops transit)) as [|n] eqn:Hn; [lia|].
  repeat split.
Qed.

End ProcessStopPairsFacts.

(** The initial bitmap of the stop pair of [ScenarioTransit.cancelled] has
    the bit of its one day of service, and the exception date clears it. *)
Example cancelled_initial_days :
  initial_days (calendar := Scenario.calendar) 0
    (ScenarioTransit.pair_on_pivot [Scenario.pivot] []) = 1%Z /\
  final_days (calendar := Scenario.calendar) 0
    (ScenarioTransit.pair_on_pivot [Scenario.pivot] []) = 0%Z.
Proof. split; vm_compute; reflexivity. Qed.

(** The line of a rejected feed: the literal from the position of the end
    date on, for an end date up to 25 days after the pivot date, and no text
    for a later one. *)
Example feed_rejected_texts :
  feed_rejected (calendar := Scenario.calendar) (Scenario.pivot + 5)%Z
  = (WARN, Text "rejected!  End date:") /\
  feed_rejected (calendar := Scenario.calendar) (Scenario.pivot + 25)%Z
  = (WARN, Text "") /\
  feed_rejected (calendar := Scenario.calendar) (Scenario.pivot + 26)%Z
  = (WARN, OutsideLiteral) /\
  feed_rejected (calendar := Scenario.calendar) (Scenario.pivot + 400)%Z
  = (WARN, OutsideLiteral).
Proof. repeat split; vm_compute; reflexivity. Qed.

(** C2, as stated, fails: the departure of a stop pair whose only day of
    service is an exception date is stored with a days bitmap of zero. *)
Lemma ProcessStopPairs_stores_zero_days :
  ~ (forall kd,
        In kd (departures
                 (ProcessStopPairs (calendar := Scenario.calendar)
                    ScenarioTransit.cancelled 0 ∅ ScenarioTransit.tile)) ->
        Departure.days (snd kd) <> 0%Z).
Proof.
  intros Hall.
  eapply Hall.
  - left. reflexivity.
  - vm_compute. reflexivity.
Qed.

(** C8, as stated, fails on the level of the line: the log of a tile with
    stops and no stop pairs holds no warning. *)
Lemma ProcessStopPairs_no_warning :
  ~ (exists msg,
        In (WARN, msg)
           (log (ProcessStopPairs (calendar := Scenario.calendar)
                   ScenarioTransit.stops_only 0 ∅ ScenarioTransit.tile))).
Proof.
  intros (msg & [Heq | []]). discriminate Heq.
Qed.

Lemma ProcessStopPairs_no_stop_pairs_witness :
  departures (ProcessStopPairs (calendar := Scenario.calendar)
                ScenarioTransit.stops_only 0 ∅ ScenarioTransit.tile) = [] /\
  stop_access (ProcessStopPairs (calendar := Scenario.calendar)
                 ScenarioTransit.stops_only 0 ∅ ScenarioTransit.tile) = ∅ /\
  log (ProcessStopPairs (calendar := Scenario.calendar)
         ScenarioTransit.stops_only 0 ∅ ScenarioTransit.tile)
  = [(ERROR, Text "Tile 0 has 0 schedule stop pairs but has 2 stops")].
Proof.
  apply (ProcessStopPairs_no_stop_pairs (calendar := Scenario.calendar)
           ScenarioTransit.stops_only 0 ∅ ScenarioTransit.tile).
  - reflexivity.
  - simpl. lia.
Defined.

(** ** [build]: the loop over the stops *)

Section SetFacts.
Context {K : Type} `{Countable K}.

Lemma gset_add_old (X : gset K) (k : K) : k ∈ X -> X ∪ {[k]} = X.
Proof. set_solver. Qed.

Lemma gset_add_comm (X : gset K) (k : K) : {[k]} ∪ X = X ∪ {[k]}.
Proof. set_solver. Qed.

Lemma gset_add_new_size (X : gset K) (k : K) :
  k ∉ X -> size (X ∪ {[k]}) = S (size X).
Proof.
  intros Hk. rewrite size_union by set_solver. rewrite size_singleton. lia.
Qed.

End SetFacts.

Section BuildFacts.
Context {baldr : Baldr} {builder : GraphTileBuilder.Ops}.
Context {stl : unordered_multimap.Ops}.
Import GraphTileBuilder.

Lemma consecutive_nil a : consecutive a [].
Proof. reflexivity. Qed.

Lemma consecutive_snoc a l :
  consecutive a l -> consecutive a (l ++ [(a + Z.of_nat (List.length l))%Z]).
Proof.
  unfold consecutive. intros Hl.
  rewrite length_app. simpl. rewrite Nat.add_1_r, seq_S, fmap_app. simpl.
  rewrite <- Hl. reflexivity.
Qed.

Lemma consecutive_bounds a l x :
  consecutive a l -> x ∈ l -> (a <= x < a + Z.of_nat (List.length l))%Z.
Proof.
  unfold consecutive. intros Hl Hx. rewrite Hl in Hx.
  apply list_elem_of_fmap in Hx. destruct Hx as (i & -> & Hi).
  apply elem_of_seq in Hi. lia.
Qed.

Lemma consecutive_NoDup a l : consecutive a l -> NoDup l.
Proof.
  unfold consecutive. intros ->. apply NoDup_fmap_2; [|apply NoDup_seq].
  intros i j Hij. lia.
Qed.

Lemma distinct_pairs_snoc done dep :
  distinct_pairs (done ++ [dep]) = distinct_pairs done ∪ {[dep_key dep]}.
Proof.
  unfold distinct_pairs. rewrite fmap_app. simpl.
  rewrite list_to_set_app_L. simpl. rewrite union_empty_r_L. reflexivity.
Qed.

Lemma departure_step_inv uid0 done st dep :
  (0 <= uid0)%Z ->
  (uid0 + Z.of_nat (S (List.length done)) < 2 ^ 32)%Z ->
  dep_inv uid0 done st ->
  dep_inv uid0 (done ++ [dep]) (departure_step st dep).
Proof.
  intros Huid Hbound [Hdom Hkeys Hcount Hids Hnext Hle].
  unfold departure_step.
  destruct (AddName (Departure.headsign dep) (tables (tilebuilder st)))
    as [headsign_offset tables'].
  fold (dep_key dep).
  destruct (unique_transit_edges st !! dep_key dep) as [l|] eqn:Hm.
  - assert (Hin : dep_key dep ∈ distinct_pairs done).
    { rewrite <- Hdom. apply elem_of_dom. eauto. }
    assert (Hsame : distinct_pairs (done ++ [dep]) = distinct_pairs done).
    { rewrite distinct_pairs_snoc. apply gset_add_old, Hin. }
    constructor; cbn; rewrite ?Hsame; auto.
    rewrite length_app. lia.
  - assert (Hnotin : dep_key dep ∉ distinct_pairs done).
    { rewrite <- Hdom. apply not_elem_of_dom. exact Hm. }
    constructor; cbn.
    + rewrite dom_insert_L, Hdom, distinct_pairs_snoc. apply gset_add_comm.
    + rewrite fmap_app, list_to_set_app_L, Hkeys, distinct_pairs_snoc.
      simpl. rewrite union_empty_r_L. reflexivity.
    + rewrite length_app, distinct_pairs_snoc, gset_add_new_size by exact Hnotin.
      simpl. lia.
    + rewrite fmap_app. simpl. rewrite Hnext.
      rewrite <- (length_fmap TransitLine.lineid (lines st)).
      apply consecutive_snoc. exact Hids.
    + rewrite length_app. simpl. unfold wrap32.
      rewrite Z.mod_small; lia.
    + rewrite !length_app. simpl. lia.
Qed.

Lemma departure_loop_inv uid0 ds : forall done st,
  (0 <= uid0)%Z ->
  (uid0 + Z.of_nat (List.length done + List.length ds) < 2 ^ 32)%Z ->
  dep_inv uid0 done st ->
  dep_inv uid0 (done ++ ds) (fold_left departure_step ds st).
Proof.
  induction ds as [|dep ds IH]; intros done st Huid Hbound Hinv; simpl.
  - rewrite app_nil_r. exact Hinv.
  - replace (done ++ dep :: ds) with ((done ++ [dep]) ++ ds)
      by (rewrite <- app_assoc; reflexivity).
    simpl in Hbound. apply IH; [exact Huid| |].
    + rewrite length_app. simpl. lia.
    + apply departure_step_inv; [exact Huid|lia|exact Hinv].
Qed.

Lemma dep_inv_start uid0 tb rk tk :
  dep_inv uid0 [] (mkDepState uid0 ∅ [] tb rk tk).
Proof.
  constructor; cbn [unique_transit_edges lines unique_lineid].
  - apply dom_empty_L.
  - reflexivity.
  - reflexivity.
  - reflexivity.
  - simpl. lia.
  - reflexivity.
Qed.

Lemma departure_step_departures st dep :
  exists l off,
    transit_departures (tilebuilder (departure_step st dep))
    = transit_departures (tilebuilder st) ++ [form_departure l dep off].
Proof.
  unfold departure_step.
  destruct (AddName (Departure.headsign dep) (tables (tilebuilder st)))
    as [headsign_offset tables'].
  cbn. eauto.
Qed.

(** The transit departures added by the loop over the departures of a
    stop: one for each departure, in order. *)
Lemma departure_loop_departures ds : forall st,
  exists tds,
    transit_departures (tilebuilder (fold_left departure_step ds st))
    = transit_departures (tilebuilder st) ++ tds /\
    Forall2 (fun td dep => exists l off, td = form_departure l dep off) tds ds.
Proof.
  induction ds as [|dep ds IH]; intros st; simpl.
  - exists []. rewrite app_nil_r. split; [reflexivity|constructor].
  - destruct (IH (departure_step st dep)) as (tds & Heq & Hall).
    destruct (departure_step_departures st dep) as (l & off & Hstep).
    rewrite Hstep, <- app_assoc in Heq. simpl in Heq.
    eexists. split; [exact Heq|].
    constructor; [eauto|exact Hall].
Qed.

(** [map_insert] leaves the map as it is or adds the entry to it. *)
Lemma map_insert_Permutation {V : Type} (k : GraphId) (v : V) m :
  map_insert k v m ≡ₚ m \/ map_insert k v m ≡ₚ (k, v) :: m.
Proof.
  induction m as [|[k' v'] m IH]; simpl.
  - right. reflexivity.
  - destruct (GraphId_less k k'); [right; reflexivity|].
    destruct (GraphId_less k' k); [|left; reflexivity].
    destruct IH as [IH|IH].
    + left. rewrite IH. reflexivity.
    + right. rewrite IH. apply perm_swap.
Qed.

Lemma map_insert_keeps {V : Type} (k : GraphId) (v : V) m kv :
  kv ∈ m -> kv ∈ map_insert k v m.
Proof.
  intros Hin.
  destruct (map_insert_Permutation k v m) as [Hp|Hp]; rewrite Hp;
    [exact Hin|].
  apply elem_of_cons. right. exact Hin.
Qed.

Lemma map_insert_from {V : Type} (k : GraphId) (v : V) m kv :
  kv ∈ map_insert k v m -> kv = (k, v) \/ kv ∈ m.
Proof.
  intros Hin.
  destruct (map_insert_Permutation k v m) as [Hp|Hp]; rewrite Hp in Hin;
    [right; exact Hin|].
  apply elem_of_cons in Hin. exact Hin.
Qed.

(** After [insert] the map holds the key, when two keys of which neither is
    less than the other are the same key. *)
Lemma map_insert_key {V : Type} (k : GraphId) (v : V) m :
  (forall a b, GraphId_less a b = false -> GraphId_less b a = false -> a = b) ->
  exists v', (k, v') ∈ map_insert k v m.
Proof.
  intros Htotal. induction m as [|[k' v'] m IH]; simpl.
  - exists v. apply list_elem_of_here.
  - destruct (GraphId_less k k') eqn:H1; [exists v; apply list_elem_of_here|].
    destruct (GraphId_less k' k) eqn:H2.
    + destruct IH as (v'' & Hin). exists v''.
      apply list_elem_of_further. exact Hin.
    + rewrite (Htotal _ _ H1 H2). exists v'. apply list_elem_of_here.
Qed.

(** The distinct pairs of the departures of a stop do not depend on the
    order in which [equal_range] gives the departures. *)
Lemma distinct_pairs_equal_range (deps : list (GraphId * Departure.t)) k :
  distinct_pairs (equal_range deps k) = distinct_pairs (emplaced deps k).
Proof.
  unfold distinct_pairs, equal_range.
  apply list_to_set_perm_L, fmap_Permutation.
  apply unordered_multimap.range_order_perm.
Qed.

Lemma line_ids_cons kse m :
  line_ids (kse :: m)
  = (TransitLine.lineid <$> StopEdges.lines (snd kse)) ++ line_ids m.
Proof. reflexivity. Qed.

Lemma line_ids_Permutation m m' : m ≡ₚ m' -> line_ids m ≡ₚ line_ids m'.
Proof.
  induction 1 as [|x l l' _ IH|x y l|l l' l'' _ IH1 _ IH2].
  - reflexivity.
  - rewrite !line_ids_cons, IH. reflexivity.
  - rewrite !line_ids_cons, !app_assoc.
    apply Permutation_app_tail, Permutation_app_comm.
  - etransitivity; eassumption.
Qed.

Lemma stop_step_inv deps n st stop :
  (1 + Z.of_nat
         (n + List.length (equal_range deps (Transit_Stop.graphid stop)))
   < 2 ^ 32)%Z ->
  build_inv deps n st ->
  build_inv deps
    (n + List.length (equal_range deps (Transit_Stop.graphid stop)))
    (stop_step deps st stop).
Proof.
  intros Hbound [Hnext Hentries Hids Hnodup].
  set (ds := equal_range deps (Transit_Stop.graphid stop)) in *.
  pose proof (departure_loop_inv (b_unique_lineid st) ds []
                (mkDepState (b_unique_lineid st) ∅ [] (b_tilebuilder st)
                   (b_route_keys st) (b_trip_keys st))) as Hloop.
  simpl in Hloop.
  destruct Hloop as [_ Hkeys Hcount Hcons Hnew Hle];
    [lia|lia|apply dep_inv_start|].
  unfold stop_step. fold ds.
  set (final := fold_left departure_step ds _) in *.
  set (se0 := StopEdges.mk _ _ _).
  assert (Hse0 : TransitLine.lineid <$> StopEdges.lines se0
                 = TransitLine.lineid <$> lines final) by reflexivity.
  assert (Hlen : List.length (TransitLine.lineid <$> lines final)
                 = List.length (lines final)) by apply length_fmap.
  constructor; cbn [b_unique_lineid b_stop_edge_map].
  - lia.
  - intros k se Hin.
    destruct (map_insert_Permutation (Transit_Stop.graphid stop) se0
                (b_stop_edge_map st)) as [Hp|Hp]; rewrite Hp in Hin.
    + apply Hentries, Hin.
    + apply elem_of_cons in Hin. destruct Hin as [Heq|Hin].
      * inversion Heq; subst k se. cbn. auto.
      * apply Hentries, Hin.
  - intros x Hx.
    destruct (map_insert_Permutation (Transit_Stop.graphid stop) se0
                (b_stop_edge_map st)) as [Hp|Hp];
      apply line_ids_Permutation in Hp; rewrite Hp in Hx.
    + apply Hids in Hx. lia.
    + rewrite line_ids_cons in Hx. apply elem_of_app in Hx.
      destruct Hx as [Hx|Hx].
      * cbn [snd] in Hx. rewrite Hse0 in Hx.
        apply (consecutive_bounds _ _ _ Hcons) in Hx. lia.
      * apply Hids in Hx. lia.
  - destruct (map_insert_Permutation (Transit_Stop.graphid stop) se0
                (b_stop_edge_map st)) as [Hp|Hp];
      apply line_ids_Permutation in Hp; rewrite Hp.
    + exact Hnodup.
    + rewrite line_ids_cons. cbn [snd]. rewrite Hse0.
      apply NoDup_app. split; [|split].
      * apply (consecutive_NoDup _ _ Hcons).
      * intros x Hx Hx'. apply (consecutive_bounds _ _ _ Hcons) in Hx.
        apply Hids in Hx'. lia.
      * exact Hnodup.
Qed.

Lemma stop_loop_inv deps stops : forall n st,
  (1 + Z.of_nat
         (n + List.length
                (concat ((fun stop =>
                            equal_range deps (Transit_Stop.graphid stop))
                           <$> stops)))
   < 2 ^ 32)%Z ->
  build_inv deps n st ->
  build_inv deps
    (n + List.length
           (concat ((fun stop => equal_range deps (Transit_Stop.graphid stop))
                      <$> stops)))
    (fold_left (stop_step deps) stops st).
Proof.
  induction stops as [|stop stops IH]; intros n st Hbound Hinv; simpl.
  - rewrite Nat.add_0_r. exact Hinv.
  - simpl in Hbound. rewrite length_app in Hbound |- *.
    rewrite Nat.add_assoc. apply IH.
    + rewrite <- Nat.add_assoc. exact Hbound.
    + apply stop_step_inv; [lia|exact Hinv].
Qed.

(** The loop over the stops keeps the entries of the stop edge map, gives
    every stop an entry under its graph id, and makes no entry under another
    key. *)
Lemma stop_loop_covers deps stops : forall st,
  (forall a b, GraphId_less a b = false -> GraphId_less b a = false -> a = b) ->
  (forall kv,
      kv ∈ b_stop_edge_map st ->
      kv ∈ b_stop_edge_map (fold_left (stop_step deps) stops st)) /\
  (forall stop,
      stop ∈ stops ->
      exists se,
        (Transit_Stop.graphid stop, se)
        ∈ b_stop_edge_map (fold_left (stop_step deps) stops st)) /\
  (forall kv,
      kv ∈ b_stop_edge_map (fold_left (stop_step deps) stops st) ->
      kv ∈ b_stop_edge_map st \/
      exists stop, stop ∈ stops /\ Transit_Stop.graphid stop = fst kv).
Proof.
  induction stops as [|stop stops IH]; intros st Htotal; simpl.
  - split; [auto|]. split; [|auto].
    intros stop Hin. apply elem_of_nil in Hin. destruct Hin.
  - destruct (IH (stop_step deps st stop) Htotal) as (Hkeep & Hcover & Hfrom).
    split; [|split].
    + intros kv Hin. apply Hkeep. cbn [stop_step b_stop_edge_map].
      apply map_insert_keeps, Hin.
    + intros stop' Hin. apply elem_of_cons in Hin.
      destruct Hin as [->|Hin]; [|apply Hcover, Hin].
      destruct (map_insert_key (Transit_Stop.graphid stop)
                  (StopEdges.mk (Transit_Stop.graphid stop) []
                     (lines (fold_left departure_step
                               (equal_range deps (Transit_Stop.graphid stop))
                               (mkDepState (b_unique_lineid st) ∅ []
                                  (b_tilebuilder st) (b_route_keys st)
                                  (b_trip_keys st)))))
                  (b_stop_edge_map st) Htotal) as (se & Hse).
      exists se. apply Hkeep. exact Hse.
    + intros kv Hin. apply Hfrom in Hin.
      destruct Hin as [Hin|(stop' & Hin & Hk)].
      * cbn [stop_step b_stop_edge_map] in Hin. apply map_insert_from in Hin.
        destruct Hin as [->|Hin]; [|left; exact Hin].
        right. exists stop. split; [apply list_elem_of_here|reflexivity].
      * right. exists stop'. split; [|exact Hk].
        apply list_elem_of_further. exact Hin.
Qed.

Lemma build_inv_start deps tb :
  build_inv deps 0 (mkBuildState 1 tb ∅ ∅ []).
Proof.
  constructor; cbn.
  - lia.
  - intros k se Hin. apply elem_of_nil in Hin. destruct Hin.
  - intros x Hin. apply elem_of_nil in Hin. destruct Hin.
  - constructor.
Qed.

Lemma form_departures_inv transit deps tb :
  (Z.of_nat (List.length (stop_departures transit deps)) < 2 ^ 32 - 1)%Z ->
  build_inv deps (List.length (stop_departures transit deps))
    (form_departures transit deps tb).
Proof.
  intros Hbound. unfold form_departures.
  apply (stop_loop_inv deps (Transit.stops transit) 0).
  - unfold stop_departures in Hbound. simpl. lia.
  - apply build_inv_start.
Qed.

Lemma stop_step_departures deps st stop :
  exists tds,
    transit_departures (b_tilebuilder (stop_step deps st stop))
    = transit_departures (b_tilebuilder st) ++ tds /\
    Forall2 (fun td dep => exists l off, td = form_departure l dep off) tds
      (equal_range deps (Transit_Stop.graphid stop)).
Proof.
  unfold stop_step. cbn [b_tilebuilder].
  apply (departure_loop_departures
           (equal_range deps (Transit_Stop.graphid stop))
           (mkDepState (b_unique_lineid st) ∅ [] (b_tilebuilder st)
              (b_route_keys st) (b_trip_keys st))).
Qed.

Lemma stop_loop_departures deps stops : forall st,
  exists tds,
    transit_departures (b_tilebuilder (fold_left (stop_step deps) stops st))
    = transit_departures (b_tilebuilder st) ++ tds /\
    Forall2 (fun td dep => exists l off, td = form_departure l dep off) tds
      (concat ((fun stop => equal_range deps (Transit_Stop.graphid stop))
                 <$> stops)).
Proof.
  induction stops as [|stop stops IH]; intros st; simpl.
  - exists []. rewrite app_nil_r. split; [reflexivity|constructor].
  - destruct (IH (stop_step deps st stop)) as (tds2 & Heq2 & Hall2).
    destruct (stop_step_departures deps st stop) as (tds1 & Heq1 & Hall1).
    exists (tds1 ++ tds2). split.
    + rewrite Heq2, Heq1, <- app_assoc. reflexivity.
    + apply Forall2_app; assumption.
Qed.

(** The elapsed time of a formed departure. *)
Lemma form_departure_elapsed l dep off :
  uint32 (Departure.dep_time dep) ->
  uint32 (Departure.arr_time dep) ->
  TransitDeparture.departure_time (form_departure l dep off)
  = Departure.dep_time dep /\
  TransitDeparture.elapsed_time (form_departure l dep off)
  = ((Departure.arr_time dep - Departure.dep_time dep) mod 2 ^ 32)%Z /\
  ((Departure.dep_time dep <= Departure.arr_time dep)%Z ->
   TransitDeparture.elapsed_time (form_departure l dep off)
   = (Departure.arr_time dep - Departure.dep_time dep)%Z) /\
  ((Departure.arr_time dep < Departure.dep_time dep)%Z ->
   TransitDeparture.elapsed_time (form_departure l dep off)
   = (Departure.arr_time dep - Departure.dep_time dep + 2 ^ 32)%Z).
Proof.
  unfold uint32. intros Hd Ha. cbn. unfold wrap32.
  split; [reflexivity|]. split; [reflexivity|]. split; intros Hcmp.
  - apply Z.mod_small. lia.
  - rewrite <- (Z.mod_small
                  (Departure.arr_time dep - Departure.dep_time dep + 2 ^ 32)
                  (2 ^ 32)) by lia.
    rewrite <- (Z_mod_plus_full _ 1 (2 ^ 32)). f_equal; lia.
Qed.

(** C10.  The loop of [build] adds one transit departure for each
    departure that it goes through, in order; with times that are 32-bit
    words, the elapsed time stored is arrival minus departure modulo 2^32:
    the difference itself when the arrival is not before the departure, and
    the difference plus 2^32 when it is. *)
Theorem elapsed_time_mod_2_32 (transit : Transit.t)
  (deps : list (GraphId * Departure.t)) (tb : GraphTileBuilder.t) :
  Forall (fun dep => uint32 (Departure.dep_time dep) /\
                     uint32 (Departure.arr_time dep))
    (stop_departures transit deps) ->
  exists tds,
    GraphTileBuilder.transit_departures
      (b_tilebuilder (form_departures transit deps tb))
    = GraphTileBuilder.transit_departures tb ++ tds /\
    Forall2 elapsed_wraps tds (stop_departures transit deps).
Proof.
  intros Hwords.
  destruct (stop_loop_departures deps (Transit.stops transit)
              (mkBuildState 1 tb ∅ ∅ [])) as (tds & Heq & Hall).
  exists tds. split; [exact Heq|].
  fold (stop_departures transit deps) in Hall.
  clear Heq. revert Hwords.
  induction Hall as [|td dep tds ds Hform _ IH]; intros Hwords.
  - constructor.
  - destruct Hform as (l & off & ->).
    apply Forall_cons in Hwords. destruct Hwords as [[Hd Ha] Hrest].
    constructor; [|apply IH, Hrest].
    apply form_departure_elapsed; assumption.
Qed.

End BuildFacts.

Lemma elapsed_time_mod_2_32_witness :
  exists tds,
    GraphTileBuilder.transit_departures
      (b_tilebuilder
         (form_departures (baldr := Scenario.baldr) (stl := Scenario.stl)
            ScenarioBuild.transit
            ScenarioBuild.departures ScenarioBuild.tilebuilder))
    = [] ++ tds /\
    Forall2 elapsed_wraps tds
      (stop_departures (stl := Scenario.stl) ScenarioBuild.transit
         ScenarioBuild.departures).
Proof.
  apply (elapsed_time_mod_2_32 (baldr := Scenario.baldr)
           (stl := Scenario.stl)
           ScenarioBuild.transit ScenarioBuild.departures
           ScenarioBuild.tilebuilder).
  repeat constructor; vm_compute; intuition discriminate.
Defined.

(** The departure that leaves at 86000 and arrives at 300 is stored with
    the elapsed time 300 - 86000 + 2^32.  The transit departures of the stop
    come in the order of [equal_range]: the departure emplaced last is the
    first. *)
Example elapsed_time_wrapped :
  TransitDeparture.elapsed_time <$>
    GraphTileBuilder.transit_departures
      (b_tilebuilder
         (form_departures (baldr := Scenario.baldr) (stl := Scenario.stl)
            ScenarioBuild.transit
            ScenarioBuild.departures ScenarioBuild.tilebuilder))
  = [600; 4294881596; 300]%Z.
Proof. vm_compute. reflexivity. Qed.

(** ** [AddToGraph] *)

(** ** Loops in the result monad *)

Lemma foldM_app {A S : Type} (f : A -> S -> res S) (l1 l2 : list A) (s : S) :
  foldM f (l1 ++ l2) s = Res.bind (foldM f l1 s) (foldM f l2).
Proof.
  revert s; induction l1 as [|a l1 IH]; intros s; simpl; [reflexivity|].
  destruct (f a s); simpl; auto.
Qed.

Lemma foldM_snoc {A S : Type} (f : A -> S -> res S) (l : list A) (a : A)
  (s : S) :
  foldM f (l ++ [a]) s = Res.bind (foldM f l s) (f a).
Proof.
  rewrite foldM_app. destruct (foldM f l s); simpl; [|reflexivity..].
  destruct (f a a0); reflexivity.
Qed.

Lemma bind_Ok {A B : Type} (m : res A) (k : A -> res B) (b : B) :
  Res.bind m k = Ok b -> exists a, m = Ok a /\ k a = Ok b.
Proof. destruct m; simpl; intros Hk; try discriminate. eauto. Qed.

Lemma of_option_Ok {A : Type} (o : option A) (a : A) :
  of_option o = Ok a -> o = Some a.
Proof. destruct o; simpl; intros Heq; inversion Heq; reflexivity. Qed.

(** ** The layout of the edges *)

Lemma laid_out_snoc nodes nb : forall start total,
  laid_out start nodes total ->
  NodeInfo.edge_index nb = total ->
  laid_out start (nodes ++ [nb]) (total + NodeInfo.edge_count nb).
Proof.
  induction nodes as [|n nodes IH]; intros start total Hlaid Hidx; simpl in *.
  - subst start. split; [exact Hidx|reflexivity].
  - destruct Hlaid as [Hn Hrest]. split; [exact Hn|]. apply IH; assumption.
Qed.

Lemma laid_out_le nodes : forall start total,
  laid_out start nodes total -> start <= total.
Proof.
  induction nodes as [|n nodes IH]; intros start total Hlaid; simpl in *.
  - lia.
  - destruct Hlaid as [_ Hrest]. apply IH in Hrest. lia.
Qed.

Lemma laid_out_lookup nodes : forall start total k nb,
  laid_out start nodes total ->
  nodes !! k = Some nb ->
  start <= NodeInfo.edge_index nb /\
  NodeInfo.edge_index nb + NodeInfo.edge_count nb <= total.
Proof.
  induction nodes as [|n nodes IH]; intros start total k nb Hlaid Hk;
    simpl in *; [discriminate|].
  destruct Hlaid as [Hn Hrest]. destruct k as [|k]; simpl in Hk.
  - inversion Hk; subst n. apply laid_out_le in Hrest. lia.
  - destruct (IH _ _ _ _ Hrest Hk). lia.
Qed.

Lemma laid_out_sum nodes : forall start total,
  laid_out start nodes total ->
  start + sum_list (NodeInfo.edge_count <$> nodes) = total.
Proof.
  induction nodes as [|n nodes IH]; intros start total Hlaid.
  - simpl in *. lia.
  - destruct Hlaid as [_ Hrest]. apply IH in Hrest.
    change (sum_list (NodeInfo.edge_count <$> n :: nodes))
      with (NodeInfo.edge_count n + sum_list (NodeInfo.edge_count <$> nodes)).
    lia.
Qed.

Lemma edges_of_app edges more nb :
  NodeInfo.edge_index nb + NodeInfo.edge_count nb <= List.length edges ->
  edges_of (edges ++ more) nb = edges_of edges nb.
Proof.
  intros Hin. unfold edges_of.
  rewrite drop_app_le by lia. rewrite take_app_le; [reflexivity|].
  rewrite length_drop. lia.
Qed.

Lemma edges_of_last edges block nb :
  NodeInfo.edge_index nb = List.length edges ->
  NodeInfo.edge_count nb = List.length block ->
  edges_of (edges ++ block) nb = block.
Proof.
  intros Hidx Hcount. unfold edges_of.
  rewrite Hidx, Hcount, drop_app_length. apply firstn_all.
Qed.

Lemma inserted_snoc old new o n :
  List.length old = List.length new ->
  inserted (old ++ [o]) (new ++ [n])
  = inserted old new + (NodeInfo.edge_count n - NodeInfo.edge_count o).
Proof.
  revert new; induction old as [|o' old IH]; intros [|n' new] Hlen;
    simpl in *; try discriminate.
  - lia.
  - rewrite IH by lia. lia.
Qed.

Section RoadFacts.
Context {baldr : Baldr} {builder : GraphTileBuilder.Ops}.
Variable fuel : nat.
Variable counts : gmap GraphId nat.
Variable conns : list OSMConnectionEdge.t.

Lemma connection_edge_to endnode conn localidx offset added :
  endnode = GetGraphId (OSMConnectionEdge.stop_node conn) counts ->
  connection_to counts conn
    (connection_edge endnode (OSMConnectionEdge.length conn) localidx offset
       added).
Proof. intros ->. repeat split. Qed.

(** What the loop over the connections of a node does when it ends: it
    takes the next connections of the list, all at this node, and adds their
    edges. *)
Lemma connection_loop_spec n edge_index : forall st st',
  connection_loop counts conns n edge_index st = Ok st' ->
  exists es,
    rs_directededges st' = rs_directededges st ++ es /\
    rs_added_edges st' = rs_added_edges st + List.length es /\
    Forall2 (connection_to counts)
      (take (List.length es) (drop (rs_added_edges st) conns)) es /\
    Forall (fun c => id (OSMConnectionEdge.osm_node c) = rs_nodeid st)
      (take (List.length es) (drop (rs_added_edges st) conns)) /\
    rs_nodes st' = rs_nodes st /\
    rs_sign st' = rs_sign st /\
    rs_res st' = rs_res st /\
    rs_nodeid st' = rs_nodeid st.
Proof.
  induction n as [|n IH]; intros st st' Hrun; simpl in Hrun; [discriminate|].
  destruct (conns !! rs_added_edges st) as [conn|] eqn:Hconn.
  2:{ inversion Hrun; subst st'. exists []. simpl.
      rewrite app_nil_r, Nat.add_0_r. repeat split; constructor. }
  destruct (id (OSMConnectionEdge.osm_node conn) =? rs_nodeid st) eqn:Hid.
  2:{ inversion Hrun; subst st'. exists []. simpl.
      rewrite app_nil_r, Nat.add_0_r. repeat split; constructor. }
  apply Nat.eqb_eq in Hid.
  destruct (Is_Valid (GetGraphId (OSMConnectionEdge.stop_node conn) counts))
    eqn:Hvalid; simpl in Hrun.
  2:{ apply IH, Hrun. }
  destruct (GraphTileBuilder.AddEdgeInfo 0 (OSMConnectionEdge.osm_node conn)
              (GetGraphId (OSMConnectionEdge.stop_node conn) counts)
              (OSMConnectionEdge.shape conn) (rs_tables st))
    as [[offset added] tables'].
  apply IH in Hrun. cbn in Hrun.
  destruct Hrun as (es & Hedges & Hadded & Hall & Hat & Hnodes & Hs & Hr & Hn).
  eexists (_ :: es). simpl.
  rewrite (drop_S _ _ _ Hconn). simpl.
  rewrite Nat.add_1_r in Hadded, Hall, Hat.
  repeat split; try assumption.
  - rewrite Hedges, <- app_assoc. reflexivity.
  - lia.
  - constructor; [|exact Hall]. apply connection_edge_to. reflexivity.
  - constructor; [exact Hid|exact Hat].
Qed.

Lemma copy_loop_spec currentedges sign0 res0 idxs : forall st st',
  foldM (copy_edge fuel currentedges sign0 res0) idxs st = Ok st' ->
  exists old,
    rs_directededges st' = rs_directededges st ++ old /\
    Forall2 (fun idx e => currentedges !! idx = Some e) idxs old /\
    rs_nodes st' = rs_nodes st /\
    rs_tables st' = rs_tables st /\
    rs_nodeid st' = rs_nodeid st /\
    rs_added_edges st' = rs_added_edges st.
Proof.
  induction idxs as [|idx idxs IH]; intros st st' Hrun; simpl in Hrun.
  - inversion Hrun; subst st'. exists []. rewrite app_nil_r.
    repeat split; constructor.
  - apply bind_Ok in Hrun. destruct Hrun as (st1 & Hstep & Hrest).
    unfold copy_edge in Hstep.
    apply bind_Ok in Hstep. destruct Hstep as (e & He & Hstep).
    apply of_option_Ok in He.
    apply bind_Ok in Hstep. destruct Hstep as (s & _ & Hstep).
    apply bind_Ok in Hstep. destruct Hstep as (r & _ & Hstep).
    inversion Hstep; subst st1; clear Hstep.
    apply IH in Hrest. cbn in Hrest.
    destruct Hrest as (old & Hedges & Hall & Hnodes & Htab & Hid & Hadd).
    exists (e :: old). repeat split; try assumption.
    + rewrite Hedges, <- app_assoc. reflexivity.
    + constructor; assumption.
Qed.

Lemma lookups_seq {A : Type} (l : list A) (len : nat) : forall start old,
  Forall2 (fun idx e => l !! idx = Some e) (seq start len) old ->
  old = take len (drop start l) /\ List.length old = len.
Proof.
  induction len as [|len IH]; intros start old Hall; simpl in Hall.
  - inversion Hall; subst. split; reflexivity.
  - inversion Hall as [|idx e idxs old' He Hrest]; subst.
    apply IH in Hrest. destruct Hrest as [Hold Hlen].
    rewrite (drop_S _ _ _ He). simpl. split; [f_equal; exact Hold|].
    f_equal. exact Hlen.
Qed.

(** What one turn of the loop over the nodes does: the node's edges of the
    tile as it was are put back in order, the edges of the next connections
    of the list, all at this node, follow them, and the node is added with
    the position of the first of these edges and their number. *)
Lemma road_node_spec currentedges sign0 res0 nb st st' :
  road_node fuel counts conns currentedges sign0 res0 nb st = Ok st' ->
  exists old es,
    old = take (NodeInfo.edge_count nb)
            (drop (NodeInfo.edge_index nb) currentedges) /\
    List.length old = NodeInfo.edge_count nb /\
    rs_directededges st' = rs_directededges st ++ old ++ es /\
    rs_added_edges st' = rs_added_edges st + List.length es /\
    Forall2 (connection_to counts)
      (take (List.length es) (drop (rs_added_edges st) conns)) es /\
    Forall (fun c => id (OSMConnectionEdge.osm_node c) = rs_nodeid st)
      (take (List.length es) (drop (rs_added_edges st) conns)) /\
    rs_nodes st'
    = rs_nodes st ++
      [NodeInfo.set_edge_count (List.length (old ++ es))
         (NodeInfo.set_edge_index (List.length (rs_directededges st)) nb)] /\
    rs_nodeid st' = rs_nodeid st + 1.
Proof.
  unfold road_node. intros Hrun.
  apply bind_Ok in Hrun. destruct Hrun as (st1 & Hcopy & Hrun).
  apply bind_Ok in Hrun. destruct Hrun as (st2 & Hloop & Hrun).
  inversion Hrun; subst st'; clear Hrun. cbn.
  apply copy_loop_spec in Hcopy.
  destruct Hcopy as (old & Hedges1 & Hold & Hnodes1 & _ & Hid1 & Hadd1).
  apply lookups_seq in Hold. destruct Hold as [Hold Hlen].
  apply connection_loop_spec in Hloop.
  destruct Hloop as (es & Hedges2 & Hadd2 & Hall & Hat & Hnodes2 & _ & _ & Hid2).
  rewrite Hadd1 in Hadd2, Hall, Hat. rewrite Hid1 in Hat.
  exists old, es. repeat split; try assumption.
  - rewrite Hedges2, Hedges1, <- app_assoc. reflexivity.
  - rewrite Hnodes2, Hnodes1, Hedges2, Hedges1. do 2 f_equal.
    f_equal. rewrite !length_app. lia.
  - rewrite Hid2, Hid1. reflexivity.
Qed.

Lemma rebuilt_road_node_app currentedges edges more k nb nb' :
  NodeInfo.edge_index nb' + NodeInfo.edge_count nb' <= List.length edges ->
  rebuilt_road_node counts conns currentedges edges k nb nb' ->
  rebuilt_road_node counts conns currentedges (edges ++ more) k nb nb'.
Proof.
  intros Hin (es & a & Hnb & Hedges & Hlen & Hall & Hat).
  exists es, a. rewrite edges_of_app by exact Hin. auto.
Qed.

Lemma road_inv_step currentedges sign0 res0 done nb st st' :
  road_inv counts conns currentedges done st ->
  road_node fuel counts conns currentedges sign0 res0 nb st = Ok st' ->
  road_inv counts conns currentedges (done ++ [nb]) st'.
Proof.
  intros [Hnodes Hid Hlaid Hadded Heach] Hrun.
  apply road_node_spec in Hrun.
  destruct Hrun as (old & es & Hold & Hlen & Hedges' & Hadded' & Hall & Hat
                    & Hnodes' & Hid').
  set (nb' := NodeInfo.set_edge_count _ _) in Hnodes'.
  assert (Hidx' : NodeInfo.edge_index nb' = List.length (rs_directededges st))
    by reflexivity.
  assert (Hcnt' : NodeInfo.edge_count nb' = List.length (old ++ es))
    by reflexivity.
  constructor.
  - rewrite Hnodes', !length_app, Hnodes. reflexivity.
  - rewrite Hid', Hid, length_app. reflexivity.
  - rewrite Hnodes', Hedges', length_app, <- Hcnt'.
    apply laid_out_snoc; assumption.
  - rewrite Hnodes', inserted_snoc by (symmetry; exact Hnodes).
    rewrite Hadded', Hadded, Hcnt', length_app. lia.
  - intros k nb0 Hk. apply lookup_app_Some in Hk.
    destruct Hk as [Hk|[Hge Hk]].
    + destruct (Heach _ _ Hk) as (nb0' & Hk' & Hok).
      exists nb0'. split.
      * rewrite Hnodes'. apply lookup_app_l_Some. exact Hk'.
      * rewrite Hedges'. apply rebuilt_road_node_app; [|exact Hok].
        apply (laid_out_lookup _ _ _ _ _ Hlaid Hk').
    + destruct (k - List.length done) as [|d] eqn:Hd; simpl in Hk;
        [|destruct d; discriminate].
      inversion Hk; subst nb0; clear Hk.
      assert (k = List.length done) by lia. subst k.
      exists nb'. split.
      * rewrite Hnodes', <- Hnodes. apply list_lookup_middle. reflexivity.
      * exists es, (rs_added_edges st). rewrite <- Hid.
        repeat split; try assumption.
        -- unfold nb'. rewrite length_app, Hlen. reflexivity.
        -- rewrite Hedges'. unfold edges_of at 2. rewrite <- Hold.
           apply edges_of_last; assumption.
        -- unfold edges_of. rewrite <- Hold. exact Hlen.
Qed.

Lemma road_loop_inv currentedges sign0 res0 st0 nodes : forall st,
  road_inv counts conns currentedges [] st0 ->
  foldM (road_node fuel counts conns currentedges sign0 res0) nodes st0
  = Ok st ->
  road_inv counts conns currentedges nodes st.
Proof.
  induction nodes as [|nb nodes IH] using rev_ind; intros st Hstart Hrun.
  - inversion Hrun; subst st. exact Hstart.
  - rewrite foldM_snoc in Hrun. apply bind_Ok in Hrun.
    destruct Hrun as (st1 & Hrun & Hstep).
    eapply road_inv_step; [|exact Hstep]. apply IH; assumption.
Qed.

Lemma road_inv_start currentedges (tb : GraphTileBuilder.t) :
  road_inv counts conns currentedges [] (road_start tb).
Proof.
  constructor; cbn; try reflexivity.
  intros k nb Hk. discriminate.
Qed.

End RoadFacts.

Lemma GetTransitUse_cases rt :
  GetTransitUse rt = kRail \/ GetTransitUse rt = kBus.
Proof.
  unfold GetTransitUse.
  repeat match goal with
         | |- context [match ?x with _ => _ end] => destruct x
         end; auto.
Qed.

Section StopFacts.
Context {baldr : Baldr} {builder : GraphTileBuilder.Ops} {geo : midgard.Ops}.
Variable read_pbf : GraphId -> option Transit.t.
Variable counts : gmap GraphId nat.
Variable conns : list OSMConnectionEdge.t.
Variable route_types : gmap Z Z.
Variable tileid0 : GraphId.
Variable transit : Transit.t.

Lemma connection_from_stop_spec stopid origin_node node_edge_index st conn :
  ss_nodes (connection_from_stop stopid origin_node node_edge_index st conn)
  = ss_nodes st /\
  if bool_decide (OSMConnectionEdge.stop_node conn = stopid)
  then exists e,
      ss_directededges
        (connection_from_stop stopid origin_node node_edge_index st conn)
      = ss_directededges st ++ [e] /\
      connection_from conn e
  else ss_directededges
         (connection_from_stop stopid origin_node node_edge_index st conn)
       = ss_directededges st.
Proof.
  unfold connection_from_stop.
  destruct (bool_decide (OSMConnectionEdge.stop_node conn = stopid));
    [|auto].
  destruct (GraphTileBuilder.AddEdgeInfo 0 origin_node
              (OSMConnectionEdge.osm_node conn)
              (OSMConnectionEdge.shape conn) (ss_tables st))
    as [[offset added] tables'].
  cbn. split; [reflexivity|]. eexists. split; [reflexivity|].
  repeat split.
Qed.

Lemma stop_connections_spec stopid origin_node node_edge_index cs :
  forall st,
  exists es,
    ss_directededges
      (fold_left (connection_from_stop stopid origin_node node_edge_index)
         cs st)
    = ss_directededges st ++ es /\
    Forall2 connection_from (connections_of stopid cs) es /\
    ss_nodes
      (fold_left (connection_from_stop stopid origin_node node_edge_index)
         cs st)
    = ss_nodes st.
Proof.
  induction cs as [|conn cs IH]; intros st; simpl.
  - exists []. rewrite app_nil_r. repeat split. constructor.
  - destruct (IH (connection_from_stop stopid origin_node node_edge_index
                    st conn)) as (es & Hedges & Hall & Hnodes).
    destruct (connection_from_stop_spec stopid origin_node node_edge_index
                st conn) as [Hnodes1 Hstep].
    destruct (bool_decide (OSMConnectionEdge.stop_node conn = stopid)).
    + destruct Hstep as (e & Hedges1 & He).
      exists (e :: es). repeat split.
      * rewrite Hedges, Hedges1, <- app_assoc. reflexivity.
      * constructor; assumption.
      * congruence.
    + exists es. repeat split; [|assumption|]; congruence.
Qed.

Lemma transit_line_spec stopll origin_node node_edge_index line st st' :
  transit_line read_pbf counts route_types tileid0 transit stopll
    origin_node node_edge_index line st = Ok st' ->
  ss_nodes st' = ss_nodes st /\
  if Is_Valid (GetGraphId (TransitLine.dest_pbf_graphid line) counts)
  then exists e,
      ss_directededges st' = ss_directededges st ++ [e] /\
      line_edge counts line e
  else ss_directededges st' = ss_directededges st.
Proof.
  unfold transit_line.
  destruct (Is_Valid (GetGraphId (TransitLine.dest_pbf_graphid line) counts));
    simpl; intros Hrun.
  2:{ inversion Hrun; subst st'. auto. }
  apply bind_Ok in Hrun. destruct Hrun as (endstop & _ & Hrun).
  apply bind_Ok in Hrun. destruct Hrun as (rt & _ & Hrun).
  destruct (GraphTileBuilder.AddEdgeInfo _ _ _ _ _) as [[offset added] tables'].
  inversion Hrun; subst st'; clear Hrun. cbn. split; [reflexivity|].
  eexists. split; [reflexivity|]. repeat split. cbn.
  apply GetTransitUse_cases.
Qed.

Lemma transit_lines_spec stopll origin_node node_edge_index lines :
  forall st st',
  foldM (transit_line read_pbf counts route_types tileid0 transit stopll
           origin_node node_edge_index) lines st = Ok st' ->
  exists es,
    ss_directededges st' = ss_directededges st ++ es /\
    Forall2 (line_edge counts) (lines_in_tiles counts lines) es /\
    ss_nodes st' = ss_nodes st.
Proof.
  induction lines as [|line lines IH]; intros st st' Hrun; simpl in Hrun.
  - inversion Hrun; subst st'. exists []. rewrite app_nil_r.
    repeat split. constructor.
  - apply bind_Ok in Hrun. destruct Hrun as (st1 & Hstep & Hrun).
    apply transit_line_spec in Hstep. destruct Hstep as [Hnodes1 Hstep].
    apply IH in Hrun. destruct Hrun as (es & Hedges & Hall & Hnodes).
    simpl.
    destruct (Is_Valid
                (GetGraphId (TransitLine.dest_pbf_graphid line) counts)).
    + destruct Hstep as (e & Hedges1 & He).
      exists (e :: es). repeat split.
      * rewrite Hedges, Hedges1, <- app_assoc. reflexivity.
      * constructor; assumption.
      * congruence.
    + exists es. repeat split; [|assumption|]; congruence.
Qed.

(** What one turn of the loop over the stops does. *)
Lemma transit_stop_spec stop_edges st st' :
  transit_stop read_pbf counts conns route_types tileid0 transit
    stop_edges st = Ok st' ->
  exists block node,
    ss_directededges st' = ss_directededges st ++ block /\
    ss_nodes st' = ss_nodes st ++ [node] /\
    NodeInfo.edge_index node = List.length (ss_directededges st) /\
    NodeInfo.edge_count node = List.length block /\
    rebuilt_stop_node counts conns (ss_directededges st') stop_edges node.
Proof.
  unfold transit_stop. intros Hrun.
  apply bind_Ok in Hrun. destruct Hrun as (stop & _ & Hrun).
  apply bind_Ok in Hrun. destruct Hrun as (st2 & Hlines & Hrun).
  inversion Hrun; subst st'; clear Hrun. cbn.
  apply transit_lines_spec in Hlines.
  destruct Hlines as (ls & Hedges2 & Hls & Hnodes2).
  destruct (stop_connections_spec (StopEdges.origin_pbf_graphid stop_edges)
              (GetGraphId (StopEdges.origin_pbf_graphid stop_edges) counts)
              (List.length (ss_directededges st)) conns st)
    as (cs & Hedges1 & Hcs & Hnodes1).
  rewrite Hedges1 in Hedges2. rewrite Hnodes1 in Hnodes2.
  rewrite <- app_assoc in Hedges2.
  assert (Hcount : List.length (ss_directededges st2)
                   - List.length (ss_directededges st)
                   = List.length (cs ++ ls)).
  { rewrite Hedges2, !length_app. lia. }
  eexists (cs ++ ls), _.
  split; [exact Hedges2|].
  split; [rewrite Hnodes2; reflexivity|].
  split; [reflexivity|].
  split; [exact Hcount|].
  exists cs, ls.
  split.
  { rewrite Hedges2. apply edges_of_last; [reflexivity|].
    cbn. rewrite !length_app. lia. }
  split; [exact Hcs|]. split; [exact Hls|]. repeat split.
Qed.

Lemma rebuilt_stop_node_app edges more se node :
  NodeInfo.edge_index node + NodeInfo.edge_count node <= List.length edges ->
  rebuilt_stop_node counts conns edges se node ->
  rebuilt_stop_node counts conns (edges ++ more) se node.
Proof.
  intros Hin (cs & ls & Hedges & Hrest).
  exists cs, ls. rewrite edges_of_app by exact Hin. auto.
Qed.

Lemma stop_inv_step base_nodes base_edges done se st st' :
  stop_inv counts conns base_nodes base_edges done st ->
  transit_stop read_pbf counts conns route_types tileid0 transit se st
  = Ok st' ->
  stop_inv counts conns base_nodes base_edges (done ++ [se]) st'.
Proof.
  intros [(more & Hmore) Hlaid (new & Hnew & Hlen & Heach)] Hrun.
  apply transit_stop_spec in Hrun.
  destruct Hrun as (block & node & Hedges' & Hnodes' & Hidx & Hcnt & Hnode).
  constructor.
  - exists (more ++ block). rewrite Hedges', Hmore, <- app_assoc. reflexivity.
  - rewrite Hnodes', Hedges', length_app, <- Hcnt.
    apply laid_out_snoc; assumption.
  - exists (new ++ [node]). split; [|split].
    + rewrite Hnodes', Hnew, <- app_assoc. reflexivity.
    + rewrite !length_app, Hlen. reflexivity.
    + intros k se0 Hk. apply lookup_app_Some in Hk.
      destruct Hk as [Hk|[Hge Hk]].
      * destruct (Heach _ _ Hk) as (node0 & Hk' & Hok).
        exists node0. split; [apply lookup_app_l_Some, Hk'|].
        rewrite Hedges'. apply rebuilt_stop_node_app; [|exact Hok].
        apply (laid_out_lookup _ _ _ (List.length base_nodes + k) _ Hlaid).
        rewrite Hnew, lookup_app_r by lia.
        replace (List.length base_nodes + k - List.length base_nodes)
          with k by lia.
        exact Hk'.
      * destruct (k - List.length done) as [|d] eqn:Hd; simpl in Hk;
          [|destruct d; discriminate].
        inversion Hk; subst se0; clear Hk.
        assert (k = List.length new) by lia. subst k.
        exists node. split; [|exact Hnode].
        apply list_lookup_middle. reflexivity.
Qed.

Lemma stop_pass_inv base_nodes base_edges st0 ses : forall st,
  stop_inv counts conns base_nodes base_edges [] st0 ->
  foldM (transit_stop read_pbf counts conns route_types tileid0 transit)
    ses st0 = Ok st ->
  stop_inv counts conns base_nodes base_edges ses st.
Proof.
  induction ses as [|se ses IH] using rev_ind; intros st Hstart Hrun.
  - inversion Hrun; subst st. exact Hstart.
  - rewrite foldM_snoc in Hrun. apply bind_Ok in Hrun.
    destruct Hrun as (st1 & Hrun & Hstep).
    eapply stop_inv_step; [|exact Hstep]. apply IH; assumption.
Qed.

End StopFacts.

Section AddToGraphFacts.
Context {baldr : Baldr} {builder : GraphTileBuilder.Ops} {geo : midgard.Ops}.
Variable fuel : nat.
Variable read_pbf : GraphId -> option Transit.t.
Variable counts : gmap GraphId nat.
Variable conns : list OSMConnectionEdge.t.
Variable route_types : gmap Z Z.

(** The two passes of [AddToGraph] when it returns a tile. *)
Lemma AddToGraph_Ok tb m sa r :
  AddToGraph fuel read_pbf counts conns route_types tb m sa = Ok r ->
  exists transit rs ss,
    read_pbf (Tile_Base (GraphTileBuilder.graphid tb)) = Some transit /\
    road_pass fuel counts conns tb = Ok rs /\
    stop_pass read_pbf counts conns route_types
      (Tile_Base (GraphTileBuilder.graphid tb)) transit m (stop_start rs)
    = Ok ss /\
    GraphTileBuilder.nodes r = ss_nodes ss /\
    GraphTileBuilder.directededges r = ss_directededges ss /\
    GraphTileBuilder.sign_builder r = cur_builder (rs_sign rs) /\
    GraphTileBuilder.accessrestriction_builder r = cur_builder (rs_res rs).
Proof.
  unfold AddToGraph. intros Hrun.
  apply bind_Ok in Hrun. destruct Hrun as (transit & Hread & Hrun).
  apply of_option_Ok in Hread.
  apply bind_Ok in Hrun. destruct Hrun as (rs & Hroad & Hrun).
  apply bind_Ok in Hrun. destruct Hrun as (ss & Hstop & Hrun).
  inversion Hrun; subst r; clear Hrun. cbn.
  exists transit, rs, ss. repeat split; assumption.
Qed.

Lemma AddToGraph_rebuilt tb m sa r :
  AddToGraph fuel read_pbf counts conns route_types tb m sa = Ok r ->
  laid_out 0 (GraphTileBuilder.nodes r)
    (List.length (GraphTileBuilder.directededges r)) /\
  exists road stops,
    GraphTileBuilder.nodes r = road ++ stops /\
    List.length road = List.length (GraphTileBuilder.nodes tb) /\
    List.length stops = List.length m /\
    (forall k nb,
        GraphTileBuilder.nodes tb !! k = Some nb ->
        exists nb',
          road !! k = Some nb' /\
          rebuilt_road_node counts conns (GraphTileBuilder.directededges tb)
            (GraphTileBuilder.directededges r) k nb nb') /\
    (forall k kse,
        m !! k = Some kse ->
        exists node,
          stops !! k = Some node /\
          rebuilt_stop_node counts conns (GraphTileBuilder.directededges r)
            (snd kse) node).
Proof.
  intros Hrun. apply AddToGraph_Ok in Hrun.
  destruct Hrun as (transit & rs & ss & _ & Hroad & Hstop & Hn & He & _ & _).
  rewrite Hn, He.
  unfold road_pass in Hroad.
  apply (road_loop_inv fuel counts conns) in Hroad;
    [|apply road_inv_start].
  destruct Hroad as [Hlen _ Hlaid _ Heach].
  unfold stop_pass in Hstop.
  apply (stop_pass_inv read_pbf counts conns route_types _ _
           (rs_nodes rs) (rs_directededges rs)) in Hstop.
  2:{ constructor.
      - exists []. cbn. rewrite app_nil_r. reflexivity.
      - exact Hlaid.
      - exists []. cbn. rewrite app_nil_r. repeat split.
        intros k se Hk. discriminate. }
  destruct Hstop as [(more & Hmore) Hlaid' (new & Hnew & Hlen' & Heach')].
  split; [exact Hlaid'|].
  exists (rs_nodes rs), new. split; [exact Hnew|]. split; [exact Hlen|].
  split; [rewrite Hlen', length_fmap; reflexivity|]. split.
  - intros k nb Hk. destruct (Heach _ _ Hk) as (nb' & Hk' & Hok).
    exists nb'. split; [exact Hk'|].
    rewrite Hmore. apply rebuilt_road_node_app; [|exact Hok].
    apply (laid_out_lookup _ _ _ _ _ Hlaid Hk').
  - intros k kse Hk. apply (Heach' k (snd kse)).
    rewrite list_lookup_fmap, Hk. reflexivity.
Qed.

(** C4.  In every tile that [AddToGraph] returns, the edge counts of the
    nodes add up to the number of directed edges; the nodes' ranges
    [edge_index, edge_index + edge_count) follow one another from 0 to that
    number in the order of the nodes; the nodes are the road nodes of the
    tile as it was, in their order, followed by one node for each entry of
    the stop edge map; the range of a road node holds its edges of the tile
    as it was and then the edges of its connections, and the range of a
    stop's node holds the edges of its connections and of its lines. *)
Theorem AddToGraph_edge_layout (tb : GraphTileBuilder.t)
  (m : list (GraphId * StopEdges.t)) (sa : gmap GraphId bool)
  (r : GraphTileBuilder.t) :
  AddToGraph fuel read_pbf counts conns route_types tb m sa = Ok r ->
  sum_list (NodeInfo.edge_count <$> GraphTileBuilder.nodes r)
  = List.length (GraphTileBuilder.directededges r) /\
  laid_out 0 (GraphTileBuilder.nodes r)
    (List.length (GraphTileBuilder.directededges r)) /\
  exists road stops,
    GraphTileBuilder.nodes r = road ++ stops /\
    List.length road = List.length (GraphTileBuilder.nodes tb) /\
    List.length stops = List.length m /\
    (forall k nb,
        GraphTileBuilder.nodes tb !! k = Some nb ->
        exists nb',
          road !! k = Some nb' /\
          rebuilt_road_node counts conns (GraphTileBuilder.directededges tb)
            (GraphTileBuilder.directededges r) k nb nb') /\
    (forall k kse,
        m !! k = Some kse ->
        exists node,
          stops !! k = Some node /\
          rebuilt_stop_node counts conns (GraphTileBuilder.directededges r)
            (snd kse) node).
Proof.
  intros Hrun. destruct (AddToGraph_rebuilt _ _ _ _ Hrun) as [Hlaid Hnodes].
  split; [|split; assumption].
  apply laid_out_sum in Hlaid. exact Hlaid.
Qed.

(** C9.  [AddToGraph] does not look at [stop_access]: two runs that differ
    in it alone give the same result; and every node appended for a stop has
    the access of pedestrians. *)
Theorem AddToGraph_ignores_stop_access (tb : GraphTileBuilder.t)
  (m : list (GraphId * StopEdges.t)) (sa1 sa2 : gmap GraphId bool) :
  AddToGraph fuel read_pbf counts conns route_types tb m sa1
  = AddToGraph fuel read_pbf counts conns route_types tb m sa2 /\
  (forall r k node,
      AddToGraph fuel read_pbf counts conns route_types tb m sa1 = Ok r ->
      GraphTileBuilder.nodes r
        !! (List.length (GraphTileBuilder.nodes tb) + k) = Some node ->
      NodeInfo.access node = kPedestrianAccess).
Proof.
  split; [reflexivity|].
  intros r k node Hrun Hnode.
  destruct (AddToGraph_rebuilt _ _ _ _ Hrun)
    as (_ & road & stops & Hnodes & Hroad & Hstops & _ & Heach).
  rewrite Hnodes, <- Hroad, lookup_app_r in Hnode by lia.
  replace (List.length road + k - List.length road) with k in Hnode by lia.
  assert (Hk : k < List.length m).
  { rewrite <- Hstops. apply lookup_lt_Some in Hnode. exact Hnode. }
  apply lookup_lt_is_Some in Hk. destruct Hk as (kse & Hk).
  destruct (Heach _ _ Hk) as (node' & Hnode' & Hok).
  rewrite Hnode in Hnode'. inversion Hnode'; subst node'.
  destruct Hok as (cs & ls & _ & _ & _ & Haccess & _). exact Haccess.
Qed.

End AddToGraphFacts.

Lemma rebuilt_scenario_Ok :
  ScenarioTile.rebuilt ∅ = Ok ScenarioTile.rebuilt_tile.
Proof. vm_compute. reflexivity. Qed.

Lemma AddToGraph_edge_layout_witness :
  sum_list (NodeInfo.edge_count
              <$> GraphTileBuilder.nodes ScenarioTile.rebuilt_tile)
  = List.length (GraphTileBuilder.directededges ScenarioTile.rebuilt_tile) /\
  laid_out 0 (GraphTileBuilder.nodes ScenarioTile.rebuilt_tile)
    (List.length (GraphTileBuilder.directededges ScenarioTile.rebuilt_tile)) /\
  exists road stops,
    GraphTileBuilder.nodes ScenarioTile.rebuilt_tile = road ++ stops /\
    List.length road
    = List.length (GraphTileBuilder.nodes ScenarioTile.tilebuilder) /\
    List.length stops = List.length ScenarioTile.stop_edge_map /\
    (forall k nb,
        GraphTileBuilder.nodes ScenarioTile.tilebuilder !! k = Some nb ->
        exists nb',
          road !! k = Some nb' /\
          rebuilt_road_node (baldr := Scenario.baldr)
            ScenarioTile.tile_node_counts ScenarioTile.connection_edges
            (GraphTileBuilder.directededges ScenarioTile.tilebuilder)
            (GraphTileBuilder.directededges ScenarioTile.rebuilt_tile)
            k nb nb') /\
    (forall k kse,
        ScenarioTile.stop_edge_map !! k = Some kse ->
        exists node,
          stops !! k = Some node /\
          rebuilt_stop_node (baldr := Scenario.baldr)
            ScenarioTile.tile_node_counts ScenarioTile.connection_edges
            (GraphTileBuilder.directededges ScenarioTile.rebuilt_tile)
            (snd kse) node).
Proof.
  apply (AddToGraph_edge_layout (baldr := Scenario.baldr)
           (geo := Scenario.geo) 10 ScenarioTile.read_pbf
           ScenarioTile.tile_node_counts ScenarioTile.connection_edges
           ScenarioTile.route_types ScenarioTile.tilebuilder
           ScenarioTile.stop_edge_map ∅ ScenarioTile.rebuilt_tile).
  vm_compute. reflexivity.
Defined.

Lemma AddToGraph_ignores_stop_access_witness :
  ScenarioTile.rebuilt {[ mkGraphId 0 2 0 := true ]}
  = ScenarioTile.rebuilt {[ mkGraphId 0 2 0 := false ]} /\
  (forall r k node,
      ScenarioTile.rebuilt {[ mkGraphId 0 2 0 := true ]} = Ok r ->
      GraphTileBuilder.nodes r !! (2 + k) = Some node ->
      NodeInfo.access node = 2%Z).
Proof.
  exact (AddToGraph_ignores_stop_access (baldr := Scenario.baldr)
           (geo := Scenario.geo) 10 ScenarioTile.read_pbf
           ScenarioTile.tile_node_counts ScenarioTile.connection_edges
           ScenarioTile.route_types ScenarioTile.tilebuilder
           ScenarioTile.stop_edge_map
           {[ mkGraphId 0 2 0 := true ]} {[ mkGraphId 0 2 0 := false ]}).
Defined.

(** The rebuilt tile of the scenario: the edge index, the edge count and
    the access of its four nodes, and the end node, the use and the line id
    of its eight directed edges. *)
Example rebuilt_scenario :
  (fun r =>
     ((fun n => (NodeInfo.edge_index n, NodeInfo.edge_count n,
                 NodeInfo.access n)) <$> GraphTileBuilder.nodes r,
      (fun e => (id (DirectedEdge.endnode e), DirectedEdge.use e,
                 DirectedEdge.lineid e))
        <$> GraphTileBuilder.directededges r))
    <$> (match ScenarioTile.rebuilt ∅ with Ok r => Some r | _ => None end)
  = Some ([(0, 2, 255%Z); (2, 2, 255%Z); (4, 4, 2%Z); (8, 0, 2%Z)],
          [(1, kUseOther 0, 0%Z); (2, kTransitConnection, 0%Z);
           (0, kUseOther 0, 0%Z); (2, kTransitConnection, 0%Z);
           (0, kTransitConnection, 0%Z); (1, kTransitConnection, 0%Z);
           (3, kRail, 1%Z); (3, kBus, 2%Z)]).
Proof. vm_compute. reflexivity. Qed.

(** ** The cursors of the signs and of the access restrictions *)

Section CursorFacts.
Context {T : Type} {indexed : EdgeIndexed T}.
Variable shifted : nat -> nat -> Prop.
Variable table builder : list T.

Lemma by_edge_index_lookup i j ri rj :
  by_edge_index table ->
  i <= j ->
  table !! i = Some ri ->
  table !! j = Some rj ->
  get_edgeindex ri <= get_edgeindex rj.
Proof.
  unfold by_edge_index. intros Hsorted.
  apply Sorted_StronglySorted in Hsorted; [|intros x y z; lia].
  revert i j. induction table as [|r t IH]; intros i j Hij Hi Hj;
    [discriminate|].
  rewrite fmap_cons in Hsorted.
  apply StronglySorted_inv in Hsorted. destruct Hsorted as [Ht Hr].
  destruct i as [|i]; simpl in Hi.
  - inversion Hi; subst r. destruct j as [|j]; simpl in Hj.
    + inversion Hj; subst rj. lia.
    + rewrite List.Forall_forall in Hr. apply Hr.
      apply list_elem_of_In, list_elem_of_fmap. exists rj. split; [reflexivity|].
      apply list_elem_of_lookup. eauto.
  - destruct j as [|j]; [lia|]. simpl in Hj.
    apply (IH Ht i j); [lia|assumption..].
Qed.

Lemma cursor_inv_enter lo hi c :
  cursor_inv shifted table builder lo hi c ->
  cursor_inv shifted table builder (S lo) hi c.
Proof.
  intros [Hidx Hlen Hnext Hbefore Hafter]. constructor; try assumption.
  intros j r Hj Hr. destruct (Hbefore j r Hj Hr) as [Hlt Hrest].
  split; [lia|exact Hrest].
Qed.

(** The while loop at edge [idx]: with enough fuel it ends, and every
    record that uses [idx] has been moved by [added_edges]. *)
Lemma update_loop_inv idx added_edges fuel : forall c,
  by_edge_index table ->
  shifted idx added_edges ->
  cursor_inv shifted table builder (S idx) idx c ->
  List.length table - cur_idx c < fuel ->
  exists c',
    update_loop fuel table idx added_edges c = Ok c' /\
    cursor_inv shifted table builder (S idx) (S idx) c'.
Proof.
  induction fuel as [|fuel IH]; intros c Hsorted Hshift Hinv Hfuel; [lia|].
  destruct Hinv as [Hidx Hlen Hnext Hbefore Hafter].
  simpl.
  destruct ((idx =? cur_next c) && (cur_idx c <? List.length table))
    eqn:Hcond.
  - apply andb_true_iff in Hcond. destruct Hcond as [Heq Hlt].
    apply Nat.eqb_eq in Heq. apply Nat.ltb_lt in Hlt.
    destruct (lookup_lt_is_Some_2 table (cur_idx c) Hlt) as (r & Hr).
    assert (Hlt' : cur_idx c < List.length (cur_builder c)) by lia.
    destruct (lookup_lt_is_Some_2 (cur_builder c) (cur_idx c) Hlt')
      as (b & Hb).
    rewrite Hb. simpl.
    assert (Hnext' :
      exists next',
        (if List.length table <=? S (cur_idx c) then Ok 0
         else of_option (get_edgeindex <$> table !! S (cur_idx c)))
        = Ok next' /\
        forall r', table !! S (cur_idx c) = Some r' ->
                   next' = get_edgeindex r').
    { destruct (List.length table <=? S (cur_idx c)) eqn:Hend.
      - apply Nat.leb_le in Hend. exists 0. split; [reflexivity|].
        intros r' Hr'. apply lookup_lt_Some in Hr'. lia.
      - apply Nat.leb_gt in Hend.
        destruct (lookup_lt_is_Some_2 table (S (cur_idx c)) Hend)
          as (r' & Hr').
        exists (get_edgeindex r'). rewrite Hr'. split; [reflexivity|].
        intros r'' Hr''. congruence. }
    destruct Hnext' as (next' & Hnext' & Hnext'').
    rewrite Hnext'. simpl.
    apply IH; [assumption..| |cbn; lia].
    constructor; cbn.
    + lia.
    + rewrite length_insert. exact Hlen.
    + exact Hnext''.
    + intros j rj Hj Hrj. destruct (decide (j = cur_idx c)) as [->|Hne].
      * rewrite Hr in Hrj. inversion Hrj; subst rj.
        rewrite <- (Hnext r Hr), <- Heq. split; [lia|].
        exists added_edges, b. split; [exact Hshift|]. split.
        -- destruct (Hafter (cur_idx c) r (le_n _) Hr) as [_ Hsame].
           rewrite <- Hsame. exact Hb.
        -- apply list_lookup_insert_eq. exact Hlt'.
      * rewrite list_lookup_insert_ne by congruence.
        apply Hbefore; [lia|exact Hrj].
    + intros j rj Hj Hrj. rewrite list_lookup_insert_ne by lia.
      apply Hafter; [lia|exact Hrj].
  - exists c. split; [reflexivity|].
    constructor; try assumption.
    intros j rj Hj Hrj. destruct (Hafter j rj Hj Hrj) as [Hle Hsame].
    split; [|exact Hsame].
    apply andb_false_iff in Hcond.
    assert (Hlt : cur_idx c < List.length table).
    { apply lookup_lt_Some in Hrj. lia. }
    destruct Hcond as [Hne|Hge]; [|apply Nat.ltb_ge in Hge; lia].
    apply Nat.eqb_neq in Hne.
    destruct (lookup_lt_is_Some_2 table (cur_idx c) Hlt) as (r & Hr).
    rewrite (Hnext r Hr) in Hne.
    destruct (Hafter (cur_idx c) r (le_n _) Hr) as [Hle' _].
    pose proof (by_edge_index_lookup _ _ _ _ Hsorted Hj Hr Hrj). lia.
Qed.

End CursorFacts.

Section RoadTotal.
Context {baldr : Baldr} {builder : GraphTileBuilder.Ops}.
Variable fuel : nat.
Variable counts : gmap GraphId nat.
Variable conns : list OSMConnectionEdge.t.
Variable currentedges : list DirectedEdge.t.
Variable sign0 sign_builder0 : list Sign.t.
Variable res0 res_builder0 : list AccessRestriction.t.
Variable shifted : nat -> nat -> Prop.

Hypothesis sign_sorted : by_edge_index sign0.
Hypothesis res_sorted : by_edge_index res0.
Hypothesis sign_fuel : List.length sign0 < fuel.
Hypothesis res_fuel : List.length res0 < fuel.
Hypothesis conns_fuel : List.length conns < fuel.
Hypothesis conns_valid :
  Forall (fun c => Is_Valid (GetGraphId (OSMConnectionEdge.stop_node c) counts)
                   = true) conns.

Lemma copy_loop_total count : forall start st,
  (forall idx, start <= idx < start + count ->
               shifted idx (rs_added_edges st) /\
               idx < List.length currentedges) ->
  cursors_at sign0 sign_builder0 res0 res_builder0 shifted start st ->
  exists st',
    foldM (copy_edge fuel currentedges sign0 res0) (seq start count) st
    = Ok st' /\
    cursors_at sign0 sign_builder0 res0 res_builder0 shifted (start + count) st'.
Proof.
  induction count as [|count IH]; intros start st Hrange [Hsign Hres]; simpl.
  - exists st. rewrite Nat.add_0_r. split; [reflexivity|split; assumption].
  - destruct (Hrange start ltac:(lia)) as [Hshift Hlt].
    destruct (lookup_lt_is_Some_2 currentedges start Hlt) as (e & He).
    unfold copy_edge at 1. rewrite He. simpl.
    destruct (update_loop_inv shifted sign0 sign_builder0 start
                (rs_added_edges st) fuel (rs_sign st))
      as (s & Hs & Hsign'); [assumption..| |lia|].
    { apply cursor_inv_enter, Hsign. }
    rewrite Hs. simpl.
    destruct (update_loop_inv shifted res0 res_builder0 start
                (rs_added_edges st) fuel (rs_res st))
      as (r & Hr & Hres'); [assumption..| |lia|].
    { apply cursor_inv_enter, Hres. }
    rewrite Hr. simpl.
    replace (start + S count) with (S start + count) by lia.
    apply IH.
    + intros idx Hidx. cbn. apply Hrange. lia.
    + split; assumption.
Qed.

Lemma connection_loop_total edge_index n : forall st,
  List.length conns - rs_added_edges st < n ->
  exists st', connection_loop counts conns n edge_index st = Ok st'.
Proof.
  induction n as [|n IH]; intros st Hn; [lia|]. simpl.
  destruct (conns !! rs_added_edges st) as [conn|] eqn:Hconn; [|eauto].
  destruct (id (OSMConnectionEdge.osm_node conn) =? rs_nodeid st); [|eauto].
  assert (Hvalid : Is_Valid
                     (GetGraphId (OSMConnectionEdge.stop_node conn) counts)
                   = true).
  { rewrite List.Forall_forall in conns_valid. apply conns_valid.
    apply list_elem_of_In, list_elem_of_lookup. eauto. }
  rewrite Hvalid. simpl.
  destruct (GraphTileBuilder.AddEdgeInfo _ _ _ _ _) as [[offset added] tables'].
  apply IH. cbn. apply lookup_lt_Some in Hconn. lia.
Qed.

(** One turn of the loop over the nodes ends, and leaves the cursors at the
    edge after the edges of the node. *)
Lemma road_node_total nb st :
  (forall idx,
      NodeInfo.edge_index nb <= idx
      < NodeInfo.edge_index nb + NodeInfo.edge_count nb ->
      shifted idx (rs_added_edges st) /\ idx < List.length currentedges) ->
  cursors_at sign0 sign_builder0 res0 res_builder0 shifted (NodeInfo.edge_index nb) st ->
  exists st',
    road_node fuel counts conns currentedges sign0 res0 nb st = Ok st' /\
    cursors_at sign0 sign_builder0 res0 res_builder0 shifted (NodeInfo.edge_index nb + NodeInfo.edge_count nb) st'.
Proof.
  intros Hrange Hcur. unfold road_node.
  destruct (copy_loop_total _ _ _ Hrange Hcur) as (st1 & Hcopy & Hcur1).
  rewrite Hcopy. simpl.
  destruct (connection_loop_total (List.length (rs_directededges st)) fuel st1)
    as (st2 & Hloop); [lia|].
  rewrite Hloop. simpl. eexists. split; [reflexivity|].
  apply connection_loop_spec in Hloop.
  destruct Hloop as (_ & _ & _ & _ & _ & _ & Hs & Hr & _).
  unfold cursors_at in *. cbn. rewrite Hs, Hr. exact Hcur1.
Qed.

End RoadTotal.

(** ** The layout of the tile as it was *)

Lemma laid_out_lt nodes : forall start total k k' nb nb',
  laid_out start nodes total ->
  k < k' ->
  nodes !! k = Some nb ->
  nodes !! k' = Some nb' ->
  NodeInfo.edge_index nb + NodeInfo.edge_count nb <= NodeInfo.edge_index nb'.
Proof.
  induction nodes as [|n nodes IH]; intros start total k k' nb nb' Hlaid Hlt
    Hk Hk'; [discriminate|].
  destruct Hlaid as [Hn Hrest].
  destruct k' as [|k']; [lia|]. simpl in Hk'.
  destruct k as [|k]; simpl in Hk.
  - inversion Hk; subst n.
    destruct (laid_out_lookup _ _ _ _ _ Hrest Hk'). lia.
  - apply (IH _ _ k k' nb nb' Hrest); [lia|assumption..].
Qed.

(** An edge index lies in the range of one node at most. *)
Lemma laid_out_disjoint nodes total k k' nb nb' e :
  laid_out 0 nodes total ->
  nodes !! k = Some nb ->
  nodes !! k' = Some nb' ->
  NodeInfo.edge_index nb <= e < NodeInfo.edge_index nb + NodeInfo.edge_count nb ->
  NodeInfo.edge_index nb' <= e
  < NodeInfo.edge_index nb' + NodeInfo.edge_count nb' ->
  k = k'.
Proof.
  intros Hlaid Hk Hk' He He'.
  destruct (Nat.lt_trichotomy k k') as [Hlt|[Heq|Hgt]]; [|exact Heq|].
  - pose proof (laid_out_lt _ _ _ _ _ _ _ Hlaid Hlt Hk Hk'). lia.
  - pose proof (laid_out_lt _ _ _ _ _ _ _ Hlaid Hgt Hk' Hk). lia.
Qed.

(** Every edge index below the number of edges lies in the range of a
    node. *)
Lemma laid_out_cover nodes : forall start total e,
  laid_out start nodes total ->
  start <= e < total ->
  exists k nb,
    nodes !! k = Some nb /\
    NodeInfo.edge_index nb <= e
    < NodeInfo.edge_index nb + NodeInfo.edge_count nb.
Proof.
  induction nodes as [|n nodes IH]; intros start total e Hlaid He.
  - simpl in Hlaid. lia.
  - destruct Hlaid as [Hn Hrest].
    destruct (decide (e < start + NodeInfo.edge_count n)) as [Hlt|Hge].
    + exists 0, n. split; [reflexivity|lia].
    + destruct (IH _ _ e Hrest ltac:(lia)) as (k & nb & Hk & Hin).
      exists (S k), nb. split; [exact Hk|exact Hin].
Qed.

(** The edges of the node after a node start where the edges of the node
    end. *)
Lemma laid_out_next nodes : forall start total k nb,
  laid_out start nodes total ->
  nodes !! k = Some nb ->
  match nodes !! S k with
  | Some nb' =>
      NodeInfo.edge_index nb'
      = NodeInfo.edge_index nb + NodeInfo.edge_count nb
  | None => total = NodeInfo.edge_index nb + NodeInfo.edge_count nb
  end.
Proof.
  induction nodes as [|n nodes IH]; intros start total k nb Hlaid Hk;
    [discriminate|].
  destruct Hlaid as [Hn Hrest]. destruct k as [|k]; simpl in Hk.
  - inversion Hk; subst n. simpl.
    destruct nodes as [|n' nodes]; simpl in *.
    + lia.
    + destruct Hrest as [Hn' _]. lia.
  - apply (IH _ _ _ _ Hrest Hk).
Qed.

Lemma start_of_0 nodes total :
  laid_out 0 nodes total -> start_of nodes total 0 = 0.
Proof.
  unfold start_of. destruct nodes as [|n nodes]; simpl.
  - intros <-. reflexivity.
  - intros [Hn _]. exact Hn.
Qed.

Lemma start_of_S nodes total k nb :
  laid_out 0 nodes total ->
  nodes !! k = Some nb ->
  start_of nodes total (S k)
  = NodeInfo.edge_index nb + NodeInfo.edge_count nb.
Proof.
  intros Hlaid Hk. unfold start_of.
  pose proof (laid_out_next _ _ _ _ _ Hlaid Hk) as Hnext.
  destruct (nodes !! S k); exact Hnext.
Qed.

Lemma start_of_end nodes total :
  start_of nodes total (List.length nodes) = total.
Proof.
  unfold start_of. rewrite lookup_ge_None_2 by lia. reflexivity.
Qed.


Section CursorEnds.
Context {T : Type} {indexed : EdgeIndexed T}.

Lemma cursor_inv_start shifted (table builder : list T) edgecount :
  List.length builder = List.length table ->
  cursor_inv shifted table builder 0 0
    (mkCursor 0 (first_next table edgecount) builder).
Proof.
  intros Hlen. constructor; cbn.
  - lia.
  - exact Hlen.
  - intros r Hr. destruct table as [|r' t]; [discriminate|].
    inversion Hr; subst r'. reflexivity.
  - intros j r Hj. lia.
  - intros j r _ _. split; [lia|reflexivity].
Qed.

Lemma cursor_inv_done shifted (table builder : list T) lo total c j r :
  cursor_inv shifted table builder lo total c ->
  Forall (fun r => get_edgeindex r < total) table ->
  table !! j = Some r ->
  exists a b,
    shifted (get_edgeindex r) a /\
    builder !! j = Some b /\
    cur_builder c !! j = Some (put_edgeindex (get_edgeindex r + a) b).
Proof.
  intros [_ _ _ Hbefore Hafter] Hrange Hr.
  destruct (decide (j < cur_idx c)) as [Hlt|Hge].
  - apply (Hbefore j r Hlt Hr).
  - destruct (Hafter j r ltac:(lia) Hr) as [Hle _].
    rewrite List.Forall_forall in Hrange.
    assert (get_edgeindex r < total).
    { apply Hrange, list_elem_of_In, list_elem_of_lookup. eauto. }
    lia.
Qed.

End CursorEnds.

Section ReindexFacts.
Context {baldr : Baldr} {builder : GraphTileBuilder.Ops}.
Variable fuel : nat.
Variable counts : gmap GraphId nat.
Variable conns : list OSMConnectionEdge.t.
Variable tb : GraphTileBuilder.t.

Hypothesis tb_wf : well_formed tb.
Hypothesis sign_fuel : List.length (GraphTileBuilder.sign tb) < fuel.
Hypothesis res_fuel :
  List.length (GraphTileBuilder.accessrestriction tb) < fuel.
Hypothesis conns_fuel : List.length conns < fuel.
Hypothesis conns_valid :
  Forall (fun c => Is_Valid (GetGraphId (OSMConnectionEdge.stop_node c) counts)
                   = true) conns.

Let nodes0 := GraphTileBuilder.nodes tb.
Let edges0 := GraphTileBuilder.directededges tb.
Let step :=
  road_node fuel counts conns edges0 (GraphTileBuilder.sign tb)
    (GraphTileBuilder.accessrestriction tb).
Let at_edge :=
  cursors_at (GraphTileBuilder.sign tb) (GraphTileBuilder.sign_builder tb)
    (GraphTileBuilder.accessrestriction tb)
    (GraphTileBuilder.accessrestriction_builder tb)
    (shifted_by fuel counts conns tb).

(** The first pass over the [k] first nodes ends, with the cursors at the
    first edge of node [k]. *)
Lemma road_prefix_total k :
  k <= List.length nodes0 ->
  exists st,
    foldM step (take k nodes0) (road_start tb) = Ok st /\
    at_edge (start_of nodes0 (List.length edges0) k) st.
Proof.
  destruct tb_wf as [Hlaid Hss _ Hsb Hrs _ Hrb].
  induction k as [|k IH]; intros Hk.
  - exists (road_start tb). rewrite take_0. split; [reflexivity|].
    unfold nodes0, edges0. rewrite start_of_0 by exact Hlaid.
    split; cbn; apply cursor_inv_start; assumption.
  - destruct IH as (st & Hrun & Hcur); [lia|].
    destruct (lookup_lt_is_Some_2 nodes0 k ltac:(lia)) as (nb & Hnb).
    rewrite (take_S_r _ _ _ Hnb), foldM_snoc, Hrun. simpl.
    unfold nodes0, edges0.
    rewrite (start_of_S _ _ _ _ Hlaid Hnb).
    unfold start_of in Hcur. rewrite Hnb in Hcur.
    apply (road_node_total fuel counts conns); try assumption.
    intros idx Hidx. split.
    + exists k, nb, st. auto.
    + destruct (laid_out_lookup _ _ _ _ _ Hlaid Hnb). unfold edges0. lia.
Qed.

Lemma road_pass_total :
  exists rs,
    road_pass fuel counts conns tb = Ok rs /\
    at_edge (List.length edges0) rs.
Proof.
  destruct (road_prefix_total (List.length nodes0) (le_n _))
    as (rs & Hrun & Hcur).
  rewrite firstn_all in Hrun. rewrite start_of_end in Hcur.
  exists rs. split; assumption.
Qed.

Lemma road_nodes_grow l : forall st st',
  foldM step l st = Ok st' ->
  exists more, rs_nodes st' = rs_nodes st ++ more.
Proof.
  induction l as [|nb l IH]; intros st st' Hrun; simpl in Hrun.
  - inversion Hrun; subst st'. exists []. rewrite app_nil_r. reflexivity.
  - apply bind_Ok in Hrun. destruct Hrun as (st1 & Hstep & Hrun).
    apply road_node_spec in Hstep.
    destruct Hstep as (old & es & _ & _ & _ & _ & _ & _ & Hnodes & _).
    apply IH in Hrun. destruct Hrun as (more & Hmore).
    eexists. rewrite Hmore, Hnodes, <- app_assoc. reflexivity.
Qed.

(** The number of edges added when the pass comes to node [k] is the
    number of edges inserted at the nodes before [k]. *)
Lemma added_before k st rs :
  k <= List.length nodes0 ->
  foldM step (take k nodes0) (road_start tb) = Ok st ->
  road_pass fuel counts conns tb = Ok rs ->
  rs_added_edges st = inserted_before nodes0 (rs_nodes rs) k.
Proof.
  intros Hk Hst Hrs.
  pose proof (road_loop_inv fuel counts conns edges0 _ _ _ _ _
                (road_inv_start counts conns edges0 tb) Hst)
    as [Hlen _ _ Hadded _].
  unfold road_pass in Hrs. fold nodes0 edges0 step in Hrs.
  rewrite <- (take_drop k nodes0), foldM_app, Hst in Hrs. simpl in Hrs.
  apply road_nodes_grow in Hrs. destruct Hrs as (more & Hmore).
  unfold inserted_before. rewrite Hmore, Hadded.
  rewrite length_take in Hlen.
  rewrite take_app_length' by lia. reflexivity.
Qed.

Lemma shifted_by_inserted rs e a k nb :
  road_pass fuel counts conns tb = Ok rs ->
  shifted_by fuel counts conns tb e a ->
  nodes0 !! k = Some nb ->
  NodeInfo.edge_index nb <= e < NodeInfo.edge_index nb + NodeInfo.edge_count nb ->
  a = inserted_before nodes0 (rs_nodes rs) k.
Proof.
  intros Hrs (k' & nb' & st & Hnb' & Hst & He' & ->) Hnb He.
  destruct tb_wf as [Hlaid _ _ _ _ _ _].
  assert (k' = k) by (eapply laid_out_disjoint; eassumption). subst k'.
  apply added_before; try assumption.
  apply lookup_lt_Some in Hnb. lia.
Qed.

(** The first pass ends, and in the tables that it leaves every sign and
    every access restriction has been moved by the number of edges inserted
    before the node of its edge. *)
Lemma road_pass_reindexed :
  exists rs,
    road_pass fuel counts conns tb = Ok rs /\
    reindexed nodes0 (rs_nodes rs) (GraphTileBuilder.sign tb)
      (GraphTileBuilder.sign_builder tb) (cur_builder (rs_sign rs)) /\
    reindexed nodes0 (rs_nodes rs) (GraphTileBuilder.accessrestriction tb)
      (GraphTileBuilder.accessrestriction_builder tb)
      (cur_builder (rs_res rs)).
Proof.
  destruct road_pass_total as (rs & Hrs & Hsign & Hres).
  destruct tb_wf as [_ _ Hsr _ _ Hrr _].
  exists rs. split; [exact Hrs|]. split.
  - intros j r k nb Hr Hnb He.
    destruct (cursor_inv_done _ _ _ _ _ _ j r Hsign Hsr Hr)
      as (a & b & Hshift & Hb & Hb').
    exists b. split; [exact Hb|]. rewrite Hb'.
    rewrite (shifted_by_inserted rs _ _ k nb Hrs Hshift Hnb He). reflexivity.
  - intros j r k nb Hr Hnb He.
    destruct (cursor_inv_done _ _ _ _ _ _ j r Hres Hrr Hr)
      as (a & b & Hshift & Hb & Hb').
    exists b. split; [exact Hb|]. rewrite Hb'.
    rewrite (shifted_by_inserted rs _ _ k nb Hrs Hshift Hnb He). reflexivity.
Qed.

End ReindexFacts.

(** ** [AddToGraph] returns *)

Section ReturnFacts.
Context {baldr : Baldr} {builder : GraphTileBuilder.Ops} {geo : midgard.Ops}.
Variable fuel : nat.
Variable read_pbf : GraphId -> option Transit.t.
Variable counts : gmap GraphId nat.
Variable conns : list OSMConnectionEdge.t.
Variable route_types : gmap Z Z.

Lemma transit_lines_total tileid0 transit stopll origin_node node_edge_index
  lines : forall st,
  Forall (line_resolves read_pbf counts route_types tileid0 transit) lines ->
  exists st',
    foldM (transit_line read_pbf counts route_types tileid0 transit stopll
             origin_node node_edge_index) lines st = Ok st'.
Proof.
  induction lines as [|line lines IH]; intros st Hall; simpl.
  - eauto.
  - apply Forall_cons in Hall. destruct Hall as [Hline Hall].
    unfold transit_line at 1. unfold line_resolves in Hline.
    destruct (Is_Valid
                (GetGraphId (TransitLine.dest_pbf_graphid line) counts));
      simpl.
    + destruct (Hline eq_refl) as [(endstop & Hend) (rt & Hrt)].
      rewrite Hend, Hrt. simpl.
      destruct (GraphTileBuilder.AddEdgeInfo _ _ _ _ _)
        as [[offset added] tables'].
      simpl. apply IH, Hall.
    + apply IH, Hall.
Qed.

Lemma stop_pass_total tileid0 transit ses : forall st,
  Forall (stop_resolves read_pbf counts route_types tileid0 transit) ses ->
  exists st',
    foldM (transit_stop read_pbf counts conns route_types tileid0 transit)
      ses st = Ok st'.
Proof.
  induction ses as [|se ses IH]; intros st Hall; simpl.
  - eauto.
  - apply Forall_cons in Hall. destruct Hall as [[(stop & Hstop) Hlines] Hall].
    unfold transit_stop at 1. rewrite Hstop. simpl.
    destruct (transit_lines_total tileid0 transit
                (Transit_Stop.lon stop, Transit_Stop.lat stop)
                (GetGraphId (StopEdges.origin_pbf_graphid se) counts)
                (List.length (ss_directededges st)) (StopEdges.lines se)
                (fold_left
                   (connection_from_stop (StopEdges.origin_pbf_graphid se)
                      (GetGraphId (StopEdges.origin_pbf_graphid se) counts)
                      (List.length (ss_directededges st))) conns st) Hlines)
      as (st2 & Hst2).
    rewrite Hst2. simpl. apply IH, Hall.
Qed.

(** [AddToGraph] returns a tile when the tile is well formed, the bound on
    the while loops is above the sizes of the tables, the connections all
    lead to stops of the tile set, the transit data of the tile can be read,
    and the stops and lines of the stop edge map resolve. *)
Lemma AddToGraph_returns tb m sa transit :
  well_formed tb ->
  List.length (GraphTileBuilder.sign tb) < fuel ->
  List.length (GraphTileBuilder.accessrestriction tb) < fuel ->
  List.length conns < fuel ->
  Forall (fun c => Is_Valid (GetGraphId (OSMConnectionEdge.stop_node c) counts)
                   = true) conns ->
  read_pbf (Tile_Base (GraphTileBuilder.graphid tb)) = Some transit ->
  Forall (stop_resolves read_pbf counts route_types
            (Tile_Base (GraphTileBuilder.graphid tb)) transit) (snd <$> m) ->
  exists r, AddToGraph fuel read_pbf counts conns route_types tb m sa = Ok r.
Proof.
  intros Hwf Hsf Hrf Hcf Hvalid Hread Hstops.
  destruct (road_pass_reindexed fuel counts conns tb Hwf Hsf Hrf Hcf Hvalid)
    as (rs & Hrs & _).
  destruct (stop_pass_total _ transit (snd <$> m) (stop_start rs) Hstops)
    as (ss & Hss).
  unfold AddToGraph. rewrite Hread. cbn [of_option Res.bind].
  rewrite Hrs. cbn [Res.bind]. unfold stop_pass. rewrite Hss.
  cbn [Res.bind]. eauto.
Qed.

End ReturnFacts.

Lemma inserted_before_app old new more k :
  k <= List.length new ->
  inserted_before old (new ++ more) k = inserted_before old new k.
Proof.
  intros Hk. unfold inserted_before. rewrite take_app_le by exact Hk.
  reflexivity.
Qed.

Lemma reindexed_app {T : Type} {indexed : EdgeIndexed T}
  (old new more : list NodeInfo.t) (table b b' : list T) :
  List.length new = List.length old ->
  reindexed old new table b b' ->
  reindexed old (new ++ more) table b b'.
Proof.
  intros Hlen Hre j r k nb Hr Hnb He.
  rewrite inserted_before_app.
  - apply (Hre j r k nb Hr Hnb He).
  - apply lookup_lt_Some in Hnb. lia.
Qed.

Section ReindexTheorem.
Context {baldr : Baldr} {builder : GraphTileBuilder.Ops} {geo : midgard.Ops}.
Variable fuel : nat.
Variable read_pbf : GraphId -> option Transit.t.
Variable counts : gmap GraphId nat.
Variable conns : list OSMConnectionEdge.t.
Variable route_types : gmap Z Z.

(** C3.  On a well-formed tile whose connections all lead to stops of the
    tile set, and with a bound on the while loops above the sizes of the
    tables, the pass over the road nodes ends, and [AddToGraph] returns a
    tile when the stops and lines of the stop edge map resolve.  Every sign
    and every access restriction refers to an edge of a node of the tile as
    it was; in the tables that the pass leaves, which are the tables of
    every tile that [AddToGraph] returns, a record that referred to edge [i]
    of node [k] refers to edge [i] plus the number of edges inserted at the
    nodes before [k], and is otherwise as it was. *)
Theorem AddToGraph_reindexes (tb : GraphTileBuilder.t) :
  well_formed tb ->
  List.length (GraphTileBuilder.sign tb) < fuel ->
  List.length (GraphTileBuilder.accessrestriction tb) < fuel ->
  List.length conns < fuel ->
  Forall (fun c => Is_Valid (GetGraphId (OSMConnectionEdge.stop_node c) counts)
                   = true) conns ->
  (forall e,
      e < List.length (GraphTileBuilder.directededges tb) ->
      exists k nb,
        GraphTileBuilder.nodes tb !! k = Some nb /\
        NodeInfo.edge_index nb <= e
        < NodeInfo.edge_index nb + NodeInfo.edge_count nb) /\
  exists rs,
    road_pass fuel counts conns tb = Ok rs /\
    reindexed (GraphTileBuilder.nodes tb) (rs_nodes rs)
      (GraphTileBuilder.sign tb) (GraphTileBuilder.sign_builder tb)
      (cur_builder (rs_sign rs)) /\
    reindexed (GraphTileBuilder.nodes tb) (rs_nodes rs)
      (GraphTileBuilder.accessrestriction tb)
      (GraphTileBuilder.accessrestriction_builder tb)
      (cur_builder (rs_res rs)) /\
    (forall m sa transit,
        read_pbf (Tile_Base (GraphTileBuilder.graphid tb)) = Some transit ->
        Forall (stop_resolves read_pbf counts route_types
                  (Tile_Base (GraphTileBuilder.graphid tb)) transit)
          (snd <$> m) ->
        exists r,
          AddToGraph fuel read_pbf counts conns route_types tb m sa = Ok r) /\
    forall m sa r,
      AddToGraph fuel read_pbf counts conns route_types tb m sa = Ok r ->
      GraphTileBuilder.sign_builder r = cur_builder (rs_sign rs) /\
      GraphTileBuilder.accessrestriction_builder r
      = cur_builder (rs_res rs) /\
      reindexed (GraphTileBuilder.nodes tb) (GraphTileBuilder.nodes r)
        (GraphTileBuilder.sign tb) (GraphTileBuilder.sign_builder tb)
        (GraphTileBuilder.sign_builder r) /\
      reindexed (GraphTileBuilder.nodes tb) (GraphTileBuilder.nodes r)
        (GraphTileBuilder.accessrestriction tb)
        (GraphTileBuilder.accessrestriction_builder tb)
        (GraphTileBuilder.accessrestriction_builder r).
Proof.
  intros Hwf Hsf Hrf Hcf Hvalid.
  split.
  { intros e He. destruct Hwf as [Hlaid _ _ _ _ _ _].
    apply (laid_out_cover _ _ _ _ Hlaid). lia. }
  destruct (road_pass_reindexed fuel counts conns tb Hwf Hsf Hrf Hcf Hvalid)
    as (rs & Hrs & Hsign & Hres).
  exists rs. split; [exact Hrs|]. split; [exact Hsign|].
  split; [exact Hres|]. split.
  { intros m sa transit Hread Hstops.
    apply (AddToGraph_returns fuel read_pbf counts conns route_types tb m sa
             transit); assumption. }
  intros m sa r Hrun.
  apply AddToGraph_Ok in Hrun.
  destruct Hrun as (transit & rs' & ss & _ & Hrs' & Hstop & Hn & _ & Hsb & Hrb).
  rewrite Hrs in Hrs'. inversion Hrs'; subst rs'; clear Hrs'.
  assert (Hroad : road_inv counts conns (GraphTileBuilder.directededges tb)
                    (GraphTileBuilder.nodes tb) rs).
  { unfold road_pass in Hrs.
    apply (road_loop_inv fuel counts conns) in Hrs; [exact Hrs|].
    apply road_inv_start. }
  destruct Hroad as [Hlen _ Hlaid _ _].
  unfold stop_pass in Hstop.
  apply (stop_pass_inv read_pbf counts conns route_types _ _
           (rs_nodes rs) (rs_directededges rs)) in Hstop.
  2:{ constructor.
      - exists []. cbn. rewrite app_nil_r. reflexivity.
      - exact Hlaid.
      - exists []. cbn. rewrite app_nil_r. repeat split.
        intros k se Hk. discriminate. }
  destruct Hstop as [_ _ (new & Hnew & _)].
  split; [exact Hsb|]. split; [exact Hrb|].
  rewrite Hn, Hnew, Hsb, Hrb.
  split; apply reindexed_app; assumption.
Qed.

End ReindexTheorem.

Lemma scenario_well_formed : well_formed ScenarioTile.tilebuilder.
Proof.
  constructor; cbn.
  - repeat split.
  - repeat constructor.
  - repeat constructor.
  - reflexivity.
  - repeat constructor.
  - repeat constructor.
  - reflexivity.
Qed.

Lemma AddToGraph_reindexes_witness :
  exists rs,
    road_pass (baldr := Scenario.baldr) 10 ScenarioTile.tile_node_counts
      ScenarioTile.connection_edges ScenarioTile.tilebuilder = Ok rs /\
    reindexed (GraphTileBuilder.nodes ScenarioTile.tilebuilder) (rs_nodes rs)
      (GraphTileBuilder.sign ScenarioTile.tilebuilder)
      (GraphTileBuilder.sign_builder ScenarioTile.tilebuilder)
      (cur_builder (rs_sign rs)) /\
    reindexed (GraphTileBuilder.nodes ScenarioTile.tilebuilder) (rs_nodes rs)
      (GraphTileBuilder.accessrestriction ScenarioTile.tilebuilder)
      (GraphTileBuilder.accessrestriction_builder ScenarioTile.tilebuilder)
      (cur_builder (rs_res rs)) /\
    (forall m sa transit,
        ScenarioTile.read_pbf
          (Tile_Base (GraphTileBuilder.graphid ScenarioTile.tilebuilder))
        = Some transit ->
        Forall (stop_resolves (baldr := Scenario.baldr) ScenarioTile.read_pbf
                  ScenarioTile.tile_node_counts ScenarioTile.route_types
                  (Tile_Base
                     (GraphTileBuilder.graphid ScenarioTile.tilebuilder))
                  transit)
          (snd <$> m) ->
        exists r,
          AddToGraph (baldr := Scenario.baldr) (geo := Scenario.geo) 10
            ScenarioTile.read_pbf ScenarioTile.tile_node_counts
            ScenarioTile.connection_edges ScenarioTile.route_types
            ScenarioTile.tilebuilder m sa = Ok r) /\
    forall m sa r,
      AddToGraph (baldr := Scenario.baldr) (geo := Scenario.geo) 10
        ScenarioTile.read_pbf ScenarioTile.tile_node_counts
        ScenarioTile.connection_edges ScenarioTile.route_types
        ScenarioTile.tilebuilder m sa = Ok r ->
      GraphTileBuilder.sign_builder r = cur_builder (rs_sign rs) /\
      GraphTileBuilder.accessrestriction_builder r
      = cur_builder (rs_res rs) /\
      reindexed (GraphTileBuilder.nodes ScenarioTile.tilebuilder)
        (GraphTileBuilder.nodes r)
        (GraphTileBuilder.sign ScenarioTile.tilebuilder)
        (GraphTileBuilder.sign_builder ScenarioTile.tilebuilder)
        (GraphTileBuilder.sign_builder r) /\
      reindexed (GraphTileBuilder.nodes ScenarioTile.tilebuilder)
        (GraphTileBuilder.nodes r)
        (GraphTileBuilder.accessrestriction ScenarioTile.tilebuilder)
        (GraphTileBuilder.accessrestriction_builder ScenarioTile.tilebuilder)
        (GraphTileBuilder.accessrestriction_builder r).
Proof.
  apply (AddToGraph_reindexes (baldr := Scenario.baldr)
           (geo := Scenario.geo) 10 ScenarioTile.read_pbf
           ScenarioTile.tile_node_counts ScenarioTile.connection_edges
           ScenarioTile.route_types ScenarioTile.tilebuilder).
  - exact scenario_well_formed.
  - cbn. lia.
  - cbn. lia.
  - cbn. lia.
  - repeat constructor.
Defined.

(** In the scenario the sign on edge 1, an edge of node 1, moves to edge 2:
    one connection edge is inserted at node 0.  The access restriction on
    edge 0 stays, the one on edge 1 moves to edge 2. *)
Example reindexed_scenario :
  GraphTileBuilder.sign_builder ScenarioTile.rebuilt_tile = [Sign.mk 2 11] /\
  GraphTileBuilder.accessrestriction_builder ScenarioTile.rebuilt_tile
  = [AccessRestriction.mk 0 21; AccessRestriction.mk 2 22].
Proof. split; reflexivity. Qed.

(** ** Line ids *)

Section LineIdFacts.
Context {baldr : Baldr} {builder : GraphTileBuilder.Ops} {geo : midgard.Ops}.
Context {stl : unordered_multimap.Ops}.
Variable read_pbf : GraphId -> option Transit.t.
Variable counts : gmap GraphId nat.
Variable conns : list OSMConnectionEdge.t.
Variable route_types : gmap Z Z.
Variable tileid0 : GraphId.
Variable transit0 : Transit.t.

Lemma connection_from_use cs es :
  Forall2 connection_from cs es ->
  Forall (fun e => DirectedEdge.use e = kTransitConnection) es.
Proof.
  induction 1 as [|c e cs es (_ & _ & Huse) _ IH]; constructor; assumption.
Qed.

Lemma line_edge_of_lines lines ls :
  Forall2 (line_edge counts) (lines_in_tiles counts lines) ls ->
  Forall (fun e => exists line, In line lines /\ line_edge counts line e) ls.
Proof.
  unfold lines_in_tiles.
  assert (Hsub : forall l, In l (List.filter
                    (fun l => Is_Valid
                       (GetGraphId (TransitLine.dest_pbf_graphid l) counts))
                    lines) -> In l lines).
  { intros l Hl. apply filter_In in Hl. tauto. }
  revert Hsub. generalize (List.filter
                    (fun l => Is_Valid
                       (GetGraphId (TransitLine.dest_pbf_graphid l) counts))
                    lines).
  intros valid Hsub Hall.
  induction Hall as [|line e valid ls Hline _ IH]; constructor.
  - exists line. split; [apply Hsub; left; reflexivity|exact Hline].
  - apply IH. intros l Hl. apply Hsub. right. exact Hl.
Qed.

(** Every edge that the loop over the stops adds is the edge of a
    connection or the edge of a line of one of the stops. *)
Lemma stop_pass_edges ses : forall st st',
  foldM (transit_stop read_pbf counts conns route_types tileid0 transit0)
    ses st = Ok st' ->
  exists new,
    ss_directededges st' = ss_directededges st ++ new /\
    Forall (fun e =>
              DirectedEdge.use e = kTransitConnection \/
              exists se line,
                In se ses /\ In line (StopEdges.lines se) /\
                line_edge counts line e) new.
Proof.
  induction ses as [|se ses IH]; intros st st' Hrun; simpl in Hrun.
  - inversion Hrun; subst st'. exists []. rewrite app_nil_r.
    split; [reflexivity|constructor].
  - apply bind_Ok in Hrun. destruct Hrun as (st1 & Hstep & Hrun).
    apply transit_stop_spec in Hstep.
    destruct Hstep as (block & node & Hedges & _ & Hidx & Hcnt & Hnode).
    destruct Hnode as (cs & ls & Hof & Hcs & Hls & _).
    rewrite Hedges, (edges_of_last _ _ _ Hidx Hcnt) in Hof. subst block.
    apply IH in Hrun. destruct Hrun as (new & Hnew & Hall).
    exists ((cs ++ ls) ++ new). split.
    + rewrite Hnew, Hedges, <- app_assoc. reflexivity.
    + apply connection_from_use in Hcs. apply line_edge_of_lines in Hls.
      rewrite !Forall_app. repeat split.
      * eapply Forall_impl; [exact Hcs|]. intros e He. left. exact He.
      * eapply Forall_impl; [exact Hls|].
        intros e (line & Hin & He). right. exists se, line.
        split; [left; reflexivity|]. split; assumption.
      * eapply Forall_impl; [exact Hall|].
        intros e [He|(se' & line & Hse & Hline & He)]; [left; exact He|].
        right. exists se', line. split; [right; exact Hse|].
        split; assumption.
Qed.

(** C5.  When two graph ids of which neither is less than the other are
    the same id, and fewer than 2^32 - 1 departures are gone through, the
    stop edge map that [build] forms has an entry for every stop of the
    tile, under the graph id of the stop, and no other entry.  The entry of
    a stop has as many lines as there are distinct (route, destination stop)
    pairs among the departures emplaced under the id of the stop, and these
    pairs are the pairs of its lines.  Every line id of the map is at least
    1 and no two lines of the map have the same line id.  Every edge that
    the second pass of [AddToGraph] adds for this map is a connection edge
    or a rail or bus edge that carries the line id of a line of the map, an
    id of at least 1. *)
Theorem line_ids_unique (transit : Transit.t)
  (deps : list (GraphId * Departure.t)) (tb : GraphTileBuilder.t) :
  (forall a b, GraphId_less a b = false -> GraphId_less b a = false -> a = b) ->
  (Z.of_nat (List.length (stop_departures transit deps)) < 2 ^ 32 - 1)%Z ->
  (forall stop,
      stop ∈ Transit.stops transit ->
      exists se,
        (Transit_Stop.graphid stop, se)
        ∈ b_stop_edge_map (form_departures transit deps tb)) /\
  (forall k se,
      (k, se) ∈ b_stop_edge_map (form_departures transit deps tb) ->
      (exists stop,
          stop ∈ Transit.stops transit /\ Transit_Stop.graphid stop = k) /\
      StopEdges.origin_pbf_graphid se = k /\
      List.length (StopEdges.lines se)
      = size (distinct_pairs (emplaced deps k)) /\
      list_to_set (line_key <$> StopEdges.lines se)
      = distinct_pairs (emplaced deps k)) /\
  (forall x,
      x ∈ line_ids (b_stop_edge_map (form_departures transit deps tb)) ->
      (1 <= x)%Z) /\
  NoDup (line_ids (b_stop_edge_map (form_departures transit deps tb))) /\
  (forall st st',
      stop_pass read_pbf counts conns route_types tileid0 transit0
        (b_stop_edge_map (form_departures transit deps tb)) st = Ok st' ->
      exists new,
        ss_directededges st' = ss_directededges st ++ new /\
        Forall (fun e =>
                  DirectedEdge.use e = kTransitConnection \/
                  ((DirectedEdge.use e = kRail \/ DirectedEdge.use e = kBus) /\
                   DirectedEdge.lineid e
                   ∈ line_ids
                       (b_stop_edge_map (form_departures transit deps tb)) /\
                   (1 <= DirectedEdge.lineid e)%Z)) new).
Proof.
  intros Htotal Hbound.
  destruct (form_departures_inv transit deps tb Hbound)
    as [Hnext Hentries Hids Hnodup].
  destruct (stop_loop_covers deps (Transit.stops transit)
              (mkBuildState 1 tb ∅ ∅ []) Htotal) as (_ & Hcover & Hfrom).
  fold (form_departures transit deps tb) in Hcover, Hfrom.
  split; [exact Hcover|].
  split.
  { intros k se Hin. split.
    - destruct (Hfrom _ Hin) as [Hnil|Hstop]; [|exact Hstop].
      apply elem_of_nil in Hnil. destruct Hnil.
    - rewrite <- distinct_pairs_equal_range. apply Hentries, Hin. }
  split; [intros x Hx; apply Hids in Hx; lia|].
  split; [exact Hnodup|].
  intros st st' Hrun. unfold stop_pass in Hrun.
  apply stop_pass_edges in Hrun. destruct Hrun as (new & Hnew & Hall).
  exists new. split; [exact Hnew|].
  eapply Forall_impl; [exact Hall|].
  intros e [He|(se & line & Hse & Hline & Hend & Hid & Huse)];
    [left; exact He|].
  right. split; [exact Huse|]. rewrite Hid.
  apply in_map_iff in Hse. destruct Hse as ([k se'] & Heq & Hin).
  simpl in Heq. subst se'.
  assert (Hx : TransitLine.lineid line
               ∈ line_ids (b_stop_edge_map (form_departures transit deps tb))).
  { unfold line_ids. apply list_elem_of_In, in_concat.
    exists (TransitLine.lineid <$> StopEdges.lines se). split.
    - apply in_map_iff. exists (k, se). split; [reflexivity|exact Hin].
    - apply in_map_iff. exists line. split; [reflexivity|exact Hline]. }
  split; [exact Hx|]. apply Hids in Hx. lia.
Qed.

End LineIdFacts.

Lemma Scenario_less_total (a b : GraphId) :
  Scenario.less a b = false -> Scenario.less b a = false -> a = b.
Proof.
  destruct a as [t1 l1 i1], b as [t2 l2 i2]. unfold Scenario.less.
  cbn [tileid level id].
  rewrite !orb_false_iff, !andb_false_iff, !orb_false_iff, !andb_false_iff,
    !Nat.ltb_ge, !Nat.eqb_neq.
  intros H1 H2. f_equal; lia.
Qed.

Lemma line_ids_unique_witness :
  (forall stop,
      stop ∈ Transit.stops ScenarioBuild.transit ->
      exists se,
        (Transit_Stop.graphid stop, se) ∈ ScenarioTile.stop_edge_map) /\
  (forall k se,
      (k, se) ∈ ScenarioTile.stop_edge_map ->
      (exists stop,
          stop ∈ Transit.stops ScenarioBuild.transit /\
          Transit_Stop.graphid stop = k) /\
      StopEdges.origin_pbf_graphid se = k /\
      List.length (StopEdges.lines se)
      = size (distinct_pairs (emplaced ScenarioBuild.departures k)) /\
      list_to_set (line_key <$> StopEdges.lines se)
      = distinct_pairs (emplaced ScenarioBuild.departures k)) /\
  (forall x, x ∈ line_ids ScenarioTile.stop_edge_map -> (1 <= x)%Z) /\
  NoDup (line_ids ScenarioTile.stop_edge_map) /\
  (forall st st',
      stop_pass (baldr := Scenario.baldr) (builder := Scenario.builder)
        (geo := Scenario.geo) ScenarioTile.read_pbf ScenarioTile.tile_node_counts
        ScenarioTile.connection_edges ScenarioTile.route_types
        (mkGraphId 0 2 0) ScenarioBuild.transit
        ScenarioTile.stop_edge_map st = Ok st' ->
      exists new,
        ss_directededges st' = ss_directededges st ++ new /\
        Forall (fun e =>
                  DirectedEdge.use e = kTransitConnection \/
                  ((DirectedEdge.use e = kRail \/ DirectedEdge.use e = kBus) /\
                   DirectedEdge.lineid e ∈ line_ids ScenarioTile.stop_edge_map /\
                   (1 <= DirectedEdge.lineid e)%Z)) new).
Proof.
  apply (line_ids_unique (baldr := Scenario.baldr) (geo := Scenario.geo)
           (stl := Scenario.stl)
           ScenarioTile.read_pbf ScenarioTile.tile_node_counts
           ScenarioTile.connection_edges ScenarioTile.route_types
           (mkGraphId 0 2 0) ScenarioBuild.transit
           ScenarioBuild.transit ScenarioBuild.departures
           ScenarioBuild.tilebuilder).
  - exact Scenario_less_total.
  - vm_compute. reflexivity.
Defined.

(** In the scenario stop 0 has three departures with two distinct (route,
    destination) pairs, and stop 1 has none: the map has the entries of the
    two stops, the first with a line of route 1, the route of the departure
    emplaced last, and a line of route 0, with the ids 1 and 2, the second
    without lines. *)
Example line_ids_scenario :
  (fun kse =>
     (fst kse,
      (fun line => (TransitLine.lineid line, TransitLine.routeid line))
        <$> StopEdges.lines (snd kse)))
    <$> ScenarioTile.stop_edge_map
  = [(mkGraphId 0 2 0, [(1, 1); (2, 0)]%Z); (mkGraphId 0 2 1, [])] /\
  size (distinct_pairs
          (emplaced ScenarioBuild.departures (mkGraphId 0 2 0))) = 2.
Proof. split; vm_compute; reflexivity. Qed.

(** ** The loop over the connections of a road node *)

Section ConnectionLoopFacts.
Context {baldr : Baldr} {builder : GraphTileBuilder.Ops}.
Variable counts : gmap GraphId nat.
Variable conns : list OSMConnectionEdge.t.


End ConnectionLoopFacts.



(** ** The loop over the connections, for stops in the tile set *)

Section ConnectionLoopEnds.
Context {baldr : Baldr} {builder : GraphTileBuilder.Ops}.
Variable fuel : nat.
Variable counts : gmap GraphId nat.
Variable conns : list OSMConnectionEdge.t.

(** When the loop over the connections of a node ends, the next
    connection, if there is one, is not one of this node. *)
Lemma connection_loop_stops n edge_index : forall st st',
  connection_loop counts conns n edge_index st = Ok st' ->
  forall c,
    conns !! rs_added_edges st' = Some c ->
    id (OSMConnectionEdge.osm_node c) <> rs_nodeid st.
Proof.
  induction n as [|n IH]; intros st st' Hrun c Hc; simpl in Hrun;
    [discriminate|].
  destruct (conns !! rs_added_edges st) as [conn|] eqn:Hconn.
  2:{ inversion Hrun; subst st'. rewrite Hconn in Hc. discriminate. }
  destruct (id (OSMConnectionEdge.osm_node conn) =? rs_nodeid st) eqn:Hid.
  2:{ inversion Hrun; subst st'. rewrite Hconn in Hc.
      inversion Hc; subst c. apply Nat.eqb_neq in Hid. exact Hid. }
  destruct (Is_Valid (GetGraphId (OSMConnectionEdge.stop_node conn) counts));
    simpl in Hrun.
  2:{ apply (IH _ _ Hrun _ Hc). }
  destruct (GraphTileBuilder.AddEdgeInfo 0 (OSMConnectionEdge.osm_node conn)
              (GetGraphId (OSMConnectionEdge.stop_node conn) counts)
              (OSMConnectionEdge.shape conn) (rs_tables st))
    as [[offset added] tables'].
  apply (IH _ _ Hrun _ Hc).
Qed.



End ConnectionLoopEnds.


(** ** [AddOSMConnection] *)

Section AddOSMConnectionFacts.
Context {baldr : Baldr} {geo : midgard.Ops}.

(** [std::max(1.0f, x)] is [x] when [x] is above 1.0 and 1.0 otherwise. *)
Lemma f_max_one x :
  f_max f_one x = if SFltb f_one x then x else f_one.
Proof. reflexivity. Qed.

(** C7.  When the search has found a closest edge, the test on the two
    nodes passes, and the connections added are: one to the start node,
    with the shape from the start node to the closest point and on to the
    stop, exactly when the tile base of the stop is the tile base of the
    start node; then one to the end node, with the shape from the end node
    back to the closest point and on to the stop, exactly when the tile base
    of the stop is the tile base of the end node and the start and end nodes
    have the same tile id.  The length of each is [std::max] of 1.0 and the
    length of its shape: the length of the shape when that is above 1.0,
    and 1.0 otherwise. *)
Theorem AddOSMConnection_connections (stop : Transit_Stop.t)
  (tile : GraphTile.t) (connection_edges : list OSMConnectionEdge.t)
  (st : Closest) :
  closest_search (Transit_Stop.lon stop, Transit_Stop.lat stop)
    (Transit_Stop.osm_way_id stop) tile = Ok st ->
  Is_Valid (startnode st) || Is_Valid (endnode st) = true ->
  (0 <= snd (closest st) < Z.of_nat (List.length (closest_shape st)))%Z ->
  let stop_ll := (Transit_Stop.lon stop, Transit_Stop.lat stop) in
  let shape :=
    take (S (Z.to_nat (snd (closest st)))) (closest_shape st) ++
    [fst (fst (closest st)); stop_ll] in
  let shape2 :=
    rev (drop (Z.to_nat (snd (closest st) + 1)) (closest_shape st)) ++
    [fst (fst (closest st)); stop_ll] in
  let to_start :=
    OSMConnectionEdge.mk (startnode st) (Transit_Stop.graphid stop)
      (f_max f_one (midgard.length shape)) shape in
  let to_end :=
    OSMConnectionEdge.mk (endnode st) (Transit_Stop.graphid stop)
      (f_max f_one (midgard.length shape2)) shape2 in
  AddOSMConnection stop tile connection_edges
  = Ok (connection_edges ++
        (if bool_decide (Tile_Base (Transit_Stop.graphid stop)
                         = Tile_Base (startnode st))
         then [to_start] else []) ++
        (if bool_decide (Tile_Base (Transit_Stop.graphid stop)
                         = Tile_Base (endnode st))
            && (tileid (startnode st) =? tileid (endnode st))
         then [to_end] else [])) /\
  OSMConnectionEdge.length to_start
  = (if SFltb f_one (midgard.length shape) then midgard.length shape
     else f_one) /\
  OSMConnectionEdge.length to_end
  = (if SFltb f_one (midgard.length shape2) then midgard.length shape2
     else f_one).
Proof.
  intros Hsearch Hfound Hindex. cbv zeta.
  split; [|split; reflexivity].
  unfold AddOSMConnection. rewrite Hsearch. cbn [Res.bind].
  unfold connect.
  assert (Hguard : negb (Is_Valid (startnode st))
                   && negb (Is_Valid (endnode st)) = false).
  { rewrite <- negb_orb, Hfound. reflexivity. }
  rewrite Hguard.
  unfold shape_from_start, shape_from_end.
  destruct (Z.ltb_spec (snd (closest st)) 0) as [Hneg|_]; [lia|].
  destruct (Z.leb_spec (Z.of_nat (List.length (closest_shape st)))
              (snd (closest st))) as [Hpast|_]; [lia|].
  destruct (Z.ltb_spec (snd (closest st)) (-1)) as [Hneg|_]; [lia|].
  cbn [orb].
  destruct (bool_decide (Tile_Base (Transit_Stop.graphid stop)
                         = Tile_Base (startnode st)));
    destruct (bool_decide (Tile_Base (Transit_Stop.graphid stop)
                           = Tile_Base (endnode st)));
    destruct (tileid (startnode st) =? tileid (endnode st));
    cbn [Res.bind andb]; rewrite ?app_nil_r, <- ?app_assoc; reflexivity.
Qed.

End AddOSMConnectionFacts.

Lemma AddOSMConnection_connections_witness :
  AddOSMConnection (baldr := Scenario.baldr) (geo := Scenario.geo)
    ScenarioTransit.stop0 ScenarioTile.tile []
  = Ok [OSMConnectionEdge.mk (mkGraphId 0 2 0) (mkGraphId 0 2 0) f_one
          [(f_zero, f_zero); (f_zero, f_zero); (f_zero, f_zero)];
        OSMConnectionEdge.mk (mkGraphId 0 2 1) (mkGraphId 0 2 0) f_one
          [(f_one, f_zero); (f_zero, f_zero); (f_zero, f_zero)]].
Proof.
  apply (proj1 (AddOSMConnection_connections (baldr := Scenario.baldr)
                  (geo := Scenario.geo) ScenarioTransit.stop0
                  ScenarioTile.tile [] ScenarioTile.closest0
                  ltac:(vm_compute; reflexivity)
                  ltac:(vm_compute; reflexivity)
                  ltac:(vm_compute; split; [discriminate|reflexivity]))).
Defined.

(** * More properties *)

(** ** The order of the connections *)

(** X1.  [operator <] of [OSMConnectionEdge] is a strict weak ordering, as
    [std::sort] asks of it: no connection is less than itself, the order is
    transitive, and so is the relation of two connections neither of which
    is less than the other; two connections are in that relation exactly
    when their OSM nodes have the same tile id and the same id. *)
Theorem OSMConnectionEdge_less_strict_weak :
  (forall a, OSMConnectionEdge_less a a = false) /\
  (forall a b c,
      OSMConnectionEdge_less a b = true ->
      OSMConnectionEdge_less b c = true ->
      OSMConnectionEdge_less a c = true) /\
  (forall a b c,
      OSMConnectionEdge_less a b = false ->
      OSMConnectionEdge_less b a = false ->
      OSMConnectionEdge_less b c = false ->
      OSMConnectionEdge_less c b = false ->
      OSMConnectionEdge_less a c = false /\
      OSMConnectionEdge_less c a = false) /\
  (forall a b,
      OSMConnectionEdge_less a b = false /\
      OSMConnectionEdge_less b a = false <->
      tileid (OSMConnectionEdge.osm_node a)
      = tileid (OSMConnectionEdge.osm_node b) /\
      id (OSMConnectionEdge.osm_node a) = id (OSMConnectionEdge.osm_node b)).
Proof.
  unfold OSMConnectionEdge_less.
  repeat split; intros;
    repeat match goal with
           | H : context [?x =? ?y] |- _ =>
               destruct (Nat.eqb_spec x y)
           | |- context [?x =? ?y] => destruct (Nat.eqb_spec x y)
           | H : (_ <? _) = true |- _ => apply Nat.ltb_lt in H
           | H : (_ <? _) = false |- _ => apply Nat.ltb_ge in H
           | |- (_ <? _) = true => apply Nat.ltb_lt
           | |- (_ <? _) = false => apply Nat.ltb_ge
           | H : _ /\ _ |- _ => destruct H
           end; try lia.
Qed.

(** ** The tiles of the threads *)

Section DivvyFacts.
Variable tiles_size threads : nat.
Hypothesis threads_pos : 0 < threads.

Lemma at_ceiling_lt :
  tiles_size - threads * (tiles_size / threads) < threads /\
  tiles_size
  = threads * (tiles_size / threads)
    + (tiles_size - threads * (tiles_size / threads)).
Proof.
  pose proof (Nat.div_mod_eq tiles_size threads) as Hdm.
  pose proof (Nat.mod_upper_bound tiles_size threads ltac:(lia)) as Hub.
  lia.
Qed.

Lemma range_start_S i :
  range_start tiles_size threads (S i)
  = range_start tiles_size threads i + tile_count tiles_size threads i.
Proof using threads_pos.
  unfold range_start, tile_count.
  destruct (Nat.ltb_spec i (tiles_size - threads * (tiles_size / threads)));
    lia.
Qed.

Lemma range_start_le i :
  i <= threads -> range_start tiles_size threads i <= tiles_size.
Proof.
  intros Hi. destruct at_ceiling_lt as [Hlt Heq].
  unfold range_start. nia.
Qed.

Lemma range_start_end : range_start tiles_size threads threads = tiles_size.
Proof.
  destruct at_ceiling_lt as [Hlt Heq]. unfold range_start. lia.
Qed.

Lemma start_threads_spec k : forall a rs,
  a + k <= threads ->
  foldM (start_thread tiles_size threads) (seq a k)
    (range_start tiles_size threads a, rs)
  = Ok (range_start tiles_size threads (a + k),
        rs ++ ((fun i => (range_start tiles_size threads i,
                          range_start tiles_size threads (S i)))
                 <$> seq a k)).
Proof.
  induction k as [|k IH]; intros a rs Hk; simpl.
  - rewrite Nat.add_0_r, app_nil_r. reflexivity.
  - unfold start_thread at 1. cbn [fst snd].
    rewrite <- range_start_S.
    pose proof (range_start_le (S a) ltac:(lia)) as Hle.
    destruct (Nat.ltb_spec tiles_size (range_start tiles_size threads (S a)))
      as [Hgt|_]; [lia|].
    cbn [Res.bind]. rewrite IH by lia.
    rewrite <- app_assoc. simpl. do 3 f_equal. lia.
Qed.

Lemma positions_concat k : forall a,
  concat (positions
            <$> ((fun i => (range_start tiles_size threads i,
                            range_start tiles_size threads (S i)))
                   <$> seq a k))
  = seq (range_start tiles_size threads a)
      (range_start tiles_size threads (a + k)
       - range_start tiles_size threads a).
Proof.
  assert (Hmono : forall i,
             range_start tiles_size threads i
             <= range_start tiles_size threads (S i)).
  { intros i. rewrite range_start_S. lia. }
  assert (Hmono' : forall j i,
             range_start tiles_size threads i
             <= range_start tiles_size threads (i + j)).
  { induction j as [|j IHj]; intros i.
    - rewrite Nat.add_0_r. lia.
    - replace (i + S j) with (S (i + j)) by lia.
      specialize (IHj i). specialize (Hmono (i + j)). lia. }
  induction k as [|k IH]; intros a; simpl.
  - rewrite Nat.add_0_r, Nat.sub_diag. reflexivity.
  - rewrite IH. unfold positions at 1. cbn [fst snd].
    pose proof (Hmono a). pose proof (Hmono' k (S a)).
    replace (a + S k) with (S a + k) by lia.
    replace (range_start tiles_size threads (S a + k)
             - range_start tiles_size threads a)
      with ((range_start tiles_size threads (S a)
             - range_start tiles_size threads a)
            + (range_start tiles_size threads (S a + k)
               - range_start tiles_size threads (S a))) by lia.
    rewrite seq_app. do 2 f_equal. lia.
Qed.

End DivvyFacts.

(** X2.  [Build] shares the tiles out among [max(1, concurrency)] threads:
    the loop that starts the threads never moves an iterator past the end;
    the ranges of the threads, taken in the order of the threads, go through
    every position of the sequence of tiles once, in order; thread [i] gets
    the number of tiles that [tile_count] gives it, and no thread gets more
    than one tile more than another. *)
Theorem divvy_partitions (tiles_size concurrency : nat) :
  exists ranges,
    divvy tiles_size concurrency = Ok ranges /\
    List.length ranges = Nat.max 1 concurrency /\
    concat (positions <$> ranges) = seq 0 tiles_size /\
    (forall i r,
        ranges !! i = Some r ->
        snd r - fst r
        = tile_count tiles_size (Nat.max 1 concurrency) i) /\
    (forall r r',
        r ∈ ranges -> r' ∈ ranges ->
        snd r - fst r <= S (snd r' - fst r')).
Proof.
  set (n := Nat.max 1 concurrency).
  assert (Hn : 0 < n) by (unfold n; lia).
  exists ((fun i => (range_start tiles_size n i, range_start tiles_size n (S i)))
            <$> seq 0 n).
  assert (Hcount : forall i r,
             ((fun i => (range_start tiles_size n i,
                         range_start tiles_size n (S i))) <$> seq 0 n) !! i
             = Some r ->
             snd r - fst r = tile_count tiles_size n i).
  { intros i r Hr. rewrite list_lookup_fmap in Hr.
    destruct (seq 0 n !! i) as [x|] eqn:Hx; [|discriminate].
    apply lookup_seq in Hx. destruct Hx as [-> _]. simpl in Hr.
    inversion Hr; subst r. cbn [fst snd].
    rewrite (range_start_S tiles_size n Hn i). lia. }
  split; [|split; [|split; [|split]]].
  - unfold divvy, threads_size. fold n.
    change 0 with (range_start tiles_size n 0) at 2.
    rewrite (start_threads_spec tiles_size n Hn n 0 []) by lia.
    reflexivity.
  - rewrite length_fmap, length_seq. reflexivity.
  - rewrite (positions_concat tiles_size n Hn n 0). simpl.
    rewrite (range_start_end tiles_size n Hn). unfold range_start. simpl.
    rewrite Nat.sub_0_r. reflexivity.
  - exact Hcount.
  - intros r r' Hr Hr'.
    apply list_elem_of_lookup in Hr, Hr'.
    destruct Hr as (i & Hi), Hr' as (i' & Hi').
    rewrite (Hcount _ _ Hi), (Hcount _ _ Hi').
    unfold tile_count.
    destruct (i <? _), (i' <? _); lia.
Qed.

(** Seven tiles for three threads: three, two and two. *)
Example divvy_seven_three : divvy 7 3 = Ok [(0, 3); (3, 5); (5, 7)].
Proof. reflexivity. Qed.

(** ** [GetGraphId] on two stops *)

Section GraphIdMore.
Context {baldr : Baldr}.

(** X3.  [GetGraphId] gives two source ids the same valid graph id only
    when they are the same id; and the id that it gives is the source id
    plus the node count of the tile, so it is not the id of one of the
    first [count] nodes of the tile. *)
Theorem GetGraphId_injective (a b : GraphId) (counts : gmap GraphId nat) :
  Is_Valid (GetGraphId a counts) = true ->
  GetGraphId a counts = GetGraphId b counts ->
  a = b /\
  exists count,
    counts !! Tile_Base a = Some count /\
    id (GetGraphId a counts) = id a + count /\
    count <= id (GetGraphId a counts).
Proof.
  unfold GetGraphId. intros Hvalid Heq.
  destruct (counts !! Tile_Base a) as [ca|] eqn:Ha.
  2:{ rewrite Is_Valid_invalid in Hvalid. discriminate. }
  destruct (counts !! Tile_Base b) as [cb|] eqn:Hb.
  2:{ rewrite Heq, Is_Valid_invalid in Hvalid. discriminate. }
  inversion Heq as [[Ht Hl Hi]].
  assert (Hbase : Tile_Base a = Tile_Base b).
  { unfold Tile_Base. rewrite Ht, Hl. reflexivity. }
  rewrite Hbase, Hb in Ha. inversion Ha; subst cb.
  split; [|exists ca; simpl; repeat split; lia].
  destruct a, b. simpl in *. f_equal; lia.
Qed.

End GraphIdMore.

Lemma GetGraphId_injective_witness :
  mkGraphId 0 2 1 = mkGraphId 0 2 1 /\
  exists count,
    ScenarioTile.tile_node_counts !! Tile_Base (mkGraphId 0 2 1) = Some count /\
    id (GetGraphId (baldr := Scenario.baldr) (mkGraphId 0 2 1)
          ScenarioTile.tile_node_counts)
    = id (mkGraphId 0 2 1) + count /\
    count <= id (GetGraphId (baldr := Scenario.baldr) (mkGraphId 0 2 1)
                   ScenarioTile.tile_node_counts).
Proof.
  apply (GetGraphId_injective (baldr := Scenario.baldr) (mkGraphId 0 2 1)
           (mkGraphId 0 2 1) ScenarioTile.tile_node_counts).
  - vm_compute. reflexivity.
  - reflexivity.
Defined.

(** ** [ProcessStopPairs]: the days of the week, the access flags, the log *)

Section ScheduleFacts.
Context {calendar : DateTime.Ops}.

Lemma dow_mask_step_bits m x dow k :
  (0 <= m)%Z ->
  (0 <= dow_mask_step m x dow)%Z /\
  Z.testbit (dow_mask_step m x dow) (Z.of_nat k)
  = Z.testbit m (Z.of_nat k) || (dow && (x <? 7) && (k =? x)).
Proof.
  intros Hm. unfold dow_mask_step.
  destruct dow; [|split; [exact Hm|rewrite orb_false_r; reflexivity]].
  assert (Hbit : forall j, j < 7 ->
            (0 <= Z.lor m (2 ^ Z.of_nat j))%Z /\
            Z.testbit (Z.lor m (2 ^ Z.of_nat j)) (Z.of_nat k)
            = Z.testbit m (Z.of_nat k) || (k =? j)).
  { intros j Hj. split.
    - apply Z.lor_nonneg. split; [exact Hm|]. apply Z.pow_nonneg. lia.
    - rewrite Z.lor_spec.
      rewrite (Z.pow2_bits_eqb (Z.of_nat j)) by apply Nat2Z.is_nonneg.
      f_equal.
      destruct (Z.eqb_spec (Z.of_nat j) (Z.of_nat k)),
               (Nat.eqb_spec k j); try reflexivity; lia. }
  destruct x as [|[|[|[|[|[|[|x]]]]]]];
    [apply (Hbit 0 ltac:(lia)) | apply (Hbit 1 ltac:(lia))
    |apply (Hbit 2 ltac:(lia)) | apply (Hbit 3 ltac:(lia))
    |apply (Hbit 4 ltac:(lia)) | apply (Hbit 5 ltac:(lia))
    |apply (Hbit 6 ltac:(lia)) |].
  split; [exact Hm|].
  destruct (Nat.eqb_spec k (S (S (S (S (S (S (S x)))))))); simpl;
    rewrite orb_false_r; reflexivity.
Qed.

Lemma dow_mask_loop_bits flags : forall x m k,
  (0 <= m)%Z ->
  (0 <= dow_mask_loop x flags m)%Z /\
  Z.testbit (dow_mask_loop x flags m) (Z.of_nat k)
  = Z.testbit m (Z.of_nat k)
    || ((x <=? k) && (k <? 7) && default false (flags !! (k - x))).
Proof.
  induction flags as [|dow flags IH]; intros x m k Hm; simpl.
  - split; [exact Hm|]. rewrite andb_false_r, orb_false_r. reflexivity.
  - destruct (dow_mask_step_bits m x dow k Hm) as [Hnn Hstep].
    destruct (IH (S x) _ k Hnn) as [Hnn' Hrest].
    split; [exact Hnn'|]. rewrite Hrest, Hstep.
    destruct (Nat.leb_spec x k) as [Hle|Hgt].
    + destruct (Nat.eqb_spec k x) as [->|Hne].
      * rewrite Nat.sub_diag. cbn [lookup list_lookup default].
        destruct (Nat.leb_spec (S x) x); [lia|].
        destruct dow, (x <? 7), (Z.testbit m (Z.of_nat x)); reflexivity.
      * destruct (Nat.leb_spec (S x) k); [|lia].
        replace (k - x) with (S (k - S x)) by lia.
        cbn [lookup list_lookup].
        destruct dow, (x <? 7), (Z.testbit m (Z.of_nat k)); reflexivity.
    + destruct (Nat.eqb_spec k x); [lia|].
      destruct (Nat.leb_spec (S x) k); [lia|].
      destruct dow, (x <? 7), (Z.testbit m (Z.of_nat k)); reflexivity.
Qed.

Lemma bits_below (m : Z) (n : nat) :
  (0 <= m)%Z ->
  (forall k, n <= k -> Z.testbit m (Z.of_nat k) = false) ->
  (m < 2 ^ Z.of_nat n)%Z.
Proof.
  intros Hm Hbits.
  destruct (Z.eq_dec m 0%Z) as [->|Hnz].
  { apply Z.pow_pos_nonneg; lia. }
  apply Z.log2_lt_pow2; [lia|].
  destruct (Z.lt_ge_cases (Z.log2 m) (Z.of_nat n)) as [Hlt|Hge]; [exact Hlt|].
  pose proof (Z.bit_log2 m ltac:(lia)) as Hbit.
  rewrite <- (Z2Nat.id (Z.log2 m)) in Hbit by (apply Z.log2_nonneg).
  rewrite Hbits in Hbit by lia. discriminate.
Qed.

(** X4.  The day-of-week mask of every departure that [ProcessStopPairs]
    returns is a number below 128 whose bit [x], for [x] from 0 (Monday) to
    6 (Sunday), is the flag at position [x] of [service_days_of_week] of its
    stop pair, and is not set when the stop pair has no flag at that
    position; flags at positions past 6 are not looked at. *)
Theorem ProcessStopPairs_dow_mask (transit : Transit.t) (tile_date : Z)
  (sa : gmap GraphId bool) (tile_id : GraphId) (kd : GraphId * Departure.t) :
  kd ∈ departures (ProcessStopPairs transit tile_date sa tile_id) ->
  exists sp,
    sp ∈ Transit.stop_pairs transit /\
    snd kd = departure_of tile_date sp /\
    (0 <= Departure.dow (snd kd) < 128)%Z /\
    forall x,
      Z.testbit (Departure.dow (snd kd)) (Z.of_nat x)
      = (x <? 7)
        && default false (Transit_StopPair.service_days_of_week sp !! x).
Proof.
  intros Hin. rewrite ProcessStopPairs_departures in Hin.
  apply list_elem_of_In, in_map_iff in Hin. destruct Hin as (sp & Hkd & Hsp).
  unfold kept in Hsp. apply filter_In in Hsp. destruct Hsp as [Hsp _].
  exists sp. split; [apply list_elem_of_In; exact Hsp|].
  subst kd. cbn [snd]. split; [reflexivity|].
  cbn [Departure.dow departure_of].
  assert (Hbits : forall x,
             Z.testbit
               (dow_mask_loop 0 (Transit_StopPair.service_days_of_week sp)
                  kDOWNone) (Z.of_nat x)
             = (x <? 7)
               && default false
                    (Transit_StopPair.service_days_of_week sp !! x)).
  { intros x.
    destruct (dow_mask_loop_bits (Transit_StopPair.service_days_of_week sp)
                0 kDOWNone x ltac:(unfold kDOWNone; lia)) as [_ ->].
    unfold kDOWNone. rewrite Z.bits_0, Nat.sub_0_r. reflexivity. }
  split; [|exact Hbits].
  destruct (dow_mask_loop_bits (Transit_StopPair.service_days_of_week sp)
              0 kDOWNone 0 ltac:(unfold kDOWNone; lia)) as [Hnn _].
  split; [exact Hnn|].
  apply (bits_below _ 7 Hnn). intros k Hk. rewrite Hbits.
  destruct (Nat.ltb_spec k 7); [lia|]. reflexivity.
Qed.

Lemma last_cons_filter {A : Type} (p : A -> bool) (a : A) (l : list A) :
  last (List.filter p (a :: l))
  = match last (List.filter p l) with
    | Some x => Some x
    | None => if p a then Some a else None
    end.
Proof.
  simpl. destruct (p a); [|destruct (last (List.filter p l)); reflexivity].
  destruct (List.filter p l) as [|b l'] eqn:Hl; [reflexivity|].
  rewrite last_cons. destruct (last (b :: l')) eqn:Hlast; [reflexivity|].
  apply last_None in Hlast. discriminate.
Qed.

Lemma stop_pair_loop_access tile_date g sps : forall st,
  stop_access (fold_left (stop_pair_step tile_date) sps st) !! g
  = match last (List.filter (touches g) (kept tile_date sps)) with
    | Some sp => Some (Transit_StopPair.bikes_allowed sp)
    | None => stop_access st !! g
    end.
Proof.
  induction sps as [|sp sps IH]; intros st; [reflexivity|].
  cbn [fold_left]. rewrite IH. unfold kept. cbn [List.filter].
  unfold stop_pair_step.
  destruct (initial_days tile_date sp =? 0)%Z; cbn [negb]; [reflexivity|].
  rewrite last_cons_filter. fold (kept tile_date sps).
  destruct (last (List.filter (touches g) (kept tile_date sps)));
    [reflexivity|].
  cbn [stop_access departure_of Departure.dest_pbf_graphid
       Departure.orig_pbf_graphid].
  unfold touches.
  destruct (decide (Transit_StopPair.destination_graphid sp = g)) as [Hd|Hd].
  { rewrite (bool_decide_eq_true_2 _ Hd), orb_true_r, Hd, lookup_insert_eq.
    reflexivity. }
  rewrite (bool_decide_eq_false_2 _ Hd), orb_false_r.
  rewrite lookup_insert_ne by exact Hd.
  destruct (decide (Transit_StopPair.origin_graphid sp = g)) as [Ho|Ho].
  { rewrite (bool_decide_eq_true_2 _ Ho), Ho, lookup_insert_eq. reflexivity. }
  rewrite (bool_decide_eq_false_2 _ Ho), lookup_insert_ne by exact Ho.
  reflexivity.
Qed.

(** X5.  The access flag that [ProcessStopPairs] leaves for a stop is the
    [bikes_allowed] of the last stop pair, among those that pass the test on
    the initial days bitmap, that leaves from the stop or arrives at it: a
    later stop pair overwrites the flag of an earlier one.  A stop that no
    such stop pair names keeps the flag that it had, or has none; a stop
    pair that is rejected sets no flag. *)
Theorem ProcessStopPairs_stop_access (transit : Transit.t) (tile_date : Z)
  (sa : gmap GraphId bool) (tile_id g : GraphId) :
  stop_access (ProcessStopPairs transit tile_date sa tile_id) !! g
  = match last (List.filter (touches g)
                  (kept tile_date (Transit.stop_pairs transit))) with
    | Some sp => Some (Transit_StopPair.bikes_allowed sp)
    | None => sa !! g
    end.
Proof.
  unfold ProcessStopPairs.
  destruct (Transit.stop_pairs transit) as [|sp sps] eqn:Hsps; [reflexivity|].
  cbn [stop_access]. rewrite stop_pair_loop_access. reflexivity.
Qed.




End ScheduleFacts.

Lemma ProcessStopPairs_dow_mask_witness :
  exists sp,
    sp ∈ Transit.stop_pairs ScenarioSchedule.mixed /\
    departure_of (calendar := Scenario.calendar) 0
      (ScenarioTransit.pair_on_pivot [] [])
    = departure_of (calendar := Scenario.calendar) 0 sp /\
    (0 <= 127 < 128)%Z /\
    forall x,
      Z.testbit 127 (Z.of_nat x)
      = (x <? 7)
        && default false (Transit_StopPair.service_days_of_week sp !! x).
Proof.
  apply (ProcessStopPairs_dow_mask (calendar := Scenario.calendar)
           ScenarioSchedule.mixed 0 ∅ ScenarioTransit.tile
           (mkGraphId 0 2 0,
            departure_of (calendar := Scenario.calendar) 0
              (ScenarioTransit.pair_on_pivot [] []))).
  vm_compute. constructor.
Defined.

(** In the scenario the stop pair that runs forbids bikes and the one that
    does not run allows them: both stops end with the flag of the first. *)
Example stop_access_scenario :
  stop_access (ProcessStopPairs (calendar := Scenario.calendar)
                 ScenarioSchedule.mixed 0 ∅ ScenarioTransit.tile)
  = {[ mkGraphId 0 2 0 := false; mkGraphId 0 2 1 := false ]}.
Proof. vm_compute. reflexivity. Qed.


(** ** [AddRoutes] and the use of the edge of a line *)

Section AddRoutesFacts.
Context {baldr : Baldr} {builder : GraphTileBuilder.Ops} {geo : midgard.Ops}.
Variable AddTransitRoute :
  nat -> Transit_Route.t -> GraphTileBuilder.Tables -> GraphTileBuilder.Tables.

Lemma add_routes_lookup routes : forall n st z,
  fst (fold_left (add_route AddTransitRoute)
         (imap (fun i r => (n + i, r)) routes) st) !! z
  = if bool_decide (Z.of_nat n <= z < Z.of_nat (n + List.length routes))%Z
    then Transit_Route.vehicle_type <$> routes !! (Z.to_nat z - n)
    else fst st !! z.
Proof.
  induction routes as [|r routes IH]; intros n st z.
  - simpl. rewrite bool_decide_eq_false_2 by lia. reflexivity.
  - rewrite imap_cons. cbn [fold_left].
    rewrite (imap_ext _ (fun i r => (S n + i, r))).
    2:{ intros i x _. simpl. f_equal. lia. }
    rewrite IH. unfold add_route. cbn [fst snd].
    rewrite Nat.add_0_r. cbn [List.length].
    destruct (decide (Z.of_nat (S n) <= z
                      < Z.of_nat (S n + List.length routes))%Z)
      as [Hin|Hout].
    + rewrite bool_decide_eq_true_2 by exact Hin.
      rewrite bool_decide_eq_true_2 by lia.
      replace (Z.to_nat z - n) with (S (Z.to_nat z - S n)) by lia.
      reflexivity.
    + rewrite bool_decide_eq_false_2 by exact Hout.
      destruct (decide (z = Z.of_nat n)) as [->|Hne].
      * rewrite lookup_insert_eq, bool_decide_eq_true_2 by lia.
        rewrite Nat2Z.id, Nat.sub_diag. reflexivity.
      * rewrite lookup_insert_ne by congruence.
        rewrite bool_decide_eq_false_2 by lia. reflexivity.
Qed.

Lemma AddRoutes_lookup transit keys tables z :
  fst (AddRoutes AddTransitRoute transit keys tables) !! z
  = if (0 <=? z)%Z
    then Transit_Route.vehicle_type <$> Transit.routes transit !! Z.to_nat z
    else None.
Proof.
  unfold AddRoutes.
  rewrite (add_routes_lookup (Transit.routes transit) 0 (∅, tables) z).
  cbn [fst]. rewrite lookup_empty, Nat.sub_0_r.
  destruct (Z.leb_spec 0 z) as [Hz|Hz].
  - destruct (decide (z < Z.of_nat (List.length (Transit.routes transit)))%Z)
      as [Hlt|Hge].
    + rewrite bool_decide_eq_true_2 by (simpl; lia). reflexivity.
    + rewrite bool_decide_eq_false_2 by (simpl; lia).
      rewrite lookup_ge_None_2 by lia. reflexivity.
  - rewrite bool_decide_eq_false_2 by lia. reflexivity.
Qed.

(** X7.  The map that [AddRoutes] returns has the indices of the routes of
    the tile as its keys, 0 to [routes_size - 1], and gives each index the
    vehicle type of the route at that index; whatever [keys] holds. *)
Theorem AddRoutes_route_types (transit : Transit.t) (keys : gset Z)
  (tables : GraphTileBuilder.Tables) (z : Z) :
  fst (AddRoutes AddTransitRoute transit keys tables) !! z
  = (if (0 <=? z)%Z
     then Transit_Route.vehicle_type <$> Transit.routes transit !! Z.to_nat z
     else None) /\
  (is_Some (fst (AddRoutes AddTransitRoute transit keys tables) !! z) <->
   (0 <= z < Z.of_nat (List.length (Transit.routes transit)))%Z).
Proof.
  split; [apply AddRoutes_lookup|].
  rewrite AddRoutes_lookup.
  destruct (Z.leb_spec 0 z) as [Hz|Hz].
  - rewrite fmap_is_Some, lookup_lt_is_Some. lia.
  - split; [intros [x Hx]; discriminate|lia].
Qed.

Variable read_pbf : GraphId -> option Transit.t.
Variable counts : gmap GraphId nat.
Variable tileid0 : GraphId.
Variable transit : Transit.t.

(** X8.  With the route types that [AddRoutes] returns, the edge that
    [AddToGraph] makes for a transit line whose end stop lies in the tile
    set is a bus edge when the route at the route index of the line has
    vehicle type 3 and a rail edge for every other vehicle type, and it
    carries the line id of the line; a line is only gone through without a
    fault when its route index is the index of a route of the tile. *)
Theorem transit_line_use (routes : Transit.t) (keys : gset Z)
  (tables : GraphTileBuilder.Tables) (stopll : PointLL)
  (origin_node : GraphId) (node_edge_index : nat) (line : TransitLine.t)
  (st st' : StopState) :
  Is_Valid (GetGraphId (TransitLine.dest_pbf_graphid line) counts) = true ->
  transit_line read_pbf counts
    (fst (AddRoutes AddTransitRoute routes keys tables)) tileid0 transit stopll
    origin_node node_edge_index line st = Ok st' ->
  exists r e,
    (0 <= TransitLine.routeid line)%Z /\
    Transit.routes routes !! Z.to_nat (TransitLine.routeid line) = Some r /\
    ss_directededges st' = ss_directededges st ++ [e] /\
    DirectedEdge.lineid e = TransitLine.lineid line /\
    DirectedEdge.use e
    = (if (Transit_Route.vehicle_type r =? 3)%Z then kBus else kRail).
Proof.
  intros Hvalid Hrun. unfold transit_line in Hrun.
  rewrite Hvalid in Hrun. cbn [negb] in Hrun.
  apply bind_Ok in Hrun. destruct Hrun as (endstop & _ & Hrun).
  apply bind_Ok in Hrun. destruct Hrun as (rt & Hrt & Hrun).
  apply of_option_Ok in Hrt. rewrite AddRoutes_lookup in Hrt.
  destruct (Z.leb_spec 0 (TransitLine.routeid line)) as [Hz|Hz];
    [|discriminate].
  destruct (Transit.routes routes !! Z.to_nat (TransitLine.routeid line))
    as [r|] eqn:Hr; [|discriminate].
  simpl in Hrt. inversion Hrt; subst rt; clear Hrt.
  destruct (GraphTileBuilder.AddEdgeInfo _ _ _ _ _) as [[offset added] tables'].
  inversion Hrun; subst st'; clear Hrun. cbn [ss_directededges].
  eexists r, _. split; [exact Hz|]. split; [reflexivity|].
  split; [reflexivity|]. split; [reflexivity|].
  cbn [DirectedEdge.use]. unfold GetTransitUse.
  destruct (Transit_Route.vehicle_type r) as [|p|p]; try reflexivity.
  repeat (destruct p as [p|p|]; try reflexivity).
Qed.

End AddRoutesFacts.

(** The route types of the scenario: route 0 is a bus, route 1 a tram. *)
Example route_types_scenario :
  ScenarioLine.route_types = {[ 0%Z := 3%Z; 1%Z := 0%Z ]}.
Proof. vm_compute. reflexivity. Qed.

Lemma transit_line_use_witness :
  exists r e,
    (0 <= 0)%Z /\
    Transit.routes ScenarioBuild.transit !! 0 = Some r /\
    ss_directededges ScenarioLine.after = [] ++ [e] /\
    DirectedEdge.lineid e = 1%Z /\
    DirectedEdge.use e
    = (if (Transit_Route.vehicle_type r =? 3)%Z then kBus else kRail).
Proof.
  apply (transit_line_use (baldr := Scenario.baldr) (geo := Scenario.geo)
           ScenarioLine.AddTransitRoute ScenarioTile.read_pbf
           ScenarioTile.tile_node_counts (mkGraphId 0 2 0)
           ScenarioBuild.transit ScenarioBuild.transit ∅
           ScenarioLine.no_tables (f_zero, f_zero) (mkGraphId 0 2 2) 0 ScenarioLine.line
           ScenarioLine.before ScenarioLine.after).
  - vm_compute. reflexivity.
  - vm_compute. reflexivity.
Defined.

(** ** [build]: the stop edge map and the line ids of the departures *)

Section MapFacts.
Context {baldr : Baldr} {builder : GraphTileBuilder.Ops}.
Context {stl : unordered_multimap.Ops}.
Hypothesis less_asym :
  forall a b, GraphId_less a b = true -> GraphId_less b a = false.

Lemma map_insert_append {V : Type} (k : GraphId) (v : V) m :
  Forall (fun kv => GraphId_less (fst kv) k = true) m ->
  map_insert k v m = m ++ [(k, v)].
Proof using less_asym.
  induction m as [|[k' v'] m IH]; intros Hall; [reflexivity|].
  apply Forall_cons in Hall. destruct Hall as [Hk' Hall]. simpl in *.
  rewrite (less_asym _ _ Hk'), Hk', IH by exact Hall. reflexivity.
Qed.

Lemma departure_step_linked st dep :
  edges_known st ->
  edges_known (departure_step st dep) /\
  (exists more, lines (departure_step st dep) = lines st ++ more) /\
  exists line off,
    line ∈ lines (departure_step st dep) /\
    line_key line = dep_key dep /\
    GraphTileBuilder.transit_departures (tilebuilder (departure_step st dep))
    = GraphTileBuilder.transit_departures (tilebuilder st)
      ++ [form_departure (TransitLine.lineid line) dep off].
Proof.
  intros Hknown. unfold departure_step.
  destruct (GraphTileBuilder.AddName (Departure.headsign dep)
              (GraphTileBuilder.tables (tilebuilder st))) as [off tables'].
  destruct (unique_transit_edges st
              !! (Departure.route dep, Departure.dest_pbf_graphid dep))
    as [l|] eqn:Hm; cbn.
  - split; [exact Hknown|]. split; [exists []; rewrite app_nil_r; reflexivity|].
    destruct (Hknown _ _ Hm) as (line & Hin & Hkey & Hid).
    exists line, off. rewrite Hid. repeat split; assumption.
  - split; [|split].
    + intros key l Hl. cbn [unique_transit_edges lines] in Hl |- *.
      apply lookup_insert_Some in Hl.
      destruct Hl as [[<- <-]|[Hne Hl]].
      * eexists. split; [apply elem_of_app; right; apply list_elem_of_here|].
        split; reflexivity.
      * destruct (Hknown _ _ Hl) as (line & Hin & Hkey & Hid).
        exists line. split; [apply elem_of_app; left; exact Hin|]. auto.
    + eexists. reflexivity.
    + eexists _, off. split; [apply elem_of_app; right; apply list_elem_of_here|].
      split; reflexivity.
Qed.

Lemma departure_loop_linked ds : forall st,
  edges_known st ->
  let final := fold_left departure_step ds st in
  edges_known final /\
  (exists more, lines final = lines st ++ more) /\
  exists tds,
    GraphTileBuilder.transit_departures (tilebuilder final)
    = GraphTileBuilder.transit_departures (tilebuilder st) ++ tds /\
    Forall2 (fun td dep =>
               exists line off,
                 line ∈ lines final /\ line_key line = dep_key dep /\
                 td = form_departure (TransitLine.lineid line) dep off)
      tds ds.
Proof.
  induction ds as [|dep ds IH]; intros st Hknown; cbn zeta.
  - split; [exact Hknown|]. split; [exists []; rewrite app_nil_r; reflexivity|].
    exists []. rewrite app_nil_r. split; [reflexivity|constructor].
  - cbn [fold_left].
    destruct (departure_step_linked st dep Hknown)
      as (Hknown1 & (more1 & Hmore1) & line & off & Hin & Hkey & Htd).
    destruct (IH _ Hknown1) as (Hknown2 & (more2 & Hmore2) & tds & Htds & Hall).
    split; [exact Hknown2|]. split.
    { exists (more1 ++ more2). rewrite Hmore2, Hmore1, <- app_assoc.
      reflexivity. }
    exists (form_departure (TransitLine.lineid line) dep off :: tds). split.
    { rewrite Htds, Htd, <- app_assoc. reflexivity. }
    constructor; [|exact Hall].
    exists line, off. split; [|split; [exact Hkey|reflexivity]].
    rewrite Hmore2. apply elem_of_app. left. exact Hin.
Qed.

Lemma stop_step_linked deps st stop :
  Forall (fun kv => GraphId_less (fst kv) (Transit_Stop.graphid stop) = true)
    (b_stop_edge_map st) ->
  exists se tds,
    b_stop_edge_map (stop_step deps st stop)
    = b_stop_edge_map st ++ [(Transit_Stop.graphid stop, se)] /\
    StopEdges.origin_pbf_graphid se = Transit_Stop.graphid stop /\
    StopEdges.intrastation se = [] /\
    GraphTileBuilder.transit_departures (b_tilebuilder (stop_step deps st stop))
    = GraphTileBuilder.transit_departures (b_tilebuilder st) ++ tds /\
    Forall2 (served_by se) tds
      (equal_range deps (Transit_Stop.graphid stop)).
Proof using less_asym.
  intros Hless. unfold stop_step.
  set (st0 := mkDepState _ _ _ _ _ _).
  destruct (departure_loop_linked
              (equal_range deps (Transit_Stop.graphid stop)) st0)
    as (_ & _ & tds & Htds & Hall).
  { intros key l Hl. unfold st0 in Hl. cbn in Hl.
    rewrite lookup_empty in Hl. discriminate. }
  cbn zeta in Htds, Hall.
  eexists _, tds. cbn [b_stop_edge_map b_tilebuilder].
  split; [apply map_insert_append; exact Hless|].
  split; [reflexivity|]. split; [reflexivity|].
  split; [exact Htds|].
  eapply Forall2_impl; [exact Hall|].
  intros td dep (line & off & Hin & Hkey & Htd).
  exists line, off. cbn [StopEdges.lines].
  unfold line_key, dep_key in Hkey. inversion Hkey.
  repeat split; assumption.
Qed.

Lemma stop_loop_linked deps stops : forall st,
  stops_in_order stops ->
  b_stop_edge_map st = [] ->
  let final := fold_left (stop_step deps) stops st in
  exists ses tdss,
    b_stop_edge_map final
    = zip (Transit_Stop.graphid <$> stops) ses /\
    List.length ses = List.length stops /\
    Forall2 (fun stop se =>
               StopEdges.origin_pbf_graphid se = Transit_Stop.graphid stop /\
               StopEdges.intrastation se = []) stops ses /\
    GraphTileBuilder.transit_departures (b_tilebuilder final)
    = GraphTileBuilder.transit_departures (b_tilebuilder st) ++ concat tdss /\
    Forall3 (fun stop se tds =>
               Forall2 (served_by se) tds
                 (equal_range deps (Transit_Stop.graphid stop)))
      stops ses tdss.
Proof using less_asym.
  induction stops as [|stop stops IH] using rev_ind; intros st Hord Hempty;
    cbn zeta.
  - exists [], []. cbn. rewrite Hempty, app_nil_r.
    repeat split; constructor.
  - rewrite fold_left_app. cbn [fold_left].
    destruct (IH st) as (ses & tdss & Hmap & Hlen & Hentries & Htds & Hserved).
    { intros i j si sj Hij Hi Hj. apply (Hord i j); [exact Hij|..].
      - apply lookup_app_l_Some. exact Hi.
      - apply lookup_app_l_Some. exact Hj. }
    { exact Hempty. }
    cbn zeta in *.
    set (mid := fold_left (stop_step deps) stops st) in *.
    destruct (stop_step_linked deps mid stop)
      as (se & tds & Hmap' & Horigin & Hintra & Htds' & Hserved').
    { rewrite Hmap. apply Forall_forall. intros [k se] Hin.
      apply elem_of_zip_l in Hin. cbn [fst].
      apply list_elem_of_fmap in Hin. destruct Hin as (si & -> & Hsi).
      apply list_elem_of_lookup in Hsi. destruct Hsi as (i & Hi).
      apply (Hord i (List.length stops)).
      - apply lookup_lt_Some in Hi. exact Hi.
      - apply lookup_app_l_Some. exact Hi.
      - apply list_lookup_middle. reflexivity. }
    exists (ses ++ [se]), (tdss ++ [tds]).
    split; [|split; [|split; [|split]]].
    + rewrite Hmap', Hmap, fmap_app, zip_with_app.
      * reflexivity.
      * rewrite length_fmap. symmetry. exact Hlen.
    + rewrite !length_app, Hlen. reflexivity.
    + apply Forall2_app; [exact Hentries|]. constructor; [|constructor].
      split; assumption.
    + rewrite Htds', Htds, concat_app, <- app_assoc. simpl.
      rewrite app_nil_r. reflexivity.
    + apply Forall3_app; [exact Hserved|]. constructor; [exact Hserved'|].
      constructor.
Qed.

(** X9.  When the order of graph ids is asymmetric and the stops of the
    tile come in the order of their graph ids, the stop edge map that
    [build] forms has one entry for each stop, in the order of the stops:
    entry [k] has the graph id of stop [k] as its key and as its origin, and
    no intra-station connection. *)
Theorem form_departures_stop_edge_map (transit : Transit.t)
  (deps : list (GraphId * Departure.t)) (tb : GraphTileBuilder.t) :
  stops_in_order (Transit.stops transit) ->
  let m := b_stop_edge_map (form_departures transit deps tb) in
  fst <$> m = Transit_Stop.graphid <$> Transit.stops transit /\
  forall k kse,
    m !! k = Some kse ->
    StopEdges.origin_pbf_graphid (snd kse) = fst kse /\
    StopEdges.intrastation (snd kse) = [] /\
    exists stop,
      Transit.stops transit !! k = Some stop /\
      fst kse = Transit_Stop.graphid stop.
Proof using less_asym.
  intros Hord m. subst m. unfold form_departures.
  destruct (stop_loop_linked deps (Transit.stops transit)
              (mkBuildState 1 tb ∅ ∅ []) Hord eq_refl)
    as (ses & tdss & Hmap & Hlen & Hentries & _ & _).
  cbn zeta in Hmap. rewrite Hmap. split.
  - apply fst_zip. rewrite length_fmap. lia.
  - intros k [key se] Hk. cbn [fst snd].
    apply lookup_zip_with_Some in Hk.
    destruct Hk as (key' & se' & Heq & Hkey & Hse). inversion Heq; subst.
    rewrite list_lookup_fmap in Hkey.
    destruct (Transit.stops transit !! k) as [stop|] eqn:Hstop;
      [|discriminate].
    inversion Hkey; subst key'.
    destruct (Forall2_lookup_lr _ _ _ _ _ _ Hentries Hstop Hse)
      as [Horigin Hintra].
    split; [exact Horigin|]. split; [exact Hintra|].
    exists stop. split; reflexivity.
Qed.

(** X10.  Under the same conditions, the transit departures that [build]
    adds to the tile are, stop after stop, one for each departure of the
    stop, in order, and every one of them carries the line id of a line of
    the entry of its stop in the stop edge map, the line that has the route
    and the destination stop of the departure. *)
Theorem form_departures_served (transit : Transit.t)
  (deps : list (GraphId * Departure.t)) (tb : GraphTileBuilder.t) :
  stops_in_order (Transit.stops transit) ->
  let final := form_departures transit deps tb in
  exists tdss,
    GraphTileBuilder.transit_departures (b_tilebuilder final)
    = GraphTileBuilder.transit_departures tb ++ concat tdss /\
    Forall3 (fun stop kse tds =>
               fst kse = Transit_Stop.graphid stop /\
               Forall2 (served_by (snd kse)) tds
                 (equal_range deps (Transit_Stop.graphid stop)))
      (Transit.stops transit) (b_stop_edge_map final) tdss.
Proof using less_asym.
  intros Hord final. subst final. unfold form_departures.
  destruct (stop_loop_linked deps (Transit.stops transit)
              (mkBuildState 1 tb ∅ ∅ []) Hord eq_refl)
    as (ses & tdss & Hmap & Hlen & _ & Htds & Hserved).
  cbn zeta in Hmap, Htds, Hserved. exists tdss. split; [exact Htds|].
  rewrite Hmap. clear Hmap Htds Hlen Hord.
  induction Hserved as [|stop se tds stops ses tdss' H _ IH];
    [constructor|].
  cbn. constructor; [|exact IH].
  split; [reflexivity|exact H].
Qed.

End MapFacts.

Lemma Scenario_less_asym (a b : GraphId) :
  Scenario.less a b = true -> Scenario.less b a = false.
Proof.
  unfold Scenario.less. intros H.
  repeat match goal with
         | |- context [?x <? ?y] => destruct (Nat.ltb_spec x y)
         | H : context [?x <? ?y] |- _ => destruct (Nat.ltb_spec x y)
         | |- context [?x =? ?y] => destruct (Nat.eqb_spec x y)
         | H : context [?x =? ?y] |- _ => destruct (Nat.eqb_spec x y)
         end; simpl in *; try reflexivity; try discriminate; lia.
Qed.

Lemma scenario_stops_in_order :
  stops_in_order (baldr := Scenario.baldr)
    (Transit.stops ScenarioBuild.transit).
Proof.
  intros [|[|i]] [|[|j]] si sj Hij Hi Hj; try lia; try discriminate.
  inversion Hi; inversion Hj; subst. reflexivity.
Qed.

Lemma form_departures_stop_edge_map_witness :
  fst <$> ScenarioTile.stop_edge_map
  = Transit_Stop.graphid <$> Transit.stops ScenarioBuild.transit /\
  forall k kse,
    ScenarioTile.stop_edge_map !! k = Some kse ->
    StopEdges.origin_pbf_graphid (snd kse) = fst kse /\
    StopEdges.intrastation (snd kse) = [] /\
    exists stop,
      Transit.stops ScenarioBuild.transit !! k = Some stop /\
      fst kse = Transit_Stop.graphid stop.
Proof.
  apply (form_departures_stop_edge_map (baldr := Scenario.baldr)
           (stl := Scenario.stl)
           Scenario_less_asym ScenarioBuild.transit ScenarioBuild.departures
           ScenarioBuild.tilebuilder scenario_stops_in_order).
Defined.

Lemma form_departures_served_witness :
  exists tdss,
    GraphTileBuilder.transit_departures
      (b_tilebuilder
         (form_departures (baldr := Scenario.baldr) (stl := Scenario.stl)
            ScenarioBuild.transit
            ScenarioBuild.departures ScenarioBuild.tilebuilder))
    = GraphTileBuilder.transit_departures ScenarioBuild.tilebuilder
      ++ concat tdss /\
    Forall3 (fun stop kse tds =>
               fst kse = Transit_Stop.graphid stop /\
               Forall2 (served_by (snd kse)) tds
                 (equal_range (stl := Scenario.stl) ScenarioBuild.departures
                    (Transit_Stop.graphid stop)))
      (Transit.stops ScenarioBuild.transit) ScenarioTile.stop_edge_map tdss.
Proof.
  apply (form_departures_served (baldr := Scenario.baldr)
           (stl := Scenario.stl)
           Scenario_less_asym ScenarioBuild.transit ScenarioBuild.departures
           ScenarioBuild.tilebuilder scenario_stops_in_order).
Defined.

(** The line ids of the three transit departures of the scenario, in the
    order of [equal_range]: the departure of route 1, emplaced last, has
    line 1, and the two departures of route 0 share line 2. *)
Example departure_line_ids_scenario :
  TransitDeparture.lineid
    <$> GraphTileBuilder.transit_departures
          (b_tilebuilder
             (form_departures (baldr := Scenario.baldr) (stl := Scenario.stl)
            ScenarioBuild.transit
                ScenarioBuild.departures ScenarioBuild.tilebuilder))
  = [1; 2; 2]%Z.
Proof. vm_compute. reflexivity. Qed.

(** ** [AddToGraph]: where the nodes of the stops are *)

Section Addressing.
Context {baldr : Baldr} {builder : GraphTileBuilder.Ops} {geo : midgard.Ops}.
Variable fuel : nat.
Variable read_pbf : GraphId -> option Transit.t.
Variable counts : gmap GraphId nat.
Variable conns : list OSMConnectionEdge.t.
Variable route_types : gmap Z Z.

(** X11.  When the node count of the tile in [tile_node_counts] is the
    number of its road nodes and entry [k] of the stop edge map is the stop
    of the tile with index [k], the graph id that [GetGraphId] gives the
    stop, which is the end node of every edge made to the stop, is the id
    of the node that [AddToGraph] appends for the stop: node [k] after the
    road nodes, with stop index [k] and the edges of the stop. *)
Theorem AddToGraph_stop_node_ids (tb : GraphTileBuilder.t)
  (m : list (GraphId * StopEdges.t)) (sa : gmap GraphId bool)
  (r : GraphTileBuilder.t) :
  AddToGraph fuel read_pbf counts conns route_types tb m sa = Ok r ->
  counts !! Tile_Base (GraphTileBuilder.graphid tb)
  = Some (List.length (GraphTileBuilder.nodes tb)) ->
  (forall k kse,
      m !! k = Some kse ->
      StopEdges.origin_pbf_graphid (snd kse)
      = mkGraphId (tileid (GraphTileBuilder.graphid tb))
          (level (GraphTileBuilder.graphid tb)) k) ->
  forall k kse,
    m !! k = Some kse ->
    GetGraphId (StopEdges.origin_pbf_graphid (snd kse)) counts
    = mkGraphId (tileid (GraphTileBuilder.graphid tb))
        (level (GraphTileBuilder.graphid tb))
        (k + List.length (GraphTileBuilder.nodes tb)) /\
    exists node,
      GraphTileBuilder.nodes r
        !! id (GetGraphId (StopEdges.origin_pbf_graphid (snd kse)) counts)
      = Some node /\
      NodeInfo.stop_index node = k /\
      rebuilt_stop_node counts conns (GraphTileBuilder.directededges r)
        (snd kse) node.
Proof.
  intros Hrun Hcount Hids k kse Hk.
  destruct (AddToGraph_rebuilt _ _ _ _ _ _ _ _ _ Hrun)
    as (_ & road & stops & Hnodes & Hroad & Hstops & _ & Heach).
  assert (Hfinal :
            GetGraphId (StopEdges.origin_pbf_graphid (snd kse)) counts
            = mkGraphId (tileid (GraphTileBuilder.graphid tb))
                (level (GraphTileBuilder.graphid tb))
                (k + List.length (GraphTileBuilder.nodes tb))).
  { unfold GetGraphId. rewrite (Hids _ _ Hk). unfold Tile_Base at 1. cbn.
    unfold Tile_Base in Hcount. rewrite Hcount. reflexivity. }
  split; [exact Hfinal|]. rewrite Hfinal. cbn [id].
  destruct (Heach _ _ Hk) as (node & Hnode & Hok).
  exists node. split; [|split; [|exact Hok]].
  - rewrite Hnodes, lookup_app_r by lia.
    rewrite Hroad. replace (k + _ - _) with k by lia. exact Hnode.
  - destruct Hok as (cs & ls & _ & _ & _ & _ & _ & Hidx).
    rewrite Hidx, (Hids _ _ Hk). reflexivity.
Qed.

End Addressing.

Lemma AddToGraph_stop_node_ids_witness :
  exists kse,
    ScenarioTile.stop_edge_map !! 0 = Some kse /\
    GetGraphId (baldr := Scenario.baldr)
      (StopEdges.origin_pbf_graphid (snd kse)) ScenarioTile.tile_node_counts
    = mkGraphId 0 2 (0 + 2) /\
    exists node,
      GraphTileBuilder.nodes ScenarioTile.rebuilt_tile
        !! id (GetGraphId (baldr := Scenario.baldr)
                 (StopEdges.origin_pbf_graphid (snd kse))
                 ScenarioTile.tile_node_counts)
      = Some node /\
      NodeInfo.stop_index node = 0 /\
      rebuilt_stop_node (baldr := Scenario.baldr)
        ScenarioTile.tile_node_counts ScenarioTile.connection_edges
        (GraphTileBuilder.directededges ScenarioTile.rebuilt_tile)
        (snd kse) node.
Proof.
  destruct (ScenarioTile.stop_edge_map !! 0) as [kse|] eqn:Hk;
    [|vm_compute in Hk; discriminate].
  exists kse. split; [reflexivity|].
  apply (AddToGraph_stop_node_ids (baldr := Scenario.baldr)
           (geo := Scenario.geo) 10 ScenarioTile.read_pbf
           ScenarioTile.tile_node_counts ScenarioTile.connection_edges
           ScenarioTile.route_types ScenarioTile.tilebuilder
           ScenarioTile.stop_edge_map ∅ ScenarioTile.rebuilt_tile).
  - vm_compute. reflexivity.
  - vm_compute. reflexivity.
  - intros [|[|k]] kse' Hk'; vm_compute in Hk'; inversion Hk'; reflexivity.
  - exact Hk.
Defined.

(** ** [AddToGraph] on sorted connections *)

Section SortedFacts.
Context {baldr : Baldr} {builder : GraphTileBuilder.Ops}.
Variable fuel : nat.
Variable counts : gmap GraphId nat.
Variable conns : list OSMConnectionEdge.t.

Lemma sorted_ids_in_order t :
  sorted_connections conns ->
  Forall (fun c => tileid (OSMConnectionEdge.osm_node c) = t) conns ->
  ids_in_order conns.
Proof.
  intros Hsorted Htile i j a b Hij Ha Hb.
  specialize (Hsorted i j a b Hij Ha Hb).
  unfold OSMConnectionEdge_less in Hsorted.
  rewrite Forall_lookup in Htile.
  rewrite (Htile _ _ Ha), (Htile _ _ Hb), Nat.eqb_refl in Hsorted.
  apply Nat.ltb_ge in Hsorted. exact Hsorted.
Qed.

Lemma connection_loop_next n edge_index st st' :
  connection_loop counts conns n edge_index st = Ok st' ->
  match conns !! rs_added_edges st' with
  | Some c => id (OSMConnectionEdge.osm_node c) <> rs_nodeid st
  | None => True
  end.
Proof.
  intros Hrun.
  destruct (conns !! rs_added_edges st') as [c|] eqn:Hc; [|exact I].
  apply (connection_loop_stops _ _ _ _ _ _ Hrun _ Hc).
Qed.

Lemma road_node_stops currentedges sign0 res0 nb st st' :
  road_node fuel counts conns currentedges sign0 res0 nb st = Ok st' ->
  match conns !! rs_added_edges st' with
  | Some c => id (OSMConnectionEdge.osm_node c) <> rs_nodeid st
  | None => True
  end.
Proof.
  unfold road_node. intros Hrun.
  apply bind_Ok in Hrun. destruct Hrun as (st1 & Hcopy & Hrun).
  apply bind_Ok in Hrun. destruct Hrun as (st2 & Hloop & Hrun).
  inversion Hrun; subst st'; clear Hrun. cbn.
  apply copy_loop_spec in Hcopy.
  destruct Hcopy as (old & _ & _ & _ & _ & Hid1 & _).
  apply connection_loop_next in Hloop. rewrite Hid1 in Hloop. exact Hloop.
Qed.

Lemma filter_none {A : Type} (p : A -> bool) (l : list A) :
  Forall (fun a => p a = false) l -> List.filter p l = [].
Proof.
  induction 1 as [|a l Ha _ IH]; [reflexivity|]. simpl. rewrite Ha. exact IH.
Qed.

Lemma filter_all {A : Type} (p : A -> bool) (l : list A) :
  Forall (fun a => p a = true) l -> List.filter p l = l.
Proof.
  induction 1 as [|a l Ha _ IH]; [reflexivity|]. simpl. rewrite Ha, IH.
  reflexivity.
Qed.

Hypothesis in_order : ids_in_order conns.

Lemma sorted_inv_step currentedges sign0 res0 done nb st st' :
  sorted_inv counts conns currentedges done st ->
  road_node fuel counts conns currentedges sign0 res0 nb st = Ok st' ->
  sorted_inv counts conns currentedges (done ++ [nb]) st'.
Proof.
  intros [Hroad Hle Hbefore Hafter Heach] Hrun.
  pose proof (road_inv_step fuel counts conns _ _ _ _ _ _ _ Hroad Hrun)
    as Hroad'.
  pose proof (road_node_stops _ _ _ _ _ _ Hrun) as Hstop.
  pose proof Hrun as Hspec. apply road_node_spec in Hspec.
  destruct Hspec as (old & es & Hold & Hlen & Hedges' & Hadded' & Hall & Hat
                     & Hnodes' & Hid').
  destruct Hroad as [Hnodes Hid Hlaid _ _].
  rewrite Hid in Hat, Hstop.
  set (a := rs_added_edges st) in *.
  set (k := List.length done) in *.
  assert (Hmid : List.length (take (List.length es) (drop a conns))
                 = List.length es).
  { apply Forall2_length in Hall. exact Hall. }
  assert (Hroom : a + List.length es <= List.length conns).
  { rewrite length_take, length_drop in Hmid. lia. }
  assert (Hafter' :
            Forall (fun c => S k <= id (OSMConnectionEdge.osm_node c))
              (drop (a + List.length es) conns)).
  { apply Forall_lookup. intros i c Hc. rewrite lookup_drop in Hc.
    rewrite Hadded' in Hstop. fold a in Hstop.
    destruct (conns !! (a + List.length es)) as [c0|] eqn:Hc0.
    2:{ apply lookup_ge_None in Hc0. apply lookup_lt_Some in Hc. lia. }
    assert (Hc0k : k <= id (OSMConnectionEdge.osm_node c0)).
    { rewrite Forall_lookup in Hafter.
      apply (Hafter (List.length es) c0).
      rewrite lookup_drop. exact Hc0. }
    destruct i as [|i].
    - rewrite Nat.add_0_r, Hc0 in Hc. inversion Hc; subst c. lia.
    - pose proof (in_order (a + List.length es) (a + List.length es + S i)
                    c0 c ltac:(lia) Hc0 Hc). lia. }
  assert (Hsplit : conns
                   = take a conns ++ take (List.length es) (drop a conns)
                     ++ drop (a + List.length es) conns).
  { rewrite <- (take_drop a conns) at 1. f_equal.
    rewrite <- (take_drop (List.length es) (drop a conns)) at 1. f_equal.
    rewrite drop_drop. reflexivity. }
  assert (Hat_k : connections_at k conns
                  = take (List.length es) (drop a conns)).
  { unfold connections_at. rewrite Hsplit at 1.
    rewrite !List.filter_app.
    rewrite (filter_none _ (take a conns)).
    2:{ eapply Forall_impl; [exact Hbefore|]. intros c Hc. simpl in Hc.
        apply Nat.eqb_neq. fold k in Hc. lia. }
    rewrite (filter_none _ (drop (a + List.length es) conns)).
    2:{ eapply Forall_impl; [exact Hafter'|]. intros c Hc. simpl in Hc.
        apply Nat.eqb_neq. lia. }
    rewrite (filter_all _ (take (List.length es) (drop a conns))).
    2:{ eapply Forall_impl; [exact Hat|]. intros c Hc. simpl in Hc.
        apply Nat.eqb_eq. exact Hc. }
    rewrite app_nil_r. reflexivity. }
  constructor.
  - exact Hroad'.
  - rewrite Hadded'. exact Hroom.
  - rewrite Hadded', length_app. fold a k. cbn [List.length].
    rewrite <- take_take_drop.
    apply Forall_app. split.
    + eapply Forall_impl; [exact Hbefore|]. intros c Hc. simpl in *. lia.
    + eapply Forall_impl; [exact Hat|]. intros c Hc. simpl in *. lia.
  - rewrite Hadded', length_app. fold a k. cbn [List.length].
    replace (k + 1) with (S k) by lia. exact Hafter'.
  - intros j nb0 Hj. apply lookup_app_Some in Hj.
    destruct Hj as [Hj|[Hge Hj]].
    + destruct (Heach _ _ Hj) as (nb0' & es0 & Hj' & Hedges0 & Hconns0).
      exists nb0', es0. split; [|split; [|exact Hconns0]].
      * rewrite Hnodes'. apply lookup_app_l_Some. exact Hj'.
      * rewrite Hedges', edges_of_app; [exact Hedges0|].
        apply (laid_out_lookup _ _ _ _ _ Hlaid Hj').
    + destruct (j - List.length done) as [|d] eqn:Hd; simpl in Hj;
        [|destruct d; discriminate].
      inversion Hj; subst nb0; clear Hj.
      assert (j = k) by (unfold k; lia). subst j.
      eexists _, es. split; [|split].
      * rewrite Hnodes'. apply list_lookup_middle.
        rewrite Hnodes. reflexivity.
      * rewrite Hedges'. unfold edges_of at 2. rewrite <- Hold.
        apply edges_of_last; [reflexivity|].
        cbn. reflexivity.
      * rewrite Hat_k. exact Hall.
Qed.

Lemma sorted_loop_inv currentedges sign0 res0 st0 nodes : forall st,
  sorted_inv counts conns currentedges [] st0 ->
  foldM (road_node fuel counts conns currentedges sign0 res0) nodes st0
  = Ok st ->
  sorted_inv counts conns currentedges nodes st.
Proof.
  induction nodes as [|nb nodes IH] using rev_ind; intros st Hstart Hrun.
  - inversion Hrun; subst st. exact Hstart.
  - rewrite foldM_snoc in Hrun. apply bind_Ok in Hrun.
    destruct Hrun as (st1 & Hrun & Hstep).
    eapply sorted_inv_step; [|exact Hstep]. apply IH; assumption.
Qed.

Lemma sorted_inv_start currentedges (tb : GraphTileBuilder.t) :
  sorted_inv counts conns currentedges [] (road_start tb).
Proof.
  constructor; cbn.
  - apply road_inv_start.
  - lia.
  - constructor.
  - apply Forall_forall. intros c _. lia.
  - intros k nb Hk. discriminate.
Qed.

End SortedFacts.

Lemma inserted_app_r old : forall new more,
  List.length new = List.length old ->
  inserted old (new ++ more) = inserted old new.
Proof.
  induction old as [|o old IH]; intros [|n new] more Hlen; try discriminate.
  - destruct more; reflexivity.
  - simpl. rewrite IH by (simpl in Hlen; lia). reflexivity.
Qed.

Section SortedTheorem.
Context {baldr : Baldr} {builder : GraphTileBuilder.Ops} {geo : midgard.Ops}.
Variable fuel : nat.
Variable read_pbf : GraphId -> option Transit.t.
Variable counts : gmap GraphId nat.
Variable conns : list OSMConnectionEdge.t.
Variable route_types : gmap Z Z.

Lemma AddToGraph_sorted (tb : GraphTileBuilder.t)
  (m : list (GraphId * StopEdges.t)) (sa : gmap GraphId bool)
  (r : GraphTileBuilder.t) (t : nat) :
  AddToGraph fuel read_pbf counts conns route_types tb m sa = Ok r ->
  sorted_connections conns ->
  Forall (fun c => tileid (OSMConnectionEdge.osm_node c) = t) conns ->
  (forall k nb,
      GraphTileBuilder.nodes tb !! k = Some nb ->
      exists nb' es,
        GraphTileBuilder.nodes r !! k = Some nb' /\
        edges_of (GraphTileBuilder.directededges r) nb'
        = edges_of (GraphTileBuilder.directededges tb) nb ++ es /\
        Forall2 (connection_to counts) (connections_at k conns) es) /\
  (Forall (fun c => id (OSMConnectionEdge.osm_node c)
                    < List.length (GraphTileBuilder.nodes tb)) conns ->
   inserted (GraphTileBuilder.nodes tb) (GraphTileBuilder.nodes r)
   = List.length conns).
Proof.
  intros Hrun Hsorted Htile.
  pose proof (sorted_ids_in_order conns t Hsorted Htile) as Horder.
  apply AddToGraph_Ok in Hrun.
  destruct Hrun as (transit & rs & ss & _ & Hrs & Hstop & Hn & He & _ & _).
  unfold road_pass in Hrs.
  apply (sorted_loop_inv fuel counts conns Horder) in Hrs;
    [|apply sorted_inv_start].
  destruct Hrs as [[Hlen _ Hlaid Hadded _] Hle _ Hafter Heach].
  unfold stop_pass in Hstop.
  apply (stop_pass_inv read_pbf counts conns route_types _ _
           (rs_nodes rs) (rs_directededges rs)) in Hstop.
  2:{ constructor.
      - exists []. cbn. rewrite app_nil_r. reflexivity.
      - exact Hlaid.
      - exists []. cbn. rewrite app_nil_r. repeat split.
        intros k se Hk. discriminate. }
  destruct Hstop as [(more & Hmore) _ (new & Hnew & _)].
  rewrite Hn, He, Hnew, Hmore. split.
  - intros k nb Hk. destruct (Heach _ _ Hk) as (nb' & es & Hk' & Hedges & Hall).
    exists nb', es. split; [|split; [|exact Hall]].
    + apply lookup_app_l_Some. exact Hk'.
    + rewrite edges_of_app; [exact Hedges|].
      apply (laid_out_lookup _ _ _ _ _ Hlaid Hk').
  - intros Hids. rewrite inserted_app_r by exact Hlen. rewrite <- Hadded.
    assert (Hnone : drop (rs_added_edges rs) conns = []).
    { destruct (drop (rs_added_edges rs) conns) as [|c rest] eqn:Hdrop;
        [reflexivity|].
      apply Forall_cons in Hafter. destruct Hafter as [Hc _].
      assert (Hin : c ∈ conns).
      { apply (list_elem_of_lookup_2 _ (rs_added_edges rs + 0)).
        rewrite <- lookup_drop, Hdrop. reflexivity. }
      rewrite Forall_forall in Hids. apply Hids in Hin. lia. }
    apply (f_equal List.length) in Hnone.
    rewrite length_drop in Hnone. simpl in Hnone. lia.
Qed.

(** X12.  When the connections are in the order that [std::sort] leaves
    and their OSM nodes all have the same tile id, every tile that
    [AddToGraph] returns has, at each road node [k], the edges of the node
    as they were followed by one edge for each connection whose OSM node has
    the id [k], in the order of the list; and when the ids of the OSM nodes
    are all below the number of road nodes, the road nodes have together as
    many edges more as there are connections: none is left out. *)
Theorem AddToGraph_sorted_connections (tb : GraphTileBuilder.t)
  (m : list (GraphId * StopEdges.t)) (sa : gmap GraphId bool)
  (r : GraphTileBuilder.t) (t : nat) :
  AddToGraph fuel read_pbf counts conns route_types tb m sa = Ok r ->
  sorted_connections conns ->
  Forall (fun c => tileid (OSMConnectionEdge.osm_node c) = t) conns ->
  (forall k nb,
      GraphTileBuilder.nodes tb !! k = Some nb ->
      exists nb' es,
        GraphTileBuilder.nodes r !! k = Some nb' /\
        edges_of (GraphTileBuilder.directededges r) nb'
        = edges_of (GraphTileBuilder.directededges tb) nb ++ es /\
        Forall2 (connection_to counts) (connections_at k conns) es) /\
  (Forall (fun c => id (OSMConnectionEdge.osm_node c)
                    < List.length (GraphTileBuilder.nodes tb)) conns ->
   inserted (GraphTileBuilder.nodes tb) (GraphTileBuilder.nodes r)
   = List.length conns).
Proof. apply AddToGraph_sorted. Qed.

End SortedTheorem.

Lemma scenario_connections_sorted :
  sorted_connections ScenarioTile.connection_edges.
Proof.
  intros [|[|i]] [|[|j]] a b Hij Ha Hb; try lia; try discriminate.
  inversion Ha; inversion Hb; subst. reflexivity.
Qed.

Lemma AddToGraph_sorted_connections_witness :
  (forall k nb,
      GraphTileBuilder.nodes ScenarioTile.tilebuilder !! k = Some nb ->
      exists nb' es,
        GraphTileBuilder.nodes ScenarioTile.rebuilt_tile !! k = Some nb' /\
        edges_of (GraphTileBuilder.directededges ScenarioTile.rebuilt_tile) nb'
        = edges_of (GraphTileBuilder.directededges ScenarioTile.tilebuilder) nb
          ++ es /\
        Forall2 (connection_to (baldr := Scenario.baldr)
                   ScenarioTile.tile_node_counts)
          (connections_at k ScenarioTile.connection_edges) es) /\
  (Forall (fun c => id (OSMConnectionEdge.osm_node c)
                    < List.length
                        (GraphTileBuilder.nodes ScenarioTile.tilebuilder))
     ScenarioTile.connection_edges ->
   inserted (GraphTileBuilder.nodes ScenarioTile.tilebuilder)
     (GraphTileBuilder.nodes ScenarioTile.rebuilt_tile)
   = List.length ScenarioTile.connection_edges).
Proof.
  apply (AddToGraph_sorted_connections (baldr := Scenario.baldr)
           (geo := Scenario.geo) 10 ScenarioTile.read_pbf
           ScenarioTile.tile_node_counts ScenarioTile.connection_edges
           ScenarioTile.route_types ScenarioTile.tilebuilder
           ScenarioTile.stop_edge_map ∅ ScenarioTile.rebuilt_tile 0).
  - vm_compute. reflexivity.
  - exact scenario_connections_sorted.
  - repeat constructor.
Defined.

(** ** The signs and the access restrictions after [AddToGraph] *)

(** Where the edges of node [k] start in the new layout: where they started
    plus the edges inserted before. *)
Lemma laid_out_inserted old : forall new s s' total total' k o n,
  laid_out s old total ->
  laid_out s' new total' ->
  (forall j o n, old !! j = Some o -> new !! j = Some n ->
                 NodeInfo.edge_count o <= NodeInfo.edge_count n) ->
  old !! k = Some o ->
  new !! k = Some n ->
  NodeInfo.edge_index n + s
  = NodeInfo.edge_index o + s' + inserted (take k old) (take k new).
Proof.
  induction old as [|o0 old IH]; intros new s s' total total' k o n
    Hold Hnew Hle Ho Hn; [discriminate|].
  destruct new as [|n0 new]; [discriminate|].
  destruct Hold as [Ho0 Hold], Hnew as [Hn0 Hnew].
  destruct k as [|k]; simpl in Ho, Hn.
  - inversion Ho; inversion Hn; subst. simpl. lia.
  - simpl.
    pose proof (Hle 0 o0 n0 eq_refl eq_refl) as Hc.
    pose proof (IH new _ _ _ _ k o n Hold Hnew
                  (fun j => Hle (S j)) Ho Hn) as Hrec.
    lia.
Qed.

Section FollowFacts.
Context {baldr : Baldr} {builder : GraphTileBuilder.Ops} {geo : midgard.Ops}.
Variable fuel : nat.
Variable read_pbf : GraphId -> option Transit.t.
Variable counts : gmap GraphId nat.
Variable conns : list OSMConnectionEdge.t.
Variable route_types : gmap Z Z.

(** The edge at [e] of the tile as it was is, in the rebuilt tile, at [e]
    plus the number of edges inserted before its node. *)
Lemma AddToGraph_edge_moves tb m sa r e k nb :
  AddToGraph fuel read_pbf counts conns route_types tb m sa = Ok r ->
  laid_out 0 (GraphTileBuilder.nodes tb)
    (List.length (GraphTileBuilder.directededges tb)) ->
  GraphTileBuilder.nodes tb !! k = Some nb ->
  NodeInfo.edge_index nb <= e
  < NodeInfo.edge_index nb + NodeInfo.edge_count nb ->
  exists edge,
    GraphTileBuilder.directededges tb !! e = Some edge /\
    GraphTileBuilder.directededges r
      !! (e + inserted_before (GraphTileBuilder.nodes tb)
                (GraphTileBuilder.nodes r) k)
    = Some edge.
Proof.
  intros Hrun Hlaid Hk He.
  destruct (AddToGraph_rebuilt _ _ _ _ _ _ _ _ _ Hrun)
    as (Hlaid' & road & stops & Hnodes & Hroad & _ & Heach & _).
  destruct (Heach _ _ Hk) as (nb' & Hk' & es & a & Hnb' & Hedges & Hlen & _).
  assert (Hk'' : GraphTileBuilder.nodes r !! k = Some nb').
  { rewrite Hnodes. apply lookup_app_l_Some. exact Hk'. }
  assert (Hcounts : forall j o n,
             GraphTileBuilder.nodes tb !! j = Some o ->
             GraphTileBuilder.nodes r !! j = Some n ->
             NodeInfo.edge_count o <= NodeInfo.edge_count n).
  { intros j o n Ho Hn. destruct (Heach _ _ Ho) as (n' & Hn' & es' & a' & Heq & _).
    rewrite Hnodes in Hn. rewrite (lookup_app_l_Some _ _ _ _ Hn') in Hn.
    inversion Hn; subst n'. rewrite Heq. cbn. lia. }
  pose proof (laid_out_inserted _ _ _ _ _ _ k nb nb' Hlaid Hlaid' Hcounts
                Hk Hk'') as Hidx.
  fold (inserted_before (GraphTileBuilder.nodes tb) (GraphTileBuilder.nodes r) k)
    in Hidx.
  set (ins := inserted_before _ _ k) in *.
  destruct (laid_out_lookup _ _ _ _ _ Hlaid Hk) as [_ Hin].
  destruct (lookup_lt_is_Some_2 (GraphTileBuilder.directededges tb) e
              ltac:(lia)) as (edge & Hedge).
  exists edge. split; [exact Hedge|].
  assert (Hold : edges_of (GraphTileBuilder.directededges tb) nb
                   !! (e - NodeInfo.edge_index nb) = Some edge).
  { unfold edges_of. rewrite lookup_take_lt by lia. rewrite lookup_drop.
    replace (NodeInfo.edge_index nb + (e - NodeInfo.edge_index nb)) with e
      by lia. exact Hedge. }
  assert (Hnew : edges_of (GraphTileBuilder.directededges r) nb'
                   !! (e - NodeInfo.edge_index nb) = Some edge).
  { rewrite Hedges. apply lookup_app_l_Some. exact Hold. }
  unfold edges_of in Hnew.
  apply lookup_take_Some in Hnew. destruct Hnew as [Hnew _].
  rewrite lookup_drop in Hnew.
  replace (e + ins) with (NodeInfo.edge_index nb' + (e - NodeInfo.edge_index nb))
    by lia.
  exact Hnew.
Qed.

Lemma AddToGraph_tables_reindexed tb m sa r :
  well_formed tb ->
  List.length (GraphTileBuilder.sign tb) < fuel ->
  List.length (GraphTileBuilder.accessrestriction tb) < fuel ->
  List.length conns < fuel ->
  Forall (fun c => Is_Valid (GetGraphId (OSMConnectionEdge.stop_node c) counts)
                   = true) conns ->
  AddToGraph fuel read_pbf counts conns route_types tb m sa = Ok r ->
  reindexed (GraphTileBuilder.nodes tb) (GraphTileBuilder.nodes r)
    (GraphTileBuilder.sign tb) (GraphTileBuilder.sign_builder tb)
    (GraphTileBuilder.sign_builder r) /\
  reindexed (GraphTileBuilder.nodes tb) (GraphTileBuilder.nodes r)
    (GraphTileBuilder.accessrestriction tb)
    (GraphTileBuilder.accessrestriction_builder tb)
    (GraphTileBuilder.accessrestriction_builder r).
Proof.
  intros Hwf Hsf Hrf Hcf Hvalid Hrun.
  destruct (road_pass_reindexed fuel counts conns tb Hwf Hsf Hrf Hcf Hvalid)
    as (rs & Hrs & Hsign & Hres).
  destruct (AddToGraph_rebuilt _ _ _ _ _ _ _ _ _ Hrun)
    as (_ & road & stops & Hnodes & Hroad & _).
  apply AddToGraph_Ok in Hrun.
  destruct Hrun as (transit & rs' & ss & _ & Hrs' & Hstop & Hn & _ & Hsb & Hrb).
  rewrite Hrs in Hrs'. inversion Hrs'; subst rs'; clear Hrs'.
  assert (Hinv : road_inv counts conns (GraphTileBuilder.directededges tb)
                   (GraphTileBuilder.nodes tb) rs).
  { unfold road_pass in Hrs.
    apply (road_loop_inv fuel counts conns) in Hrs; [exact Hrs|].
    apply road_inv_start. }
  destruct Hinv as [Hlen _ Hlaid _ _].
  unfold stop_pass in Hstop.
  apply (stop_pass_inv read_pbf counts conns route_types _ _
           (rs_nodes rs) (rs_directededges rs)) in Hstop.
  2:{ constructor.
      - exists []. cbn. rewrite app_nil_r. reflexivity.
      - exact Hlaid.
      - exists []. cbn. rewrite app_nil_r. repeat split.
        intros k se Hk. discriminate. }
  destruct Hstop as [_ _ (new & Hnew & _)].
  rewrite Hn, Hnew, Hsb, Hrb.
  split; apply reindexed_app; assumption.
Qed.

(** X13.  On a well-formed tile, with connections that all lead to stops
    of the tile set and a bound on the while loops above the sizes of the
    tables, the signs and the access restrictions follow their edges through
    [AddToGraph]: the record at position [j] of the rebuilt table refers to
    an index at which the rebuilt array of directed edges holds the very
    edge that the record at position [j] referred to in the tile as it
    was. *)
Theorem AddToGraph_signs_follow_edges (tb : GraphTileBuilder.t)
  (m : list (GraphId * StopEdges.t)) (sa : gmap GraphId bool)
  (r : GraphTileBuilder.t) :
  well_formed tb ->
  List.length (GraphTileBuilder.sign tb) < fuel ->
  List.length (GraphTileBuilder.accessrestriction tb) < fuel ->
  List.length conns < fuel ->
  Forall (fun c => Is_Valid (GetGraphId (OSMConnectionEdge.stop_node c) counts)
                   = true) conns ->
  AddToGraph fuel read_pbf counts conns route_types tb m sa = Ok r ->
  (forall j s,
      GraphTileBuilder.sign tb !! j = Some s ->
      exists s' e,
        GraphTileBuilder.sign_builder r !! j = Some s' /\
        GraphTileBuilder.directededges tb !! Sign.edgeindex s = Some e /\
        GraphTileBuilder.directededges r !! Sign.edgeindex s' = Some e) /\
  (forall j a,
      GraphTileBuilder.accessrestriction tb !! j = Some a ->
      exists a' e,
        GraphTileBuilder.accessrestriction_builder r !! j = Some a' /\
        GraphTileBuilder.directededges tb !! AccessRestriction.edgeindex a
        = Some e /\
        GraphTileBuilder.directededges r !! AccessRestriction.edgeindex a'
        = Some e).
Proof.
  intros Hwf Hsf Hrf Hcf Hvalid Hrun.
  destruct (AddToGraph_tables_reindexed tb m sa r Hwf Hsf Hrf Hcf Hvalid Hrun)
    as [Hsign Hres].
  destruct Hwf as [Hlaid _ Hsr _ _ Hrr _].
  split.
  - intros j s Hs.
    rewrite Forall_lookup in Hsr. pose proof (Hsr _ _ Hs) as Hrange.
    destruct (laid_out_cover _ _ _ (Sign.edgeindex s) Hlaid ltac:(simpl; lia))
      as (k & nb & Hk & Hin).
    destruct (Hsign j s k nb Hs Hk Hin) as (b & _ & Hb').
    destruct (AddToGraph_edge_moves tb m sa r _ k nb Hrun Hlaid Hk Hin)
      as (e & He & He').
    eexists _, e. split; [exact Hb'|]. split; [exact He|exact He'].
  - intros j a Ha.
    rewrite Forall_lookup in Hrr. pose proof (Hrr _ _ Ha) as Hrange.
    destruct (laid_out_cover _ _ _ (AccessRestriction.edgeindex a) Hlaid
                ltac:(simpl; lia))
      as (k & nb & Hk & Hin).
    destruct (Hres j a k nb Ha Hk Hin) as (b & _ & Hb').
    destruct (AddToGraph_edge_moves tb m sa r _ k nb Hrun Hlaid Hk Hin)
      as (e & He & He').
    eexists _, e. split; [exact Hb'|]. split; [exact He|exact He'].
Qed.

End FollowFacts.

Lemma AddToGraph_signs_follow_edges_witness :
  (forall j s,
      GraphTileBuilder.sign ScenarioTile.tilebuilder !! j = Some s ->
      exists s' e,
        GraphTileBuilder.sign_builder ScenarioTile.rebuilt_tile !! j = Some s' /\
        GraphTileBuilder.directededges ScenarioTile.tilebuilder
          !! Sign.edgeindex s = Some e /\
        GraphTileBuilder.directededges ScenarioTile.rebuilt_tile
          !! Sign.edgeindex s' = Some e) /\
  (forall j a,
      GraphTileBuilder.accessrestriction ScenarioTile.tilebuilder !! j
      = Some a ->
      exists a' e,
        GraphTileBuilder.accessrestriction_builder ScenarioTile.rebuilt_tile
          !! j = Some a' /\
        GraphTileBuilder.directededges ScenarioTile.tilebuilder
          !! AccessRestriction.edgeindex a = Some e /\
        GraphTileBuilder.directededges ScenarioTile.rebuilt_tile
          !! AccessRestriction.edgeindex a' = Some e).
Proof.
  apply (AddToGraph_signs_follow_edges (baldr := Scenario.baldr)
           (geo := Scenario.geo) 10 ScenarioTile.read_pbf
           ScenarioTile.tile_node_counts ScenarioTile.connection_edges
           ScenarioTile.route_types ScenarioTile.tilebuilder
           ScenarioTile.stop_edge_map ∅ ScenarioTile.rebuilt_tile).
  - exact scenario_well_formed.
  - cbn. lia.
  - cbn. lia.
  - cbn. lia.
  - repeat constructor.
  - vm_compute. reflexivity.
Defined.

Lemma inserted_before_mono old : forall new k k',
  k <= k' -> inserted_before old new k <= inserted_before old new k'.
Proof.
  unfold inserted_before.
  induction old as [|o old IH]; intros new k k' Hk.
  - rewrite !take_nil. simpl. lia.
  - destruct new as [|n new]; [rewrite !take_nil; destruct (take k (o :: old)), (take k' (o :: old)); simpl; lia|].
    destruct k as [|k]; [simpl; lia|]. destruct k' as [|k']; [lia|].
    simpl. specialize (IH new k k' ltac:(lia)). lia.
Qed.

Lemma Sorted_le_pairwise (l : list nat) :
  (forall i a b, l !! i = Some a -> l !! S i = Some b -> a <= b) ->
  Sorted le l.
Proof.
  induction l as [|x l IH]; intros Hall; [constructor|].
  constructor.
  - apply IH. intros i a b Ha Hb. apply (Hall (S i) a b Ha Hb).
  - destruct l as [|y l]; constructor.
    apply (Hall 0 x y eq_refl eq_refl).
Qed.

Lemma Sign_get_put (v : nat) (s : Sign.t) :
  get_edgeindex (put_edgeindex v s) = v.
Proof. reflexivity. Qed.

Lemma AccessRestriction_get_put (v : nat) (a : AccessRestriction.t) :
  get_edgeindex (put_edgeindex v a) = v.
Proof. reflexivity. Qed.

Section OrderFacts.
Context {baldr : Baldr} {builder : GraphTileBuilder.Ops} {geo : midgard.Ops}.
Variable fuel : nat.
Variable read_pbf : GraphId -> option Transit.t.
Variable counts : gmap GraphId nat.
Variable conns : list OSMConnectionEdge.t.
Variable route_types : gmap Z Z.

Lemma reindexed_sorted {T : Type} {indexed : EdgeIndexed T}
  (get_put : forall v (b : T), get_edgeindex (put_edgeindex v b) = v)
  (old new : list NodeInfo.t) (total : nat) (table b b' : list T) :
  laid_out 0 old total ->
  by_edge_index table ->
  Forall (fun r => get_edgeindex r < total) table ->
  List.length b' = List.length table ->
  reindexed old new table b b' ->
  by_edge_index b'.
Proof.
  intros Hlaid Hsorted Hrange Hlen Hre.
  unfold by_edge_index. apply Sorted_le_pairwise.
  intros i x y Hx Hy. rewrite list_lookup_fmap in Hx, Hy.
  destruct (b' !! i) as [bi|] eqn:Hbi; [|discriminate].
  destruct (b' !! S i) as [bj|] eqn:Hbj; [|discriminate].
  simpl in Hx, Hy. inversion Hx; inversion Hy; subst x y; clear Hx Hy.
  destruct (lookup_lt_is_Some_2 table i) as (ri & Hri).
  { rewrite <- Hlen. apply lookup_lt_Some in Hbi. exact Hbi. }
  destruct (lookup_lt_is_Some_2 table (S i)) as (rj & Hrj).
  { rewrite <- Hlen. apply lookup_lt_Some in Hbj. exact Hbj. }
  rewrite Forall_lookup in Hrange.
  destruct (laid_out_cover _ _ _ (get_edgeindex ri) Hlaid
              ltac:(pose proof (Hrange _ _ Hri); simpl in *; lia))
    as (ki & ni & Hki & Hini).
  destruct (laid_out_cover _ _ _ (get_edgeindex rj) Hlaid
              ltac:(pose proof (Hrange _ _ Hrj); simpl in *; lia))
    as (kj & nj & Hkj & Hinj).
  destruct (Hre _ _ _ _ Hri Hki Hini) as (b0 & _ & Hbi').
  destruct (Hre _ _ _ _ Hrj Hkj Hinj) as (b1 & _ & Hbj').
  rewrite Hbi in Hbi'. rewrite Hbj in Hbj'.
  inversion Hbi'; inversion Hbj'; subst bi bj. rewrite !get_put.
  pose proof (by_edge_index_lookup table i (S i) ri rj Hsorted
                ltac:(lia) Hri Hrj) as Hle.
  assert (Hk : ki <= kj).
  { destruct (Nat.le_gt_cases ki kj) as [H|H]; [exact H|].
    pose proof (laid_out_lt _ _ _ _ _ _ _ Hlaid H Hkj Hki). lia. }
  pose proof (inserted_before_mono old new ki kj Hk). lia.
Qed.

(** X14.  Under the same conditions the rebuilt tables of the signs and of
    the access restrictions have as many records as before and are still in
    the order of their edge indices. *)
Theorem AddToGraph_keeps_table_order (tb : GraphTileBuilder.t)
  (m : list (GraphId * StopEdges.t)) (sa : gmap GraphId bool)
  (r : GraphTileBuilder.t) :
  well_formed tb ->
  List.length (GraphTileBuilder.sign tb) < fuel ->
  List.length (GraphTileBuilder.accessrestriction tb) < fuel ->
  List.length conns < fuel ->
  Forall (fun c => Is_Valid (GetGraphId (OSMConnectionEdge.stop_node c) counts)
                   = true) conns ->
  AddToGraph fuel read_pbf counts conns route_types tb m sa = Ok r ->
  List.length (GraphTileBuilder.sign_builder r)
  = List.length (GraphTileBuilder.sign tb) /\
  by_edge_index (GraphTileBuilder.sign_builder r) /\
  List.length (GraphTileBuilder.accessrestriction_builder r)
  = List.length (GraphTileBuilder.accessrestriction tb) /\
  by_edge_index (GraphTileBuilder.accessrestriction_builder r).
Proof.
  intros Hwf Hsf Hrf Hcf Hvalid Hrun.
  destruct (AddToGraph_tables_reindexed fuel read_pbf counts conns route_types
              tb m sa r Hwf Hsf Hrf Hcf Hvalid Hrun) as [Hsign Hres].
  destruct (road_pass_total fuel counts conns tb Hwf Hsf Hrf Hcf Hvalid)
    as (rs & Hrs & [_ Hslen _ _ _] & [_ Hrlen _ _ _]).
  apply AddToGraph_Ok in Hrun.
  destruct Hrun as (transit & rs' & ss & _ & Hrs' & _ & _ & _ & Hsb & Hrb).
  rewrite Hrs in Hrs'. inversion Hrs'; subst rs'; clear Hrs'.
  rewrite <- Hsb in Hslen. rewrite <- Hrb in Hrlen.
  destruct Hwf as [Hlaid Hss Hsr _ Hrs0 Hrr _].
  split; [exact Hslen|]. split.
  { apply (reindexed_sorted Sign_get_put _ _ _ _ _ _
             Hlaid Hss Hsr Hslen Hsign). }
  split; [exact Hrlen|].
  apply (reindexed_sorted AccessRestriction_get_put _ _ _ _ _ _ Hlaid Hrs0 Hrr Hrlen Hres).
Qed.

End OrderFacts.

Lemma AddToGraph_keeps_table_order_witness :
  List.length (GraphTileBuilder.sign_builder ScenarioTile.rebuilt_tile)
  = List.length (GraphTileBuilder.sign ScenarioTile.tilebuilder) /\
  by_edge_index (GraphTileBuilder.sign_builder ScenarioTile.rebuilt_tile) /\
  List.length
    (GraphTileBuilder.accessrestriction_builder ScenarioTile.rebuilt_tile)
  = List.length (GraphTileBuilder.accessrestriction ScenarioTile.tilebuilder) /\
  by_edge_index
    (GraphTileBuilder.accessrestriction_builder ScenarioTile.rebuilt_tile).
Proof.
  apply (AddToGraph_keeps_table_order (baldr := Scenario.baldr)
           (geo := Scenario.geo) 10 ScenarioTile.read_pbf
           ScenarioTile.tile_node_counts ScenarioTile.connection_edges
           ScenarioTile.route_types ScenarioTile.tilebuilder
           ScenarioTile.stop_edge_map ∅ ScenarioTile.rebuilt_tile).
  - exact scenario_well_formed.
  - cbn. lia.
  - cbn. lia.
  - cbn. lia.
  - repeat constructor.
  - vm_compute. reflexivity.
Defined.

(** ** The order of single precision numbers *)

Lemma SFltb_asym (a b : spec_float) : SFltb a b = true -> SFltb b a = false.
Proof.
  unfold SFltb, SFcompare.
  destruct a as [sa|sa| |sa ma ea], b as [sb|sb| |sb mb eb];
    try destruct sa; try destruct sb; try discriminate; try reflexivity.
  all: change (PosDef.Pos.compare_cont Eq ma mb) with (Pos.compare ma mb);
    change (PosDef.Pos.compare_cont Eq mb ma) with (Pos.compare mb ma);
    destruct (Z.compare_spec ea eb), (Z.compare_spec eb ea);
    simpl; try discriminate; try reflexivity; try lia;
    destruct (Pos.compare_spec ma mb), (Pos.compare_spec mb ma);
    simpl; try discriminate; try reflexivity; try lia.
Qed.

Lemma SFltb_trans (a b c : spec_float) :
  SFltb a b = true -> SFltb b c = true -> SFltb a c = true.
Proof.
  unfold SFltb, SFcompare.
  destruct a as [sa|sa| |sa ma ea], b as [sb|sb| |sb mb eb],
           c as [sc|sc| |sc mc ec];
    try destruct sa; try destruct sb; try destruct sc;
    try discriminate; try reflexivity.
  all: change (PosDef.Pos.compare_cont Eq ma mb) with (Pos.compare ma mb);
    change (PosDef.Pos.compare_cont Eq mb mc) with (Pos.compare mb mc);
    change (PosDef.Pos.compare_cont Eq ma mc) with (Pos.compare ma mc);
    destruct (Z.compare_spec ea eb), (Z.compare_spec eb ec),
             (Z.compare_spec ea ec);
    simpl; try discriminate; try reflexivity; try lia;
    destruct (Pos.compare_spec ma mb), (Pos.compare_spec mb mc),
             (Pos.compare_spec ma mc);
    simpl; try discriminate; try reflexivity; try lia.
Qed.

(** ** [AddOSMConnection]: the search and the connections *)

Section ClosestFacts.
Context {baldr : Baldr} {geo : midgard.Ops}.
Variable stop_ll : PointLL.
Variable wayid : Z.
Variable tile : GraphTile.t.

Lemma SFltb_irrefl (a : float) : SFltb a a = false.
Proof.
  destruct (SFltb a a) eqn:H; [|reflexivity].
  pose proof (SFltb_asym _ _ H) as H'. congruence.
Qed.

Lemma SFltb_not_below (d m m' : float) :
  SFltb d m = false -> SFltb m' m = true -> SFltb d m' = false.
Proof.
  intros Hd Hm. destruct (SFltb d m') eqn:H; [|reflexivity].
  rewrite (SFltb_trans _ _ _ H Hm) in Hd. discriminate.
Qed.

Lemma closest_edge_inv seen i node j st st' :
  GraphTile.nodes tile !! i = Some node ->
  j < NodeInfo.edge_count node ->
  search_inv stop_ll wayid tile seen st ->
  closest_edge stop_ll wayid tile i node j st = Ok st' ->
  search_inv stop_ll wayid tile
    (fun i' j' => seen i' j' \/ (i' = i /\ j' = j)) st'.
Proof.
  intros Hnode Hj [Hst Hmin] Hrun. unfold closest_edge in Hrun.
  apply bind_Ok in Hrun. destruct Hrun as (e & He & Hrun).
  apply of_option_Ok in He.
  assert (Hsame : forall e', on_way wayid tile i j e' -> e' = e /\
                             EdgeInfo.wayid (edgeinfo_of tile e) = wayid).
  { intros e' (node' & Hnode' & _ & He' & Hway).
    rewrite Hnode in Hnode'. inversion Hnode'; subst node'.
    rewrite He in He'. inversion He'; subst e'. split; [reflexivity|exact Hway]. }
  fold (edgeinfo_of tile e) in Hrun.
  destruct (Z.eqb_spec (EdgeInfo.wayid (edgeinfo_of tile e)) wayid)
    as [Hway|Hway].
  - fold (distance_to stop_ll tile e) in Hrun.
    destruct (SFltb (distance_to stop_ll tile e) (mindist st)) eqn:Hlt;
      inversion Hrun; subst st'; clear Hrun.
    + fold (chosen stop_ll tile i e).
      assert (Hbound : SFltb (distance_to stop_ll tile e) f_mindist0 = true).
      { destruct Hst as [->|(i0 & j0 & e0 & _ & _ & _ & Hb)].
        - exact Hlt.
        - apply (SFltb_trans _ _ _ Hlt Hb). }
      split.
      * right. exists i, j, e. split; [right; split; reflexivity|].
        split; [|split; [reflexivity|exact Hbound]].
        exists node. repeat split; assumption.
      * intros i' j' e' [Hseen|[-> ->]] Hon; cbn [mindist chosen].
        -- apply (SFltb_not_below _ _ _ (Hmin _ _ _ Hseen Hon) Hlt).
        -- destruct (Hsame _ Hon) as [-> _]. apply SFltb_irrefl.
    + split.
      * destruct Hst as [Hst|(i0 & j0 & e0 & Hseen & Hon & Heq & Hb)];
          [left; exact Hst|].
        right. exists i0, j0, e0. split; [left; exact Hseen|]. auto.
      * intros i' j' e' [Hseen|[-> ->]] Hon.
        -- apply (Hmin _ _ _ Hseen Hon).
        -- destruct (Hsame _ Hon) as [-> _]. exact Hlt.
  - inversion Hrun; subst st'; clear Hrun. split.
    + destruct Hst as [Hst|(i0 & j0 & e0 & Hseen & Hon & Heq & Hb)];
        [left; exact Hst|].
      right. exists i0, j0, e0. split; [left; exact Hseen|]. auto.
    + intros i' j' e' [Hseen|[-> ->]] Hon.
      * apply (Hmin _ _ _ Hseen Hon).
      * destruct (Hsame _ Hon) as [_ Hw]. contradiction.
Qed.

Lemma search_inv_ext seen seen' st :
  (forall i j, seen' i j <-> seen i j) ->
  search_inv stop_ll wayid tile seen st ->
  search_inv stop_ll wayid tile seen' st.
Proof.
  intros Hiff [Hst Hmin]. split.
  - destruct Hst as [Hst|(i & j & e & Hseen & Hrest)]; [left; exact Hst|].
    right. exists i, j, e. split; [apply Hiff; exact Hseen|exact Hrest].
  - intros i j e Hseen. apply Hmin, Hiff, Hseen.
Qed.

Lemma closest_edges_inv i node len : forall start seen st st',
  GraphTile.nodes tile !! i = Some node ->
  start + len <= NodeInfo.edge_count node ->
  search_inv stop_ll wayid tile seen st ->
  foldM (closest_edge stop_ll wayid tile i node) (seq start len) st = Ok st' ->
  search_inv stop_ll wayid tile
    (fun i' j' => seen i' j' \/ (i' = i /\ start <= j' < start + len)) st'.
Proof.
  induction len as [|len IH]; intros start seen st st' Hnode Hlen Hinv Hrun.
  - inversion Hrun; subst st'.
    apply (search_inv_ext seen); [|exact Hinv]. intros i' j'. split; [|auto].
    intros [H|[_ H]]; [exact H|lia].
  - simpl in Hrun. apply bind_Ok in Hrun. destruct Hrun as (st1 & Hstep & Hrun).
    apply (closest_edge_inv seen) in Hstep; [|exact Hnode|lia|exact Hinv].
    apply (IH (S start) (fun i' j' => seen i' j' \/ (i' = i /\ j' = start)))
      in Hrun; [|exact Hnode|lia|exact Hstep].
    refine (search_inv_ext _ _ _ _ Hrun).
    intros i' j'. simpl. split.
    + intros [H|[-> H]]; [left; left; exact H|].
      destruct (decide (j' = start)) as [->|Hne];
        [left; right; split; reflexivity|right; split; [reflexivity|lia]].
    + intros [[H|[-> ->]]|[-> H]];
        [left; exact H|right; split; [reflexivity|lia]..].
Qed.

Lemma closest_nodes_inv nodes : forall n st st',
  (forall i node, nodes !! i = Some node ->
                  GraphTile.nodes tile !! (n + i) = Some node) ->
  search_inv stop_ll wayid tile (fun i' _ => i' < n) st ->
  foldM (closest_node stop_ll wayid tile)
    (imap (fun i node => (n + i, node)) nodes) st = Ok st' ->
  search_inv stop_ll wayid tile
    (fun i' _ => i' < n + List.length nodes) st'.
Proof.
  induction nodes as [|node nodes IH]; intros n st st' Hnodes Hinv Hrun.
  - inversion Hrun; subst st'. simpl. rewrite Nat.add_0_r. exact Hinv.
  - rewrite imap_cons in Hrun. simpl in Hrun.
    apply bind_Ok in Hrun. destruct Hrun as (st1 & Hnode & Hrun).
    unfold closest_node in Hnode. cbn [fst snd] in Hnode.
    rewrite Nat.add_0_r in Hnode.
    apply (closest_edges_inv n node _ 0 (fun i' _ => i' < n) st st1) in Hnode;
      [|rewrite <- (Nat.add_0_r n); apply (Hnodes 0); reflexivity|lia
       |exact Hinv].
    rewrite (imap_ext _ (fun i node => (S n + i, node))) in Hrun.
    2:{ intros i x _. simpl. f_equal. lia. }
    apply (IH (S n)) in Hrun.
    + refine (search_inv_ext _ _ _ _ Hrun). intros i' j'. simpl. lia.
    + intros i node' Hi. replace (S n + i) with (n + S i) by lia.
      apply Hnodes. exact Hi.
    + destruct Hnode as [Hst Hmin]. split.
      * destruct Hst as [Hst|(i & j & e & Hseen & Hon & Hrest)];
          [left; exact Hst|].
        right. exists i, j, e. split; [|split; [exact Hon|exact Hrest]].
        destruct Hseen as [H|[-> _]]; lia.
      * intros i j e Hseen Hon.
        destruct (decide (i < n)) as [Hlt|Hge].
        -- apply (Hmin i j e); [left; exact Hlt|exact Hon].
        -- assert (i = n) by lia. subst i.
           apply (Hmin n j e); [|exact Hon]. right. split; [reflexivity|].
           destruct Hon as (node' & Hn' & Hj & _).
           pose proof (Hnodes 0 node eq_refl) as Hn0.
           rewrite Nat.add_0_r in Hn0. rewrite Hn0 in Hn'.
           inversion Hn'; subst node'. lia.
Qed.

Lemma closest_search_inv st :
  closest_search stop_ll wayid tile = Ok st ->
  (st = closest_start \/
   exists i j e,
     on_way wayid tile i j e /\ st = chosen stop_ll tile i e /\
     SFltb (mindist st) f_mindist0 = true) /\
  forall i j e,
    on_way wayid tile i j e -> SFltb (distance_to stop_ll tile e) (mindist st) = false.
Proof.
  unfold closest_search. intros Hrun.
  apply (closest_nodes_inv (GraphTile.nodes tile) 0) in Hrun.
  - destruct Hrun as [Hst Hmin]. split.
    + destruct Hst as [Hst|(i & j & e & _ & Hrest)]; [left; exact Hst|].
      right. exists i, j, e. exact Hrest.
    + intros i j e Hon. apply (Hmin i j e); [|exact Hon].
      destruct Hon as (node & Hnode & _). apply lookup_lt_Some in Hnode.
      simpl. exact Hnode.
  - intros i node Hi. exact Hi.
  - split; [left; reflexivity|]. intros i j e Hseen. lia.
Qed.

End ClosestFacts.

Section ClosestTotal.
Context {baldr : Baldr} {geo : midgard.Ops}.
Variable stop_ll : PointLL.
Variable wayid : Z.
Variable tile : GraphTile.t.
Hypothesis in_range : edges_in_range tile.

Lemma closest_edges_total i node len : forall start st,
  GraphTile.nodes tile !! i = Some node ->
  start + len <= NodeInfo.edge_count node ->
  exists st',
    foldM (closest_edge stop_ll wayid tile i node) (seq start len) st = Ok st'.
Proof.
  induction len as [|len IH]; intros start st Hnode Hlen; simpl; [eauto|].
  unfold closest_edge at 1.
  destruct (in_range i node start Hnode ltac:(lia)) as (e & He).
  rewrite He. cbn [of_option Res.bind].
  destruct (_ =? _)%Z; [destruct (SFltb _ _)|]; cbn [Res.bind];
    apply IH; try assumption; lia.
Qed.

Lemma closest_nodes_total nodes : forall n st,
  (forall i node, nodes !! i = Some node ->
                  GraphTile.nodes tile !! (n + i) = Some node) ->
  exists st',
    foldM (closest_node stop_ll wayid tile)
      (imap (fun i node => (n + i, node)) nodes) st = Ok st'.
Proof.
  induction nodes as [|node nodes IH]; intros n st Hnodes; [simpl; eauto|].
  rewrite imap_cons. simpl.
  unfold closest_node at 1. cbn [fst snd]. rewrite Nat.add_0_r.
  destruct (closest_edges_total n node (NodeInfo.edge_count node) 0 st)
    as (st1 & Hst1).
  { rewrite <- (Nat.add_0_r n). apply (Hnodes 0). reflexivity. }
  { lia. }
  rewrite Hst1. cbn [Res.bind].
  rewrite (imap_ext _ (fun i node => (S n + i, node))).
  2:{ intros i x _. simpl. f_equal. lia. }
  apply IH. intros i node' Hi. replace (S n + i) with (n + S i) by lia.
  apply Hnodes. exact Hi.
Qed.

Lemma closest_search_total :
  exists st, closest_search stop_ll wayid tile = Ok st.
Proof.
  unfold closest_search.
  apply (closest_nodes_total (GraphTile.nodes tile) 0).
  intros i node Hi. exact Hi.
Qed.

(** X15.  On a tile whose nodes have their edges among the directed edges
    of the tile, the search of [AddOSMConnection] ends, and it ends either
    with the variables it started with, when no edge on the way of the stop
    is closer to the stop than 10000000, or with the variables of an edge on
    the way of the stop that is closer than that and than which no edge on
    the way is closer: its node as start node, its end node, its shape (put
    in the direction of the edge) and its closest point. *)
Theorem closest_search_closest :
  exists st,
    closest_search stop_ll wayid tile = Ok st /\
    ((st = closest_start /\
      forall i j e,
        on_way wayid tile i j e ->
        SFltb (distance_to stop_ll tile e) f_mindist0 = false) \/
     (exists i j e,
         on_way wayid tile i j e /\
         st = chosen stop_ll tile i e /\
         SFltb (distance_to stop_ll tile e) f_mindist0 = true /\
         forall i' j' e',
           on_way wayid tile i' j' e' ->
           SFltb (distance_to stop_ll tile e') (distance_to stop_ll tile e)
           = false)).
Proof.
  destruct closest_search_total as (st & Hst). exists st.
  split; [exact Hst|].
  destruct (closest_search_inv _ _ _ _ Hst) as [[->|(i & j & e & Hon & -> & Hb)] Hmin].
  - left. split; [reflexivity|]. exact Hmin.
  - right. exists i, j, e. repeat split; assumption.
Qed.

End ClosestTotal.

Section ConnectFacts.
Context {baldr : Baldr} {geo : midgard.Ops}.

(** X16.  [AddOSMConnection] returns the connections as they were when no
    edge of the tile on the way of the stop is closer to the stop than
    10000000, and so when the tile has no edge on that way at all. *)
Theorem AddOSMConnection_no_edge (stop : Transit_Stop.t) (tile : GraphTile.t)
  (connection_edges : list OSMConnectionEdge.t) :
  edges_in_range tile ->
  (forall i j e,
      on_way (Transit_Stop.osm_way_id stop) tile i j e ->
      SFltb (distance_to (Transit_Stop.lon stop, Transit_Stop.lat stop) tile e)
        f_mindist0 = false) ->
  AddOSMConnection stop tile connection_edges = Ok connection_edges.
Proof.
  intros Hrange Hfar. unfold AddOSMConnection.
  destruct (closest_search_total
              (Transit_Stop.lon stop, Transit_Stop.lat stop)
              (Transit_Stop.osm_way_id stop) tile Hrange) as (st & Hst).
  rewrite Hst. cbn [Res.bind].
  destruct (closest_search_inv _ _ _ _ Hst)
    as [[->|(i & j & e & Hon & -> & Hb)] _].
  - unfold connect. cbn [startnode endnode closest_start].
    rewrite Is_Valid_invalid. reflexivity.
  - cbn [mindist chosen] in Hb. rewrite (Hfar _ _ _ Hon) in Hb. discriminate.
Qed.

Lemma AddOSMConnection_new (stop : Transit_Stop.t) (tile : GraphTile.t)
  (connection_edges result : list OSMConnectionEdge.t) :
  AddOSMConnection stop tile connection_edges = Ok result ->
  exists new,
    result = connection_edges ++ new /\
    List.length new <= 2 /\
    Forall (fun c =>
              OSMConnectionEdge.stop_node c = Transit_Stop.graphid stop /\
              tileid (OSMConnectionEdge.osm_node c)
              = tileid (GraphTile.graphid tile) /\
              Tile_Base (OSMConnectionEdge.osm_node c)
              = Tile_Base (Transit_Stop.graphid stop) /\
              SFltb (OSMConnectionEdge.length c) f_one = false /\
              exists pts closest_point,
                OSMConnectionEdge.shape c
                = pts ++ [closest_point;
                          (Transit_Stop.lon stop, Transit_Stop.lat stop)])
      new.
Proof.
  unfold AddOSMConnection. intros Hrun.
  apply bind_Ok in Hrun. destruct Hrun as (st & Hst & Hrun).
  destruct (closest_search_inv _ _ _ _ Hst)
    as [[->|(i & j & e & Hon & -> & Hb)] _].
  { unfold connect in Hrun. cbn [startnode endnode closest_start] in Hrun.
    rewrite Is_Valid_invalid in Hrun. inversion Hrun; subst result.
    exists []. rewrite app_nil_r. split; [reflexivity|].
    split; [simpl; lia|constructor]. }
  unfold connect in Hrun.
  assert (Hlen : forall x, SFltb (f_max f_one x) f_one = false).
  { intros x. unfold f_max. destruct (SFltb f_one x) eqn:Hx.
    - apply SFltb_asym. exact Hx.
    - reflexivity. }
  destruct (negb _ && negb _).
  { inversion Hrun; subst result. exists []. rewrite app_nil_r.
    split; [reflexivity|]. split; [simpl; lia|constructor]. }
  apply bind_Ok in Hrun. destruct Hrun as (ce1 & Hce1 & Hrun).
  assert (H1 : exists new1,
             ce1 = connection_edges ++ new1 /\ List.length new1 <= 1 /\
             Forall (fun c =>
              OSMConnectionEdge.stop_node c = Transit_Stop.graphid stop /\
              tileid (OSMConnectionEdge.osm_node c)
              = tileid (GraphTile.graphid tile) /\
              Tile_Base (OSMConnectionEdge.osm_node c)
              = Tile_Base (Transit_Stop.graphid stop) /\
              SFltb (OSMConnectionEdge.length c) f_one = false /\
              exists pts closest_point,
                OSMConnectionEdge.shape c
                = pts ++ [closest_point;
                          (Transit_Stop.lon stop, Transit_Stop.lat stop)])
               new1).
  { destruct (bool_decide _) eqn:Hbase in Hce1.
    - apply bool_decide_eq_true_1 in Hbase.
      apply bind_Ok in Hce1. destruct Hce1 as (shape & Hshape & Hce1).
      inversion Hce1; subst ce1; clear Hce1.
      eexists [_]. split; [reflexivity|]. split; [simpl; lia|].
      constructor; [|constructor]. cbn.
      split; [reflexivity|]. split; [reflexivity|].
      split; [symmetry; exact Hbase|]. split; [apply Hlen|].
      unfold shape_from_start in Hshape.
      destruct (_ || _); [discriminate|]. inversion Hshape.
      eexists _, _. reflexivity.
    - inversion Hce1; subst ce1. exists []. rewrite app_nil_r.
      split; [reflexivity|]. split; [simpl; lia|constructor]. }
  destruct H1 as (new1 & -> & Hlen1 & Hall1).
  destruct (bool_decide _) eqn:Hbase in Hrun.
  2:{ inversion Hrun; subst result. exists new1.
      split; [reflexivity|]. split; [lia|exact Hall1]. }
  apply bool_decide_eq_true_1 in Hbase.
  destruct (_ =? _) eqn:Htile in Hrun.
  2:{ inversion Hrun; subst result. exists new1.
      split; [reflexivity|]. split; [lia|exact Hall1]. }
  apply Nat.eqb_eq in Htile.
  apply bind_Ok in Hrun. destruct Hrun as (shape2 & Hshape2 & Hrun).
  inversion Hrun; subst result; clear Hrun.
  eexists (new1 ++ [_]). split; [rewrite app_assoc; reflexivity|].
  split; [rewrite length_app; simpl; lia|].
  apply Forall_app. split; [exact Hall1|].
  constructor; [|constructor]. cbn.
  split; [reflexivity|]. split; [cbn in Htile; symmetry; exact Htile|].
  split; [symmetry; exact Hbase|]. split; [apply Hlen|].
  unfold shape_from_end in Hshape2.
  destruct (_ <? _)%Z; [discriminate|]. inversion Hshape2.
  eexists _, _. reflexivity.
Qed.

(** X17.  Whenever [AddOSMConnection] returns, the connections are those
    it was given followed by at most two new ones; each new connection has
    the stop as its stop node, an OSM node with the tile id of the tile and
    the tile base of the stop, a length that is not below 1.0, and a shape
    that ends with the closest point and the position of the stop. *)
Theorem AddOSMConnection_appends (stop : Transit_Stop.t) (tile : GraphTile.t)
  (connection_edges result : list OSMConnectionEdge.t) :
  AddOSMConnection stop tile connection_edges = Ok result ->
  exists new,
    result = connection_edges ++ new /\
    List.length new <= 2 /\
    Forall (fun c =>
              OSMConnectionEdge.stop_node c = Transit_Stop.graphid stop /\
              tileid (OSMConnectionEdge.osm_node c)
              = tileid (GraphTile.graphid tile) /\
              Tile_Base (OSMConnectionEdge.osm_node c)
              = Tile_Base (Transit_Stop.graphid stop) /\
              SFltb (OSMConnectionEdge.length c) f_one = false /\
              exists pts closest_point,
                OSMConnectionEdge.shape c
                = pts ++ [closest_point;
                          (Transit_Stop.lon stop, Transit_Stop.lat stop)])
      new.
Proof. apply AddOSMConnection_new. Qed.

End ConnectFacts.

Lemma scenario_edges_in_range : edges_in_range ScenarioTile.tile.
Proof.
  intros [|[|i]] node [|j] Hnode Hj; try discriminate;
    inversion Hnode; subst node; cbn in Hj |- *; try lia; eauto.
Qed.

Lemma closest_search_closest_witness :
  exists st,
    closest_search (baldr := Scenario.baldr) (geo := Scenario.geo)
      (f_zero, f_zero) 42 ScenarioTile.tile = Ok st /\
    ((st = closest_start (baldr := Scenario.baldr) /\
      forall i j e,
        on_way 42 ScenarioTile.tile i j e ->
        SFltb (distance_to (geo := Scenario.geo) (f_zero, f_zero)
                 ScenarioTile.tile e) f_mindist0 = false) \/
     (exists i j e,
         on_way 42 ScenarioTile.tile i j e /\
         st = chosen (geo := Scenario.geo) (f_zero, f_zero)
                ScenarioTile.tile i e /\
         SFltb (distance_to (geo := Scenario.geo) (f_zero, f_zero)
                  ScenarioTile.tile e) f_mindist0 = true /\
         forall i' j' e',
           on_way 42 ScenarioTile.tile i' j' e' ->
           SFltb (distance_to (geo := Scenario.geo) (f_zero, f_zero)
                    ScenarioTile.tile e')
             (distance_to (geo := Scenario.geo) (f_zero, f_zero)
                ScenarioTile.tile e)
           = false)).
Proof.
  apply (closest_search_closest (baldr := Scenario.baldr)
           (geo := Scenario.geo) (f_zero, f_zero) 42 ScenarioTile.tile
           scenario_edges_in_range).
Defined.

Lemma AddOSMConnection_no_edge_witness :
  AddOSMConnection (baldr := Scenario.baldr) (geo := Scenario.geo)
    ScenarioFar.stop ScenarioTile.tile ScenarioTile.connection_edges
  = Ok ScenarioTile.connection_edges.
Proof.
  apply (AddOSMConnection_no_edge (baldr := Scenario.baldr)
           (geo := Scenario.geo) ScenarioFar.stop ScenarioTile.tile
           ScenarioTile.connection_edges scenario_edges_in_range).
  intros i j e (node & _ & _ & _ & Hway). discriminate Hway.
Defined.

Lemma AddOSMConnection_appends_witness :
  exists new,
    [OSMConnectionEdge.mk (mkGraphId 0 2 0) (mkGraphId 0 2 0) f_one
       [(f_zero, f_zero); (f_zero, f_zero); (f_zero, f_zero)];
     OSMConnectionEdge.mk (mkGraphId 0 2 1) (mkGraphId 0 2 0) f_one
       [(f_one, f_zero); (f_zero, f_zero); (f_zero, f_zero)]]
    = [] ++ new /\
    List.length new <= 2 /\
    Forall (fun c =>
              OSMConnectionEdge.stop_node c
              = Transit_Stop.graphid ScenarioTransit.stop0 /\
              tileid (OSMConnectionEdge.osm_node c)
              = tileid (GraphTile.graphid ScenarioTile.tile) /\
              Tile_Base (OSMConnectionEdge.osm_node c)
              = Tile_Base (Transit_Stop.graphid ScenarioTransit.stop0) /\
              SFltb (OSMConnectionEdge.length c) f_one = false /\
              exists pts closest_point,
                OSMConnectionEdge.shape c
                = pts ++ [closest_point;
                          (Transit_Stop.lon ScenarioTransit.stop0,
                           Transit_Stop.lat ScenarioTransit.stop0)])
      new.
Proof.
  apply (AddOSMConnection_appends (baldr := Scenario.baldr)
           (geo := Scenario.geo) ScenarioTransit.stop0 ScenarioTile.tile []).
  vm_compute. reflexivity.
Defined.

(** ** [build]: the work on one tile *)

(** *** Sorting by insertion *)

Lemma insert_sorted_Permutation c l : insert_sorted c l ≡ₚ c :: l.
Proof.
  induction l as [|d l IH]; simpl; [reflexivity|].
  destruct (OSMConnectionEdge_less c d); [reflexivity|].
  rewrite IH. apply perm_swap.
Qed.

Lemma insertion_sort_Permutation l : insertion_sort l ≡ₚ l.
Proof.
  induction l as [|c l IH]; simpl; [reflexivity|].
  rewrite insert_sorted_Permutation, IH. reflexivity.
Qed.

Lemma less_total a b :
  OSMConnectionEdge_less a b = false -> OSMConnectionEdge_less b a = false ->
  forall c, OSMConnectionEdge_less c a = OSMConnectionEdge_less c b.
Proof.
  unfold OSMConnectionEdge_less. intros Hab Hba c.
  repeat match goal with
         | H : context [?x =? ?y] |- _ => destruct (Nat.eqb_spec x y)
         | |- context [?x =? ?y] => destruct (Nat.eqb_spec x y)
         | H : context [?x <? ?y] |- _ => destruct (Nat.ltb_spec x y)
         | |- context [?x <? ?y] => destruct (Nat.ltb_spec x y)
         end; try reflexivity; try discriminate; lia.
Qed.

Lemma less_trans_neg a b c :
  OSMConnectionEdge_less b a = false -> OSMConnectionEdge_less c b = false ->
  OSMConnectionEdge_less c a = false.
Proof.
  unfold OSMConnectionEdge_less. intros Hab Hbc.
  repeat match goal with
         | H : context [?x =? ?y] |- _ => destruct (Nat.eqb_spec x y)
         | |- context [?x =? ?y] => destruct (Nat.eqb_spec x y)
         | H : context [?x <? ?y] |- _ => destruct (Nat.ltb_spec x y)
         | |- context [?x <? ?y] => destruct (Nat.ltb_spec x y)
         end; try reflexivity; try discriminate; lia.
Qed.

Lemma less_asym a b :
  OSMConnectionEdge_less a b = true -> OSMConnectionEdge_less b a = false.
Proof.
  unfold OSMConnectionEdge_less. intros Hab.
  repeat match goal with
         | H : context [?x =? ?y] |- _ => destruct (Nat.eqb_spec x y)
         | |- context [?x =? ?y] => destruct (Nat.eqb_spec x y)
         | H : context [?x <? ?y] |- _ => destruct (Nat.ltb_spec x y)
         | |- context [?x <? ?y] => destruct (Nat.ltb_spec x y)
         end; try reflexivity; try discriminate; lia.
Qed.

Lemma insert_sorted_ascending c l :
  ascending l -> ascending (insert_sorted c l).
Proof.
  unfold ascending. induction l as [|d l IH]; intros Hl; simpl.
  - constructor; constructor.
  - apply StronglySorted_inv in Hl. destruct Hl as [Hl Hd].
    destruct (OSMConnectionEdge_less c d) eqn:Hcd.
    + constructor; [constructor; assumption|].
      constructor; [apply less_asym; exact Hcd|].
      eapply List.Forall_impl; [|exact Hd]. intros x Hx. simpl in Hx.
      apply (less_trans_neg c d x); [apply less_asym; exact Hcd|exact Hx].
    + constructor; [apply IH; exact Hl|].
      rewrite List.Forall_forall. intros x Hx.
      apply (Permutation_in _ (insert_sorted_Permutation c l)) in Hx.
      destruct Hx as [<-|Hx]; [exact Hcd|].
      rewrite List.Forall_forall in Hd. apply Hd, Hx.
Qed.

Lemma insertion_sort_std_sort l : std_sort l (insertion_sort l).
Proof.
  split; [apply insertion_sort_Permutation|].
  assert (Hasc : ascending (insertion_sort l)).
  { induction l as [|c l IH]; simpl; [constructor|].
    apply insert_sorted_ascending, IH. }
  revert Hasc. generalize (insertion_sort l). clear l.
  intros l Hasc i. revert l Hasc.
  induction i as [|i IH]; intros l Hasc j a b Hij Ha Hb.
  - destruct l as [|x l]; [discriminate|]. inversion Ha; subst x.
    destruct j as [|j]; [lia|]. simpl in Hb.
    apply StronglySorted_inv in Hasc. destruct Hasc as [_ Hall].
    rewrite List.Forall_forall in Hall. apply Hall.
    apply list_elem_of_In, (list_elem_of_lookup_2 _ j). exact Hb.
  - destruct l as [|x l]; [discriminate|]. destruct j as [|j]; [lia|].
    apply StronglySorted_inv in Hasc. destruct Hasc as [Hl _].
    apply (IH l Hl j a b); [lia|exact Ha|exact Hb].
Qed.

Section SameGraph.
Context {baldr : Baldr} {builder : GraphTileBuilder.Ops}.
Context {stl : unordered_multimap.Ops}.

Lemma same_graph_refl tb : same_graph tb tb.
Proof. repeat split. Qed.

Lemma same_graph_trans a b c :
  same_graph a b -> same_graph b c -> same_graph a c.
Proof.
  intros (H1 & H2 & H3 & H4 & H5 & H6 & H7) (G1 & G2 & G3 & G4 & G5 & G6 & G7).
  repeat split; congruence.
Qed.

Lemma departure_loop_same_graph ds : forall st,
  same_graph (tilebuilder (fold_left departure_step ds st)) (tilebuilder st).
Proof.
  induction ds as [|dep ds IH]; intros st; simpl; [apply same_graph_refl|].
  eapply same_graph_trans; [apply IH|].
  unfold departure_step.
  destruct (GraphTileBuilder.AddName _ _) as [off tables'].
  repeat split.
Qed.

Lemma stop_loop_same_graph deps stops : forall st,
  same_graph (b_tilebuilder (fold_left (stop_step deps) stops st))
    (b_tilebuilder st).
Proof.
  induction stops as [|stop stops IH]; intros st; simpl;
    [apply same_graph_refl|].
  eapply same_graph_trans; [apply IH|].
  unfold stop_step. cbn [b_tilebuilder].
  apply (departure_loop_same_graph _ (mkDepState _ _ _ _ _ _)).
Qed.

Lemma form_departures_same_graph transit deps tb :
  same_graph (b_tilebuilder (form_departures transit deps tb)) tb.
Proof. apply (stop_loop_same_graph deps _ (mkBuildState _ _ _ _ _)). Qed.

End SameGraph.

Section BuildTileFacts.
Context {baldr : Baldr} {builder : GraphTileBuilder.Ops} {geo : midgard.Ops}
  {calendar : DateTime.Ops} {stl : unordered_multimap.Ops}.
Variable sort : list OSMConnectionEdge.t -> list OSMConnectionEdge.t.
Variable AddTransitStop :
  Z -> Z -> GraphTileBuilder.Tables -> GraphTileBuilder.Tables.
Variable AddTransitRoute :
  nat -> Transit_Route.t -> GraphTileBuilder.Tables -> GraphTileBuilder.Tables.
Variable fuel : nat.
Variable read_pbf : GraphId -> option Transit.t.
Variable tiles : gmap GraphId nat.

Lemma AddToGraph_transit_departures conns route_types tb m sa r :
  AddToGraph fuel read_pbf tiles conns route_types tb m sa = Ok r ->
  GraphTileBuilder.transit_departures r
  = GraphTileBuilder.transit_departures tb.
Proof.
  unfold AddToGraph. intros Hrun.
  apply bind_Ok in Hrun. destruct Hrun as (transit & _ & Hrun).
  apply bind_Ok in Hrun. destruct Hrun as (rs & _ & Hrun).
  apply bind_Ok in Hrun. destruct Hrun as (ss & _ & Hrun).
  inversion Hrun. reflexivity.
Qed.

(** The connections that the loop over the stops makes. *)
Lemma connect_stops_spec tile stops : forall st st',
  foldM (connect_stop AddTransitStop tile) stops st = Ok st' ->
  exists new,
    fst st' = fst st ++ new /\
    Forall (fun c =>
              tileid (OSMConnectionEdge.osm_node c)
              = tileid (GraphTile.graphid tile) /\
              exists stop,
                stop ∈ stops /\
                OSMConnectionEdge.stop_node c = Transit_Stop.graphid stop)
      new.
Proof.
  induction stops as [|stop stops IH]; intros st st' Hrun; simpl in Hrun.
  - inversion Hrun; subst st'. exists []. rewrite app_nil_r.
    split; [reflexivity|constructor].
  - apply bind_Ok in Hrun. destruct Hrun as (st1 & Hstep & Hrun).
    unfold connect_stop in Hstep.
    apply bind_Ok in Hstep. destruct Hstep as (ces & Hces & Hstep).
    destruct (GraphTileBuilder.AddName _ _) as [o1 t1] in Hstep.
    destruct (GraphTileBuilder.AddName _ _) as [o2 t2] in Hstep.
    inversion Hstep; subst st1; clear Hstep.
    apply AddOSMConnection_new in Hces.
    destruct Hces as (new1 & -> & _ & Hall1).
    apply IH in Hrun. cbn [fst] in Hrun.
    destruct Hrun as (new2 & Hnew2 & Hall2).
    exists (new1 ++ new2). split; [rewrite Hnew2, app_assoc; reflexivity|].
    apply Forall_app. split.
    + eapply Forall_impl; [exact Hall1|].
      intros c (Hstop & Htile & _). split; [exact Htile|].
      exists stop. split; [apply list_elem_of_here|exact Hstop].
    + eapply Forall_impl; [exact Hall2|].
      intros c (Htile & stop' & Hin & Hstop). split; [exact Htile|].
      exists stop'. split; [apply list_elem_of_further; exact Hin|exact Hstop].
Qed.

(** What [build_tile] is made of when it returns. *)
Lemma build_tile_Ok tile_id transit tile tb r :
  build_tile sort AddTransitStop AddTransitRoute fuel read_pbf tiles tile_id
    transit tile tb = Ok r ->
  exists cs tb1 route_types,
    foldM (connect_stop AddTransitStop tile) (Transit.stops transit)
      ([], GraphTileBuilder.tables tb) = Ok cs /\
    let psp :=
      ProcessStopPairs transit (GraphTileBuilder.date_created tb) ∅ tile_id in
    let bs :=
      form_departures transit (departures psp) (with_tables (snd cs) tb) in
    same_graph tb1 tb /\
    GraphTileBuilder.transit_departures tb1
    = GraphTileBuilder.transit_departures (b_tilebuilder bs) /\
    route_types
    = fst (AddRoutes AddTransitRoute transit (b_route_keys bs)
             (GraphTileBuilder.tables (b_tilebuilder bs))) /\
    AddToGraph fuel read_pbf tiles (sort (fst cs)) route_types tb1
      (b_stop_edge_map bs) (stop_access psp) = Ok r.
Proof.
  unfold build_tile. intros Hrun.
  apply bind_Ok in Hrun. destruct Hrun as (cs & Hcs & Hrun).
  cbv zeta in Hrun.
  destruct (AddRoutes _ _ _ _) as [route_types tables'] eqn:Hroutes in Hrun.
  eexists cs, _, route_types. split; [exact Hcs|]. cbv zeta.
  split; [|split; [|split; [|exact Hrun]]].
  - eapply same_graph_trans; [|eapply same_graph_trans].
    + instantiate (1 := b_tilebuilder _). repeat split.
    + apply form_departures_same_graph.
    + repeat split.
  - reflexivity.
  - rewrite Hroutes. reflexivity.
Qed.

End BuildTileFacts.

Section BuildTileTheorems.
Context {baldr : Baldr} {builder : GraphTileBuilder.Ops} {geo : midgard.Ops}
  {calendar : DateTime.Ops} {stl : unordered_multimap.Ops}.
Variable sort : list OSMConnectionEdge.t -> list OSMConnectionEdge.t.
Variable AddTransitStop :
  Z -> Z -> GraphTileBuilder.Tables -> GraphTileBuilder.Tables.
Variable AddTransitRoute :
  nat -> Transit_Route.t -> GraphTileBuilder.Tables -> GraphTileBuilder.Tables.
Variable fuel : nat.
Variable read_pbf : GraphId -> option Transit.t.
Variable tiles : gmap GraphId nat.

Hypothesis less_asym :
  forall a b, GraphId_less a b = true -> GraphId_less b a = false.

(** The entry of stop [k] in the stop edge map, its node in the rebuilt
    tile, and the transit departures of the stop. *)
Lemma build_tile_stop tile_id transit tile tb r k stop :
  stops_in_order (Transit.stops transit) ->
  build_tile sort AddTransitStop AddTransitRoute fuel read_pbf tiles tile_id
    transit tile tb = Ok r ->
  Transit.stops transit !! k = Some stop ->
  exists cs se tds node,
    foldM (connect_stop AddTransitStop tile) (Transit.stops transit)
      ([], GraphTileBuilder.tables tb) = Ok cs /\
    StopEdges.origin_pbf_graphid se = Transit_Stop.graphid stop /\
    Forall2 (served_by se) tds
      (equal_range
         (departures
            (ProcessStopPairs transit (GraphTileBuilder.date_created tb) ∅
               tile_id))
         (Transit_Stop.graphid stop)) /\
    (forall td, td ∈ tds -> td ∈ GraphTileBuilder.transit_departures r) /\
    GraphTileBuilder.nodes r !! (List.length (GraphTileBuilder.nodes tb) + k)
    = Some node /\
    rebuilt_stop_node tiles (sort (fst cs))
      (GraphTileBuilder.directededges r) se node.
Proof using less_asym.
  intros Hord Hrun Hstop.
  apply build_tile_Ok in Hrun.
  destruct Hrun as (cs & tb1 & route_types & Hcs & Hsame & Htd & _ & Hrun).
  cbv zeta in Hsame, Htd, Hrun.
  set (deps := departures (ProcessStopPairs transit _ ∅ tile_id)) in *.
  unfold form_departures in Htd, Hrun.
  destruct (stop_loop_linked less_asym deps (Transit.stops transit)
              (mkBuildState 1 (with_tables (snd cs) tb) ∅ ∅ []) Hord eq_refl)
    as (ses & tdss & Hmap & Hlen & Hentries & Htds & Hserved).
  cbv zeta in Hmap, Htds, Hserved.
  destruct (Forall3_lookup_l _ _ _ _ _ _ Hserved Hstop)
    as (se & tds & Hse & Htdsk & Hserved_k).
  destruct (Forall2_lookup_lr _ _ _ _ _ _ Hentries Hstop Hse)
    as [Horigin _].
  destruct (AddToGraph_rebuilt _ _ _ _ _ _ _ _ _ Hrun)
    as (_ & road & stops & Hnodes & Hroad & _ & _ & Heach).
  destruct (Heach k (Transit_Stop.graphid stop, se)) as (node & Hnode & Hok).
  { rewrite Hmap. apply lookup_zip_with_Some.
    exists (Transit_Stop.graphid stop), se. split; [reflexivity|].
    split; [|exact Hse]. rewrite list_lookup_fmap, Hstop. reflexivity. }
  exists cs, se, tds, node. split; [exact Hcs|]. split; [exact Horigin|].
  split; [exact Hserved_k|]. split; [|split; [|exact Hok]].
  - intros td Hin.
    rewrite (AddToGraph_transit_departures _ _ _ _ _ _ _ _ _ Hrun), Htd, Htds.
    apply elem_of_app. right. apply list_elem_of_In, in_concat.
    exists tds. split; [|apply list_elem_of_In; exact Hin].
    apply list_elem_of_In, (list_elem_of_lookup_2 _ k). exact Htdsk.
  - destruct Hsame as (_ & Hn & _). rewrite Hn in Hroad.
    rewrite Hnodes, lookup_app_r by lia.
    rewrite Hroad. replace (_ + k - _) with k by lia. exact Hnode.
Qed.

(** X18.  The work of [build] on a tile, from the transit data to the
    rebuilt tile: when the order of graph ids is asymmetric and the stops
    come in the order of their graph ids, every stop pair that passes the
    test on its initial days bitmap, leaves from stop [k] of the tile and
    arrives at a stop of the tile set has, in every tile that the work
    returns, a transit departure with its trip, its route and its departure
    time, and the node of its stop, node [k] after the road nodes, has a
    rail or bus edge with the line id of that departure to the graph id of
    its destination stop. *)
Theorem build_tile_departures_have_edges (tile_id : GraphId)
  (transit : Transit.t) (tile : GraphTile.t) (tb r : GraphTileBuilder.t)
  (k : nat) (stop : Transit_Stop.t) (sp : Transit_StopPair.t) :
  stops_in_order (Transit.stops transit) ->
  build_tile sort AddTransitStop AddTransitRoute fuel read_pbf tiles tile_id
    transit tile tb = Ok r ->
  Transit.stops transit !! k = Some stop ->
  sp ∈ Transit.stop_pairs transit ->
  initial_days (GraphTileBuilder.date_created tb) sp <> 0%Z ->
  Transit_StopPair.origin_graphid sp = Transit_Stop.graphid stop ->
  Is_Valid (GetGraphId (Transit_StopPair.destination_graphid sp) tiles)
  = true ->
  exists td node e,
    td ∈ GraphTileBuilder.transit_departures r /\
    TransitDeparture.tripid td = Transit_StopPair.trip_key sp /\
    TransitDeparture.routeid td = Transit_StopPair.route_index sp /\
    TransitDeparture.departure_time td
    = Transit_StopPair.origin_departure_time sp /\
    GraphTileBuilder.nodes r !! (List.length (GraphTileBuilder.nodes tb) + k)
    = Some node /\
    NodeInfo.stop_index node = id (Transit_Stop.graphid stop) /\
    e ∈ edges_of (GraphTileBuilder.directededges r) node /\
    DirectedEdge.lineid e = TransitDeparture.lineid td /\
    DirectedEdge.endnode e
    = GetGraphId (Transit_StopPair.destination_graphid sp) tiles /\
    (DirectedEdge.use e = kRail \/ DirectedEdge.use e = kBus).
Proof using less_asym.
  intros Hord Hrun Hstop Hsp Hdays Horigin Hvalid.
  destruct (build_tile_stop _ _ _ _ _ _ _ Hord Hrun Hstop)
    as (cs & se & tds & node & _ & Hse & Hserved & Htds & Hnode & Hok).
  set (date := GraphTileBuilder.date_created tb) in *.
  assert (Hdep : departure_of date sp
                 ∈ equal_range
                     (departures (ProcessStopPairs transit date ∅ tile_id))
                     (Transit_Stop.graphid stop)).
  { rewrite ProcessStopPairs_departures. unfold equal_range.
    rewrite unordered_multimap.range_order_perm. unfold emplaced.
    apply list_elem_of_fmap. exists (Transit_Stop.graphid stop, departure_of date sp).
    split; [reflexivity|]. apply list_elem_of_filter. split; [reflexivity|].
    apply list_elem_of_In, in_map_iff. exists sp. split; [rewrite Horigin; reflexivity|].
    unfold kept. apply filter_In. split; [apply list_elem_of_In; exact Hsp|].
    destruct (Z.eqb_spec (initial_days date sp) 0); [contradiction|reflexivity]. }
  apply list_elem_of_lookup in Hdep. destruct Hdep as (i & Hi).
  destruct (Forall2_lookup_r _ _ _ _ _ Hserved Hi)
    as (td & Htd & line & off & Hline & Hroute & Hdest & Heq).
  cbn [departure_of Departure.route Departure.dest_pbf_graphid] in Hroute, Hdest.
  destruct Hok as (cs' & ls & Hedges & _ & Hlines & _ & _ & Hidx).
  assert (Hin : line ∈ lines_in_tiles tiles (StopEdges.lines se)).
  { unfold lines_in_tiles. apply list_elem_of_In, filter_In.
    split; [apply list_elem_of_In; exact Hline|]. rewrite Hdest. exact Hvalid. }
  apply list_elem_of_lookup in Hin. destruct Hin as (j & Hj).
  destruct (Forall2_lookup_l _ _ _ _ _ Hlines Hj)
    as (e & He & Hend & Hid & Huse).
  exists td, node, e.
  split; [apply Htds, (list_elem_of_lookup_2 _ i); exact Htd|].
  subst td. cbn.
  split; [reflexivity|]. split; [reflexivity|]. split; [reflexivity|].
  split; [exact Hnode|]. split; [rewrite Hidx, Hse; reflexivity|].
  split; [|split; [exact Hid|split; [rewrite Hend, Hdest; reflexivity|exact Huse]]].
  rewrite Hedges. apply elem_of_app. right.
  apply (list_elem_of_lookup_2 _ j). exact He.
Qed.

Hypothesis sort_spec : forall l, std_sort l (sort l).

(** X19.  Under the same conditions, and for every function that
    [std::sort] can be, every connection that the loop over the stops makes
    is there in both directions in every tile that the work returns: the
    node of its stop has an edge to its OSM node, and its OSM node, when it
    is a road node of the tile, has an edge to the graph id of its stop,
    both transit connections with the length of the connection. *)
Theorem build_tile_connections_both_ways (tile_id : GraphId)
  (transit : Transit.t) (tile : GraphTile.t) (tb r : GraphTileBuilder.t) :
  stops_in_order (Transit.stops transit) ->
  build_tile sort AddTransitStop AddTransitRoute fuel read_pbf tiles tile_id
    transit tile tb = Ok r ->
  exists cs,
    foldM (connect_stop AddTransitStop tile) (Transit.stops transit)
      ([], GraphTileBuilder.tables tb) = Ok cs /\
    forall c,
      c ∈ fst cs ->
      (exists j stop node e,
          Transit.stops transit !! j = Some stop /\
          OSMConnectionEdge.stop_node c = Transit_Stop.graphid stop /\
          GraphTileBuilder.nodes r
            !! (List.length (GraphTileBuilder.nodes tb) + j) = Some node /\
          e ∈ edges_of (GraphTileBuilder.directededges r) node /\
          connection_from c e) /\
      (forall nb,
          GraphTileBuilder.nodes tb !! id (OSMConnectionEdge.osm_node c)
          = Some nb ->
          exists nb' e,
            GraphTileBuilder.nodes r !! id (OSMConnectionEdge.osm_node c)
            = Some nb' /\
            e ∈ edges_of (GraphTileBuilder.directededges r) nb' /\
            connection_to tiles c e).
Proof using less_asym sort_spec.
  intros Hord Hbuild.
  pose proof Hbuild as Hrun. apply build_tile_Ok in Hrun.
  destruct Hrun as (cs & tb1 & route_types & Hcs & Hsame & _ & _ & Hrun).
  cbv zeta in Hsame, Hrun.
  exists cs. split; [exact Hcs|]. intros c Hc.
  destruct (connect_stops_spec _ _ _ _ _ Hcs) as (new & Hnew & Hall).
  cbn [fst app] in Hnew. rewrite <- Hnew in Hall.
  destruct (sort_spec (fst cs)) as [Hperm Hsorted].
  assert (Hc' : c ∈ sort (fst cs)) by (rewrite Hperm; exact Hc).
  rewrite Forall_forall in Hall.
  destruct (Hall _ Hc) as (Htile & stop & Hstop & Hnode).
  split.
  - apply list_elem_of_lookup in Hstop. destruct Hstop as (j & Hj).
    destruct (build_tile_stop _ _ _ _ _ _ _ Hord Hbuild Hj)
      as (cs' & se & tds & node & Hcs' & Hse & _ & _ & Hnodej & Hok).
    rewrite Hcs in Hcs'. inversion Hcs'; subst cs'; clear Hcs'.
    destruct Hok as (es & ls & Hedges & Hconns & _).
    assert (Hin : c ∈ connections_of (StopEdges.origin_pbf_graphid se)
                      (sort (fst cs))).
    { unfold connections_of. apply list_elem_of_In, filter_In.
      split; [apply list_elem_of_In; exact Hc'|].
      apply bool_decide_eq_true_2. rewrite Hse. exact Hnode. }
    apply list_elem_of_lookup in Hin. destruct Hin as (i & Hi).
    destruct (Forall2_lookup_l _ _ _ _ _ Hconns Hi) as (e & He & Hfrom).
    exists j, stop, node, e. split; [exact Hj|]. split; [exact Hnode|].
    split; [exact Hnodej|]. split; [|exact Hfrom].
    rewrite Hedges. apply elem_of_app. left.
    apply (list_elem_of_lookup_2 _ i). exact He.
  - intros nb Hnb.
    destruct Hsame as (_ & Hn & He & _).
    destruct (AddToGraph_sorted fuel read_pbf tiles (sort (fst cs))
                route_types tb1 _ _ r (tileid (GraphTile.graphid tile))
                Hrun Hsorted) as [Heach _].
    { apply Forall_forall. intros d Hd. rewrite Hperm in Hd.
      destruct (Hall _ Hd) as [Ht _]. exact Ht. }
    rewrite Hn in Heach.
    destruct (Heach _ _ Hnb) as (nb' & es & Hnb' & Hedges & Hto).
    assert (Hin : c ∈ connections_at (id (OSMConnectionEdge.osm_node c))
                      (sort (fst cs))).
    { unfold connections_at. apply list_elem_of_In, filter_In.
      split; [apply list_elem_of_In; exact Hc'|]. apply Nat.eqb_refl. }
    apply list_elem_of_lookup in Hin. destruct Hin as (i & Hi).
    destruct (Forall2_lookup_l _ _ _ _ _ Hto Hi) as (e & Hei & Hconn).
    exists nb', e. split; [exact Hnb'|]. split; [|exact Hconn].
    rewrite Hedges. apply elem_of_app. right.
    apply (list_elem_of_lookup_2 _ i). exact Hei.
Qed.

End BuildTileTheorems.


(** ** [build]: the connections that reach [AddToGraph]

    [AddToGraph] is called from [build] alone, line 982, with the
    connections that [AddOSMConnection] has made for the stops of the tile
    and with the map of the tiles that [build] goes through. *)

Lemma foldM_invariant {A S : Type} (P : S -> Prop) (f : A -> S -> res S) l :
  (forall a s s', P s -> f a s = Ok s' -> P s') ->
  forall s s', P s -> foldM f l s = Ok s' -> P s'.
Proof.
  intros Hstep. induction l as [|a l IH]; intros s s' Hs Hrun; simpl in Hrun.
  - inversion Hrun; subst s'. exact Hs.
  - apply bind_Ok in Hrun. destruct Hrun as (s1 & Hf & Hrun).
    apply (IH s1 s'); [|exact Hrun]. apply (Hstep a s s1 Hs Hf).
Qed.

Section OwnTile.
Context {baldr : Baldr} {geo : midgard.Ops}.

(** The start node of the search is a node of the tile that is searched,
    once an edge has been found. *)
Lemma closest_search_in_tile stop_ll wayid tile st :
  closest_search stop_ll wayid tile = Ok st ->
  st = closest_start \/
  Tile_Base (startnode st) = Tile_Base (GraphTile.graphid tile).
Proof.
  unfold closest_search.
  apply (foldM_invariant
           (fun st => st = closest_start \/
                      Tile_Base (startnode st)
                      = Tile_Base (GraphTile.graphid tile)));
    [|left; reflexivity].
  intros [i node] s s' Hs. unfold closest_node. cbn [fst snd].
  revert s s' Hs.
  apply (foldM_invariant
           (fun st => st = closest_start \/
                      Tile_Base (startnode st)
                      = Tile_Base (GraphTile.graphid tile))).
  intros j s s' Hs Hrun. unfold closest_edge in Hrun.
  apply bind_Ok in Hrun. destruct Hrun as (e & _ & Hrun).
  destruct (EdgeInfo.wayid _ =? wayid)%Z; [|inversion Hrun; subst; exact Hs].
  destruct (SFltb _ _); inversion Hrun; subst; [|exact Hs].
  right. reflexivity.
Qed.

(** The connections that [AddOSMConnection] makes for a stop whose graph
    id is on the level of the tile lead to that stop, and the tile of the
    stop is the tile that is searched: the tile that [build] is at, which
    is one of the tiles of [tile_node_counts]. *)
Lemma AddOSMConnection_own_tile stop tile connection_edges connection_edges' :
  AddOSMConnection stop tile connection_edges = Ok connection_edges' ->
  level (Transit_Stop.graphid stop) = level (GraphTile.graphid tile) ->
  exists new,
    connection_edges' = connection_edges ++ new /\
    Forall (fun c =>
              OSMConnectionEdge.stop_node c = Transit_Stop.graphid stop /\
              Tile_Base (OSMConnectionEdge.stop_node c)
              = Tile_Base (GraphTile.graphid tile)) new.
Proof.
  unfold AddOSMConnection. intros Hrun Hlevel.
  apply bind_Ok in Hrun. destruct Hrun as (st & Hsearch & Hrun).
  apply closest_search_in_tile in Hsearch.
  unfold connect in Hrun.
  destruct (negb (Is_Valid (startnode st)) && negb (Is_Valid (endnode st)))
    eqn:Hguard.
  { inversion Hrun; subst. exists []. rewrite app_nil_r.
    split; [reflexivity|constructor]. }
  destruct Hsearch as [->|Hstart].
  { cbn in Hguard. rewrite Is_Valid_invalid in Hguard. discriminate. }
  apply bind_Ok in Hrun. destruct Hrun as (ce1 & Hce1 & Hrun).
  assert (H1 : exists new1,
             ce1 = connection_edges ++ new1 /\
             Forall (fun c =>
                       OSMConnectionEdge.stop_node c = Transit_Stop.graphid stop /\
                       Tile_Base (OSMConnectionEdge.stop_node c)
                       = Tile_Base (GraphTile.graphid tile)) new1).
  { destruct (bool_decide _) eqn:Hb in Hce1.
    - apply bool_decide_eq_true in Hb.
      apply bind_Ok in Hce1. destruct Hce1 as (shape & _ & Hce1).
      inversion Hce1; subst ce1. eexists [_]. split; [reflexivity|].
      constructor; [|constructor]. cbn. split; [reflexivity|].
      rewrite Hb. exact Hstart.
    - inversion Hce1; subst ce1. exists []. rewrite app_nil_r.
      split; [reflexivity|constructor]. }
  destruct H1 as (new1 & -> & Hnew1).
  destruct (bool_decide _) eqn:Hb in Hrun.
  2:{ inversion Hrun; subst. exists new1. split; [reflexivity|exact Hnew1]. }
  destruct (tileid (startnode st) =? tileid (endnode st)) eqn:Ht.
  2:{ inversion Hrun; subst. exists new1. split; [reflexivity|exact Hnew1]. }
  apply bind_Ok in Hrun. destruct Hrun as (shape2 & _ & Hrun).
  inversion Hrun; subst. eexists (new1 ++ [_]).
  split; [rewrite app_assoc; reflexivity|].
  apply Forall_app. split; [exact Hnew1|].
  constructor; [|constructor]. cbn. split; [reflexivity|].
  apply bool_decide_eq_true in Hb. apply Nat.eqb_eq in Ht.
  unfold Tile_Base in *. inversion Hb. inversion Hstart. f_equal; congruence.
Qed.

(** A stop of the tile that [build] is at gets a valid graph id from
    [GetGraphId] when the tile is among the tiles of [tile_node_counts],
    unless the id is the invalid id itself. *)
Lemma GetGraphId_own_tile (g tile : GraphId) (counts : gmap GraphId nat) n :
  Tile_Base g = Tile_Base tile ->
  counts !! Tile_Base tile = Some n ->
  mkGraphId (tileid g) (level g) (id g + n) <> kInvalidGraphId ->
  Is_Valid (GetGraphId g counts) = true.
Proof.
  intros Hbase Hn Hvalid. unfold GetGraphId, Is_Valid.
  rewrite Hbase, Hn. apply negb_true_iff, bool_decide_eq_false. exact Hvalid.
Qed.

End OwnTile.

Section BuildTileConnections.
Context {baldr : Baldr} {builder : GraphTileBuilder.Ops} {geo : midgard.Ops}.
Variable sort : list OSMConnectionEdge.t -> list OSMConnectionEdge.t.
Variable AddTransitStop :
  Z -> Z -> GraphTileBuilder.Tables -> GraphTileBuilder.Tables.
Variable fuel : nat.
Variable tiles : gmap GraphId nat.

Lemma well_formed_same_graph (tb tb1 : GraphTileBuilder.t) :
  same_graph tb1 tb -> well_formed tb -> well_formed tb1.
Proof.
  intros (_ & Hn & He & Hs & Hsb & Hr & Hrb) [H1 H2 H3 H4 H5 H6 H7].
  constructor; rewrite ?Hn, ?He, ?Hs, ?Hsb, ?Hr, ?Hrb; assumption.
Qed.

(** The connections of the loop over the stops lead to stops of the tile
    that is searched. *)
Lemma connect_stops_own_tile tile stops : forall st st',
  foldM (connect_stop AddTransitStop tile) stops st = Ok st' ->
  Forall (fun stop =>
            level (Transit_Stop.graphid stop)
            = level (GraphTile.graphid tile)) stops ->
  exists new,
    fst st' = fst st ++ new /\
    Forall (fun c =>
              Tile_Base (OSMConnectionEdge.stop_node c)
              = Tile_Base (GraphTile.graphid tile) /\
              exists stop,
                stop ∈ stops /\
                OSMConnectionEdge.stop_node c = Transit_Stop.graphid stop)
      new.
Proof.
  induction stops as [|stop stops IH]; intros st st' Hrun Hlevel;
    simpl in Hrun.
  - inversion Hrun; subst st'. exists []. rewrite app_nil_r.
    split; [reflexivity|constructor].
  - apply Forall_cons in Hlevel. destruct Hlevel as [Hl Hlevel].
    apply bind_Ok in Hrun. destruct Hrun as (st1 & Hstep & Hrun).
    unfold connect_stop in Hstep.
    apply bind_Ok in Hstep. destruct Hstep as (ces & Hces & Hstep).
    destruct (GraphTileBuilder.AddName _ _) as [o1 t1] in Hstep.
    destruct (GraphTileBuilder.AddName _ _) as [o2 t2] in Hstep.
    inversion Hstep; subst st1; clear Hstep.
    apply AddOSMConnection_own_tile in Hces; [|exact Hl].
    destruct Hces as (new1 & -> & Hall1).
    apply IH in Hrun; [|exact Hlevel]. cbn [fst] in Hrun.
    destruct Hrun as (new2 & Hnew2 & Hall2).
    exists (new1 ++ new2). split; [rewrite Hnew2, app_assoc; reflexivity|].
    apply Forall_app. split.
    + eapply Forall_impl; [exact Hall1|].
      intros c (Hstop & Htile). split; [exact Htile|].
      exists stop. split; [apply list_elem_of_here|exact Hstop].
    + eapply Forall_impl; [exact Hall2|].
      intros c (Htile & stop' & Hin & Hstop). split; [exact Htile|].
      exists stop'. split; [apply list_elem_of_further; exact Hin|exact Hstop].
Qed.

(** X20.  The connections that the loop over the stops of [build] makes
    reach the first pass of [AddToGraph] with stops that [GetGraphId]
    resolves.  When the tile that is searched is among the tiles of
    [tile_node_counts], and the graph ids of the stops are on the level of
    the tile and do not become the invalid id, every connection, in whatever
    order the sort leaves the connections, has a stop with a valid graph id,
    and the pass over the road nodes of the well-formed tile ends. *)
Theorem build_connections_resolve (transit : Transit.t) (tile : GraphTile.t)
  (tb : GraphTileBuilder.t) (n : nat)
  (cs : list OSMConnectionEdge.t * GraphTileBuilder.Tables) :
  well_formed tb ->
  List.length (GraphTileBuilder.sign tb) < fuel ->
  List.length (GraphTileBuilder.accessrestriction tb) < fuel ->
  (forall l, sort l ≡ₚ l) ->
  tiles !! Tile_Base (GraphTile.graphid tile) = Some n ->
  Forall (fun stop =>
            level (Transit_Stop.graphid stop)
            = level (GraphTile.graphid tile) /\
            mkGraphId (tileid (Transit_Stop.graphid stop))
              (level (Transit_Stop.graphid stop))
              (id (Transit_Stop.graphid stop) + n) <> kInvalidGraphId)
    (Transit.stops transit) ->
  foldM (connect_stop AddTransitStop tile) (Transit.stops transit)
    ([], GraphTileBuilder.tables tb) = Ok cs ->
  List.length (fst cs) < fuel ->
  Forall (fun c =>
            Is_Valid (GetGraphId (OSMConnectionEdge.stop_node c) tiles) = true)
    (sort (fst cs)) /\
  forall tb1,
    same_graph tb1 tb ->
    exists rs, road_pass fuel tiles (sort (fst cs)) tb1 = Ok rs.
Proof.
  intros Hwf Hsign Hres Hsort Hn Hstops Hrun Hfuel.
  assert (Hvalid : Forall (fun c =>
                             Is_Valid
                               (GetGraphId (OSMConnectionEdge.stop_node c)
                                  tiles) = true) (sort (fst cs))).
  { rewrite Hsort.
    destruct (connect_stops_own_tile tile (Transit.stops transit) _ _ Hrun)
      as (new & Hnew & Hall).
    { eapply Forall_impl; [exact Hstops|]. intros stop [Hl _]. exact Hl. }
    cbn [fst] in Hnew. rewrite Hnew. cbn [app].
    eapply Forall_impl; [exact Hall|].
    intros c (Hbase & stop & Hin & Hstop).
    apply (GetGraphId_own_tile _ (GraphTile.graphid tile) _ n Hbase Hn).
    rewrite Hstop. rewrite Forall_forall in Hstops.
    apply (Hstops _ Hin). }
  split; [exact Hvalid|].
  intros tb1 Hsame.
  destruct Hsame as (Hg & Hnodes & Hedges & Hs & Hsb & Hr & Hrb).
  destruct (road_pass_total fuel tiles (sort (fst cs)) tb1) as (rs & Hrs & _).
  - apply (well_formed_same_graph tb); [|exact Hwf]. repeat split; assumption.
  - rewrite Hs. exact Hsign.
  - rewrite Hr. exact Hres.
  - rewrite Hsort. exact Hfuel.
  - exact Hvalid.
  - exists rs. exact Hrs.
Qed.

End BuildTileConnections.

(** *** The work on the tile of the scenario *)

Lemma build_tile_departures_have_edges_witness :
  exists td node e,
    td ∈ GraphTileBuilder.transit_departures ScenarioBuildTile.rebuilt /\
    TransitDeparture.tripid td
    = Transit_StopPair.trip_key (ScenarioTransit.pair_on_pivot [] []) /\
    TransitDeparture.routeid td
    = Transit_StopPair.route_index (ScenarioTransit.pair_on_pivot [] []) /\
    TransitDeparture.departure_time td
    = Transit_StopPair.origin_departure_time
        (ScenarioTransit.pair_on_pivot [] []) /\
    GraphTileBuilder.nodes ScenarioBuildTile.rebuilt
      !! (List.length (GraphTileBuilder.nodes ScenarioTile.tilebuilder) + 0)
    = Some node /\
    NodeInfo.stop_index node = id (Transit_Stop.graphid ScenarioTransit.stop0) /\
    e ∈ edges_of (GraphTileBuilder.directededges ScenarioBuildTile.rebuilt)
          node /\
    DirectedEdge.lineid e = TransitDeparture.lineid td /\
    DirectedEdge.endnode e
    = GetGraphId (baldr := Scenario.baldr)
        (Transit_StopPair.destination_graphid
           (ScenarioTransit.pair_on_pivot [] []))
        ScenarioTile.tile_node_counts /\
    (DirectedEdge.use e = kRail \/ DirectedEdge.use e = kBus).
Proof.
  apply (build_tile_departures_have_edges (baldr := Scenario.baldr)
           (geo := Scenario.geo) (calendar := Scenario.calendar)
           (stl := Scenario.stl)
           insertion_sort ScenarioBuildTile.AddTransitStop
           ScenarioLine.AddTransitRoute 10 ScenarioBuildTile.read_pbf
           ScenarioTile.tile_node_counts Scenario_less_asym
           (mkGraphId 0 2 0) ScenarioSchedule.mixed ScenarioTile.tile
           ScenarioTile.tilebuilder ScenarioBuildTile.rebuilt 0
           ScenarioTransit.stop0 (ScenarioTransit.pair_on_pivot [] [])).
  - exact scenario_stops_in_order.
  - vm_compute; reflexivity.
  - reflexivity.
  - apply list_elem_of_here.
  - vm_compute; discriminate.
  - reflexivity.
  - vm_compute; reflexivity.
Defined.

Lemma build_tile_connections_both_ways_witness :
  exists cs,
    foldM (connect_stop (baldr := Scenario.baldr) (geo := Scenario.geo)
             ScenarioBuildTile.AddTransitStop ScenarioTile.tile)
      (Transit.stops ScenarioSchedule.mixed)
      ([], GraphTileBuilder.tables ScenarioTile.tilebuilder) = Ok cs /\
    forall c,
      c ∈ fst cs ->
      (exists j stop node e,
          Transit.stops ScenarioSchedule.mixed !! j = Some stop /\
          OSMConnectionEdge.stop_node c = Transit_Stop.graphid stop /\
          GraphTileBuilder.nodes ScenarioBuildTile.rebuilt
            !! (List.length (GraphTileBuilder.nodes ScenarioTile.tilebuilder)
                + j) = Some node /\
          e ∈ edges_of
                (GraphTileBuilder.directededges ScenarioBuildTile.rebuilt)
                node /\
          connection_from c e) /\
      (forall nb,
          GraphTileBuilder.nodes ScenarioTile.tilebuilder
            !! id (OSMConnectionEdge.osm_node c) = Some nb ->
          exists nb' e,
            GraphTileBuilder.nodes ScenarioBuildTile.rebuilt
              !! id (OSMConnectionEdge.osm_node c) = Some nb' /\
            e ∈ edges_of
                  (GraphTileBuilder.directededges ScenarioBuildTile.rebuilt)
                  nb' /\
            connection_to (baldr := Scenario.baldr)
              ScenarioTile.tile_node_counts c e).
Proof.
  apply (build_tile_connections_both_ways (baldr := Scenario.baldr)
           (geo := Scenario.geo) (calendar := Scenario.calendar)
           (stl := Scenario.stl)
           insertion_sort ScenarioBuildTile.AddTransitStop
           ScenarioLine.AddTransitRoute 10 ScenarioBuildTile.read_pbf
           ScenarioTile.tile_node_counts Scenario_less_asym
           insertion_sort_std_sort
           (mkGraphId 0 2 0) ScenarioSchedule.mixed ScenarioTile.tile
           ScenarioTile.tilebuilder ScenarioBuildTile.rebuilt).
  - exact scenario_stops_in_order.
  - vm_compute. reflexivity.
Defined.

Lemma build_connections_resolve_witness :
  Forall (fun c =>
            Is_Valid (baldr := Scenario.baldr)
              (GetGraphId (baldr := Scenario.baldr)
                 (OSMConnectionEdge.stop_node c)
                 ScenarioTile.tile_node_counts) = true)
    (insertion_sort (fst ScenarioBuildTile.connections)) /\
  forall tb1,
    same_graph tb1 ScenarioTile.tilebuilder ->
    exists rs,
      road_pass (baldr := Scenario.baldr) 10 ScenarioTile.tile_node_counts
        (insertion_sort (fst ScenarioBuildTile.connections)) tb1 = Ok rs.
Proof.
  apply (build_connections_resolve (baldr := Scenario.baldr)
           (geo := Scenario.geo) insertion_sort
           ScenarioBuildTile.AddTransitStop 10 ScenarioTile.tile_node_counts
           ScenarioSchedule.mixed ScenarioTile.tile ScenarioTile.tilebuilder
           2 ScenarioBuildTile.connections).
  - exact scenario_well_formed.
  - cbn. lia.
  - cbn. lia.
  - exact insertion_sort_Permutation.
  - vm_compute. reflexivity.
  - repeat constructor; vm_compute; discriminate.
  - vm_compute. reflexivity.
  - vm_compute. lia.
Defined.

(** The tile that the work on the scenario returns: four nodes, the two
    road nodes with their edge and two connections each, the node of stop 0
    with two connections and the bus line to stop 1, the node of stop 1 with
    two connections; one transit departure, on line 1. *)
Example build_tile_scenario :
  (fun n => (NodeInfo.edge_index n, NodeInfo.edge_count n))
    <$> GraphTileBuilder.nodes ScenarioBuildTile.rebuilt
  = [(0, 3); (3, 3); (6, 3); (9, 2)] /\
  (fun e => (id (DirectedEdge.endnode e), DirectedEdge.use e,
             DirectedEdge.lineid e))
    <$> GraphTileBuilder.directededges ScenarioBuildTile.rebuilt
  = [(1, kUseOther 0, 0%Z); (3, kTransitConnection, 0%Z);
     (2, kTransitConnection, 0%Z);
     (0, kUseOther 0, 0%Z); (3, kTransitConnection, 0%Z);
     (2, kTransitConnection, 0%Z);
     (0, kTransitConnection, 0%Z); (1, kTransitConnection, 0%Z);
     (3, kBus, 1%Z);
     (0, kTransitConnection, 0%Z); (1, kTransitConnection, 0%Z)] /\
  TransitDeparture.lineid
    <$> GraphTileBuilder.transit_departures ScenarioBuildTile.rebuilt
  = [1%Z].
Proof. vm_compute. repeat split. Qed.
